(** * FindDupes: a shallow embedding of the duplicate finder and its cleaner

    The development follows the Python sources
    [duplicate_file_finder.py], [duplicate_finder.py] and
    [duplicate_file_cleaner.py].  Python values are modelled as follows:
    - a [pathlib.Path] is its [parts] tuple (equality and ordering of
      paths are defined by CPython on that tuple);
    - [str] is [string], restricted to ASCII (so [str.lower] and the
      regular-expression class [\d] are the ASCII ones);
    - [bytes] is [list byte];
    - a [dict] is an insertion-ordered association list;
    - a [set] is a [gset];
    - exceptions are values of the type [exn] carried by [result]. *)

From Stdlib Require Import ZArith QArith Strings.String Strings.Ascii Strings.Byte.
From Stdlib Require Import Structures.OrdersEx Lia Bool DecimalString QArith.Qabs QArith.Qminmax QArith.Qround.
From Stdlib Require DecimalNat DecimalFacts.
From stdpp Require Import base list gmap sets strings.

Set Warnings "-register-all,-clear-no-such-hyp".

Local Open Scope string_scope.
Local Open Scope list_scope.
Local Open Scope Z_scope.

(** ** Python results and exceptions *)

Inductive exn : Type :=
| ValueError (msg : string)
| NameError (name : string)
| KeyError (key : string)
| IndexError
| JSONDecodeError
| TypeError
| AttributeError
| OSError.

Inductive result (A : Type) : Type :=
| Ok (a : A)
| Raise (e : exn).

Arguments Ok {A} a.
Arguments Raise {A} e.

Definition rbind {A B} (m : result A) (k : A -> result B) : result B :=
  match m with
  | Ok a => k a
  | Raise e => Raise e
  end.

Notation "x <-- m ;; k" := (rbind m (fun x => k))
  (at level 100, m at next level, right associativity).

(** ** Python sequences *)

Module Py.

(** [list.sort] / [sorted]: a stable sort driven by [<].  A stable
    insertion sort computes the same list. *)
Fixpoint sort_insert {A} (ltb : A -> A -> bool) (x : A) (l : list A) : list A :=
  match l with
  | [] => [x]
  | y :: l' => if ltb y x then y :: sort_insert ltb x l' else x :: y :: l'
  end.

Fixpoint sort {A} (ltb : A -> A -> bool) (l : list A) : list A :=
  match l with
  | [] => []
  | x :: l' => sort_insert ltb x (sort ltb l')
  end.

(** [itertools.combinations(l, 2)]. *)
Fixpoint combinations2 {A} (l : list A) : list (A * A) :=
  match l with
  | [] => []
  | x :: l' => List.map (pair x) l' ++ combinations2 l'
  end.

(** Insertion-ordered dictionaries. *)
Definition dict (K V : Type) : Type := list (K * V).

Fixpoint dict_get {K V} `{EqDecision K} (k : K) (d : dict K V) : option V :=
  match d with
  | [] => None
  | (k', v) :: d' => if decide (k' = k) then Some v else dict_get k d'
  end.

(** [d[k] = v]: replaces in place, or appends a new key at the end. *)
Fixpoint dict_set {K V} `{EqDecision K} (k : K) (v : V) (d : dict K V) : dict K V :=
  match d with
  | [] => [(k, v)]
  | (k', v') :: d' =>
      if decide (k' = k) then (k', v) :: d' else (k', v') :: dict_set k v d'
  end.

(** [d[k].append(x)] on a [defaultdict(list)]. *)
Fixpoint dict_append {K V} `{EqDecision K} (k : K) (x : V) (d : dict K (list V))
  : dict K (list V) :=
  match d with
  | [] => [(k, [x])]
  | (k', xs) :: d' =>
      if decide (k' = k) then (k', xs ++ [x]) :: d' else (k', xs) :: dict_append k x d'
  end.

(** [d[k].add(x)] on a [defaultdict(set)]. *)
Fixpoint dict_add {K V} `{EqDecision K} `{Countable V} (k : K) (x : V) (d : dict K (gset V))
  : dict K (gset V) :=
  match d with
  | [] => [(k, {[ x ]})]
  | (k', xs) :: d' =>
      if decide (k' = k) then (k', {[ x ]} ∪ xs) :: d' else (k', xs) :: dict_add k x d'
  end.

(** Grouping loop: [for x in l: d[key x].append(val x)]. *)
Definition group_by {A K V} `{EqDecision K} (key : A -> K) (val : A -> V) (l : list A)
  : dict K (list V) :=
  foldl (fun d x => dict_append (key x) (val x) d) [] l.

(** [{k: v for k, v in d.items() if len(v) > 1}]. *)
Definition more_than_one {K V} (d : dict K (list V)) : dict K (list V) :=
  List.filter (fun kv => (1 <? length (snd kv))%nat) d.

End Py.

(** ** Floating-point numbers

    A Python [float] is an IEEE 754 binary64 number.  The finite ones
    are rational numbers and are modelled as such; an arithmetic
    operation gives the exact result rounded to the nearest binary64
    number, ties to the even significand.  A rounded value beyond the
    largest binary64 number stands for an infinity. *)

Module Float.

Definition pow2 (e : Z) : Q :=
  if 0 <=? e then inject_Z (2 ^ e) else Qmake 1 (Z.to_pos (2 ^ (- e))).

(** [floor (log2 |q|)] for [q] other than zero. *)
Definition ilog2 (q : Q) : Z :=
  let e := Z.log2 (Z.abs (Qnum q)) - Z.log2 (Zpos (Qden q)) in
  if Qle_bool (pow2 e) (Qabs q) then e else e - 1.

(** The nearest integer, ties to the even one. *)
Definition round_half_even (q : Q) : Z :=
  let f := Qfloor q in
  match Qcompare (q - inject_Z f) (1 # 2) with
  | Lt => f
  | Gt => f + 1
  | Eq => if Z.even f then f else f + 1
  end.

(** The spacing of the binary64 numbers around [q]: 53 significant
    bits, and [2^-1074] in the subnormal range. *)
Definition ulp_exponent (q : Q) : Z := Z.max (ilog2 q - 52) (-1074).

Definition round_double (q : Q) : Q :=
  if Qnum q =? 0 then 0%Q
  else
    let u := pow2 (ulp_exponent q) in
    (inject_Z (round_half_even (q / u)) * u)%Q.

(** [a - b] on floats. *)
Definition float_sub (a b : Q) : Q := round_double (a - b).

End Float.

(** ** Paths *)

Module PurePath.

(** A path is the tuple [Path.parts]: an optional anchor (["/"] or
    ["//"]) followed by the names. *)
Definition Path : Type := list string.

Definition is_anchor (s : string) : bool :=
  match s with
  | String c _ => Ascii.eqb c "/"
  | EmptyString => false
  end.

Definition has_anchor (p : Path) : bool :=
  match p with
  | a :: _ => is_anchor a
  | [] => false
  end.

(** [Path.name]: the final component, or [""] when the path is only an
    anchor or is empty. *)
Definition name (p : Path) : string :=
  match p with
  | [] => ""
  | [a] => if is_anchor a then "" else a
  | _ => List.last p ""
  end.

(** [Path.parent]. *)
Definition parent (p : Path) : Path :=
  match p with
  | [a] => if is_anchor a then p else []
  | _ => removelast p
  end.

(** Lexicographic comparison of sequences, as Python compares tuples
    and lists. *)
Fixpoint lex_compare {A} (cmp : A -> A -> comparison) (l1 l2 : list A) : comparison :=
  match l1, l2 with
  | [], [] => Eq
  | [], _ :: _ => Lt
  | _ :: _, [] => Gt
  | x :: l1', y :: l2' =>
      match cmp x y with
      | Eq => lex_compare cmp l1' l2'
      | c => c
      end
  end.

(** [Path.__lt__] compares the parts. *)
Definition path_compare (p q : Path) : comparison :=
  lex_compare String_as_OT.compare p q.

(** [str.split(sep)]. *)
Fixpoint split_on (sep : ascii) (s : string) : list string :=
  match s with
  | EmptyString => [EmptyString]
  | String c s' =>
      if Ascii.eqb c sep then EmptyString :: split_on sep s'
      else match split_on sep s' with
           | h :: t => String c h :: t
           | [] => [String c EmptyString]
           end
  end.

(** The root of a POSIX path string: exactly two leading slashes are
    kept, any other number of leading slashes collapses to one. *)
Definition parse_anchor (s : string) : list string :=
  match s with
  | String c1 s1 =>
      if Ascii.eqb c1 "/" then
        match s1 with
        | String c2 s2 =>
            if Ascii.eqb c2 "/" then
              match s2 with
              | String c3 _ => if Ascii.eqb c3 "/" then ["/"] else ["//"]
              | EmptyString => ["//"]
              end
            else ["/"]
        | EmptyString => ["/"]
        end
      else []
  | EmptyString => []
  end.

Definition keep_component (n : string) : bool :=
  negb (String.eqb n "") && negb (String.eqb n ".").

(** [Path(s)]. *)
Definition path_of_str (s : string) : Path :=
  parse_anchor s ++ List.filter keep_component (split_on "/" s).

(** [str(p)]. *)
Definition path_str (p : Path) : string :=
  match p with
  | [] => "."
  | a :: rest =>
      if is_anchor a then a +:+ String.concat "/" rest
      else String.concat "/" p
  end.

(** [p.relative_to(root)]. *)
Definition relative_to (p root : Path) : result Path :=
  if bool_decide (root `prefix_of` p) then Ok (drop (length root) p)
  else Raise (ValueError "path is not in the subpath of root").

(** [root / rel]. *)
Definition joinpath (root rel : Path) : Path :=
  if has_anchor rel then rel else root ++ rel.

(** Position of the last ['.'] of a name ([str.rfind(".")]). *)
Fixpoint rfind_dot (s : list ascii) : option nat :=
  match s with
  | [] => None
  | c :: s' =>
      match rfind_dot s' with
      | Some i => Some (S i)
      | None => if Ascii.eqb c "." then Some O else None
      end
  end.

(** [(Path.stem, Path.suffix)] of a name: the suffix starts at the last
    dot, unless that dot is the first or the last character. *)
Definition stem_suffix (n : string) : string * string :=
  match rfind_dot (list_ascii_of_string n) with
  | Some i =>
      if (0 <? i)%nat && (i <? String.length n - 1)%nat
      then (String.substring 0 i n, String.substring i (String.length n - i) n)
      else (n, "")
  | None => (n, "")
  end.

Definition stem (p : Path) : string := fst (stem_suffix (name p)).
Definition suffix (p : Path) : string := snd (stem_suffix (name p)).

(** [p.with_name(n)]: [ValueError] on a path with an empty name. *)
Definition with_name (p : Path) (n : string) : result Path :=
  if String.eqb (name p) "" then Raise (ValueError "has an empty name")
  else Ok (removelast p ++ [n]).

(** [p.with_stem(s)]. *)
Definition with_stem (p : Path) (s : string) : result Path :=
  with_name p (s +:+ suffix p).

Definition no_slash (n : string) : Prop :=
  Forall (fun c => c <> "/"%char) (list_ascii_of_string n).

(** The values a [Path] object can take: the anchor is ["/"] or ["//"],
    the names are non-empty, have no separator and are not ["."]. *)
Definition wf_name (n : string) : Prop :=
  n <> "" /\ n <> "." /\ no_slash n.

Definition wf_path (p : Path) : Prop :=
  match p with
  | [] => True
  | a :: rest => (a = "/" \/ a = "//" \/ wf_name a) /\ Forall wf_name rest
  end.

End PurePath.

Export PurePath.

(** ** The file system seen by the scripts

    A [filesystem] holds the entries that a walk of the tree reaches,
    each under the path by which the walk names it.  It describes a
    tree in which every entry is reached by its path as written: no
    path has a [..] component, no directory is a symbolic link, and
    every directory can be listed and searched.  (In a directory that
    cannot be listed, [Path.rglob] yields nothing; for an entry of a
    directory that cannot be searched, [Path.is_file] and
    [Path.exists] raise [PermissionError].  Such trees are not
    described here.) *)

Module FS.

Definition bytes : Type := list byte.

#[global] Instance byte_eq_decision : EqDecision byte := Byte.byte_eq_dec.

(** What the operating system holds at a file path.  [i_stat_fails]
    and [i_read_fails] describe a file on which a later [stat] or
    [open]/[read] raises [OSError] although the walk has listed it as a
    file; [i_symlink] marks a symbolic link that resolves to a regular
    file with these data. *)
Record inode : Type := mkInode {
  i_data : bytes;
  i_mtime : Q;
  i_symlink : bool;
  i_stat_fails : bool;
  i_read_fails : bool
}.

Record filesystem : Type := mkFs {
  files : gmap Path inode;
  dirs : gset Path
}.

Definition regular (data : bytes) (mtime : Q) : inode :=
  mkInode data mtime false false false.

Definition is_dir (fs : filesystem) (p : Path) : bool := bool_decide (p ∈ dirs fs).

(** [Path.is_file] follows symbolic links. *)
Definition is_file (fs : filesystem) (p : Path) : bool :=
  bool_decide (is_Some (files fs !! p)).

Definition is_symlink (fs : filesystem) (p : Path) : bool :=
  match files fs !! p with
  | Some i => i_symlink i
  | None => false
  end.

Definition exists_ (fs : filesystem) (p : Path) : bool := is_file fs p || is_dir fs p.

(** [Path.stat]: the pair [(st_size, st_mtime)]. *)
Definition stat (fs : filesystem) (p : Path) : result (Z * Q) :=
  match files fs !! p with
  | Some i =>
      if i_stat_fails i then Raise OSError
      else Ok (Z.of_nat (length (i_data i)), i_mtime i)
  | None => if is_dir fs p then Ok (4096, 0%Q) else Raise OSError
  end.

(** Opening a file for reading and obtaining its whole content. *)
Definition read_bytes (fs : filesystem) (p : Path) : result bytes :=
  match files fs !! p with
  | Some i => if i_read_fails i then Raise OSError else Ok (i_data i)
  | None => Raise OSError
  end.

(** [p] lies strictly below [root]. *)
Definition under (root p : Path) : bool :=
  bool_decide (root `prefix_of` p) && negb (bool_decide (root = p)).

(** [root.rglob("*")] yields every path below [root], in an order
    chosen by the operating system ([walk_order]). *)
Definition rglob (walk_order : list Path -> list Path) (fs : filesystem) (root : Path)
  : list Path :=
  walk_order (List.filter (under root) (elements (dom (files fs) ∪ dirs fs))).

End FS.

Export FS.

(** ** A small regular-expression engine for [re.search] *)

Module Re.

Inductive re : Type :=
| Void
| Eps
| Chr (P : ascii -> bool)
| Cat (r1 r2 : re)
| Alt (r1 r2 : re)
| Plus (r : re).

Fixpoint nullable (r : re) : bool :=
  match r with
  | Void => false
  | Eps => true
  | Chr _ => false
  | Cat r1 r2 => nullable r1 && nullable r2
  | Alt r1 r2 => nullable r1 || nullable r2
  | Plus r => nullable r
  end.

(** Brzozowski derivative; [Plus r] is [r r*], and [r*] is encoded as
    [Alt Eps (Plus r)]. *)
Fixpoint deriv (c : ascii) (r : re) : re :=
  match r with
  | Void => Void
  | Eps => Void
  | Chr P => if P c then Eps else Void
  | Cat r1 r2 =>
      if nullable r1 then Alt (Cat (deriv c r1) r2) (deriv c r2)
      else Cat (deriv c r1) r2
  | Alt r1 r2 => Alt (deriv c r1) (deriv c r2)
  | Plus r => Cat (deriv c r) (Alt Eps (Plus r))
  end.

(** Does some prefix of [s] match [r]? *)
Fixpoint match_prefix (r : re) (s : list ascii) : bool :=
  nullable r ||
  match s with
  | [] => false
  | c :: s' => match_prefix (deriv c r) s'
  end.

(** [re.search(r, s) is not None]: a match starting at some position. *)
Fixpoint search (r : re) (s : list ascii) : bool :=
  match_prefix r s ||
  match s with
  | [] => false
  | _ :: s' => search r s'
  end.

Definition lit_char (c : ascii) : re := Chr (Ascii.eqb c).

Fixpoint lit (s : list ascii) : re :=
  match s with
  | [] => Eps
  | c :: s' => Cat (lit_char c) (lit s')
  end.

Definition one_of (cs : list ascii) : re :=
  Chr (fun c => existsb (Ascii.eqb c) cs).

(** The class [\d] on ASCII text: the digits [0] to [9]. *)
Definition is_digit (c : ascii) : bool :=
  let n := nat_of_ascii c in (48 <=? n)%nat && (n <=? 57)%nat.

(** Denotation of a regular expression as a set of words. *)
Inductive matches : re -> list ascii -> Prop :=
| m_eps : matches Eps []
| m_chr P c : P c = true -> matches (Chr P) [c]
| m_cat r1 r2 s1 s2 : matches r1 s1 -> matches r2 s2 -> matches (Cat r1 r2) (s1 ++ s2)
| m_alt_l r1 r2 s : matches r1 s -> matches (Alt r1 r2) s
| m_alt_r r1 r2 s : matches r2 s -> matches (Alt r1 r2) s
| m_plus_one r s : matches r s -> matches (Plus r) s
| m_plus_more r s1 s2 : matches r s1 -> matches (Plus r) s2 -> matches (Plus r) (s1 ++ s2).

End Re.

(** ** duplicate_file_finder.py: the keeper heuristic *)

Module Finder.

Definition lower_ascii (c : ascii) : ascii :=
  let n := nat_of_ascii c in
  if (65 <=? n)%nat && (n <=? 90)%nat then ascii_of_nat (n + 32) else c.

(** [str.lower] on ASCII strings. *)
Definition lower (s : string) : list ascii :=
  List.map lower_ascii (list_ascii_of_string s).

(** The pattern [\(copy\)|[-_ ]copy]. *)
Definition copy_re : Re.re :=
  Re.Alt (Re.lit (list_ascii_of_string "(copy)"))
         (Re.Cat (Re.one_of (list_ascii_of_string "-_ "))
                 (Re.lit (list_ascii_of_string "copy"))).

(** The pattern [\(\d+\)]. *)
Definition number_re : Re.re :=
  Re.Cat (Re.lit_char "(")
         (Re.Cat (Re.Plus (Re.Chr Re.is_digit)) (Re.lit_char ")")).

Definition get_filename_score (file_path : Path) : Z :=
  let filename := lower (name file_path) in
  let score := 0 in
  let score := if Re.search copy_re filename then score + 10 else score in
  let score := if Re.search number_re filename then score + 5 else score in
  score + (Z.of_nat (length file_path) - 1).

(** Comparison of the tuples [(score, path)]. *)
Definition key_compare (a b : Z * Path) : comparison :=
  match Z.compare (fst a) (fst b) with
  | Eq => path_compare (snd a) (snd b)
  | c => c
  end.

Definition key_ltb (a b : Z * Path) : bool :=
  match key_compare a b with Lt => true | _ => false end.

(** [list.index]: position of the first equal element. *)
Fixpoint index (x : Path) (l : list Path) : result nat :=
  match l with
  | [] => Raise (ValueError "x not in list")
  | y :: l' =>
      if decide (y = x) then Ok 0%nat
      else i <-- index x l' ;; Ok (S i)
  end.

Definition guess_keeper (group : list Path) : result nat :=
  match group with
  | [] => Ok 0%nat
  | _ =>
      let scores := Py.sort key_ltb (List.map (fun p => (get_filename_score p, p)) group) in
      match scores with
      | [] => Raise IndexError
      | (_, best_path) :: _ =>
          i <-- index best_path group ;; Ok (i + 1)%nat
      end
  end.

(** *** The JSON report *)

Inductive report_item : Type :=
| duplicate_group (size_bytes : Z) (files : list string) (keep_index : Z)
| unique_file (size_bytes : Z) (file : string).

Record report_summary : Type := mkSummary {
  total_files_to_keep : nat;
  total_size_to_keep_bytes : Z
}.

(** [l[i]], with Python's negative indices. *)
Definition py_item {A} (l : list A) (i : Z) : result A :=
  let j := if i <? 0 then i + Z.of_nat (length l) else i in
  if j <? 0 then Raise IndexError
  else match l !! Z.to_nat j with
       | Some x => Ok x
       | None => Raise IndexError
       end.

Fixpoint mapM {A B} (f : A -> result B) (l : list A) : result (list B) :=
  match l with
  | [] => Ok []
  | x :: l' => y <-- f x ;; ys <-- mapM f l' ;; Ok (y :: ys)
  end.

(** [{f_path: group for group in confirmed_duplicates for f_path in group}];
    a group (a list object) is identified by its position. *)
Definition file_to_group_map (confirmed_duplicates : list (list Path)) : Py.dict Path nat :=
  foldl (fun d ig => foldl (fun d f_path => Py.dict_set f_path (fst ig) d) d (snd ig))
        [] (imap pair confirmed_duplicates).

Definition duplicate_file_paths_set (confirmed_duplicates : list (list Path)) : gset Path :=
  list_to_set (List.concat confirmed_duplicates).

Definition report_state : Type := list report_item * list (Path * Z) * gset nat.

Definition report_step (confirmed_duplicates : list (list Path)) (root_dir : Path)
  (st : report_state) (entry : Path * Z * Q) : result report_state :=
  let '(items, kept_files_info, processed_groups) := st in
  let '(file_path, size, _) := entry in
  if bool_decide (file_path ∈ duplicate_file_paths_set confirmed_duplicates) then
    gi <-- match Py.dict_get file_path (file_to_group_map confirmed_duplicates) with
           | Some gi => Ok gi
           | None => Raise (KeyError "file_path")
           end ;;
    group <-- match confirmed_duplicates !! gi with
              | Some g => Ok g
              | None => Raise (KeyError "file_path")
              end ;;
    if bool_decide (gi ∈ processed_groups) then Ok st
    else
      keeper_idx_1_based <-- guess_keeper group ;;
      keeper <-- py_item group (Z.of_nat keeper_idx_1_based - 1) ;;
      rels <-- mapM (fun p => relative_to p root_dir) group ;;
      Ok (items ++ [duplicate_group size (List.map path_str rels)
                                    (Z.of_nat keeper_idx_1_based - 1)],
          kept_files_info ++ [(keeper, size)],
          {[ gi ]} ∪ processed_groups)
  else
    rel <-- relative_to file_path root_dir ;;
    Ok (items ++ [unique_file size (path_str rel)],
        kept_files_info ++ [(file_path, size)],
        processed_groups).

Fixpoint report_loop (confirmed_duplicates : list (list Path)) (root_dir : Path)
  (st : report_state) (all_files_metadata : list (Path * Z * Q)) : result report_state :=
  match all_files_metadata with
  | [] => Ok st
  | entry :: rest =>
      st' <-- report_step confirmed_duplicates root_dir st entry ;;
      report_loop confirmed_duplicates root_dir st' rest
  end.

(** The [report_data] that [create_json_report] hands to [json.dump]. *)
Definition create_json_report (all_files_metadata : list (Path * Z * Q))
  (confirmed_duplicates : list (list Path)) (root_dir : Path)
  : result (list report_item * report_summary) :=
  st <-- report_loop confirmed_duplicates root_dir ([], [], ∅) all_files_metadata ;;
  let '(items, kept_files_info, _) := st in
  Ok (items,
      mkSummary (length kept_files_info)
                (foldr Z.add 0 (List.map snd kept_files_info))).

(** *** The scan pipeline of [duplicate_file_finder.py] *)

Definition CHUNK_SIZE : nat := 1024.

Definition get_file_stats (fs : filesystem) (file_path : Path) : option (Path * Z * Q) :=
  match stat fs file_path with
  | Ok (size, mtime) => if 0 <? size then Some (file_path, size, mtime) else None
  | Raise _ => None
  end.

(** [f.seek(-n, os.SEEK_END)] followed by [f.read(n)]; seeking before
    the start of the file raises [OSError]. *)
Definition read_tail (n : nat) (data : bytes) : result bytes :=
  if (length data <? n)%nat then Raise OSError
  else Ok (take n (drop (length data - n) data)).

Definition get_edge_chunks (fs : filesystem) (file_path : Path) (size : Z) : option bytes :=
  if size <? Z.of_nat (CHUNK_SIZE * 2) then
    match read_bytes fs file_path with
    | Ok data => Some data
    | Raise _ => None
    end
  else
    match read_bytes fs file_path with
    | Ok data =>
        let first_chunk := take CHUNK_SIZE data in
        match read_tail CHUNK_SIZE data with
        | Ok last_chunk => Some (first_chunk ++ last_chunk)
        | Raise _ => None
        end
    | Raise _ => None
    end.

Definition buffer_size : nat := 64 * 1024.

(** The comparison loop of [files_are_identical] on the two streams;
    each iteration consumes one buffer of each file. *)
Fixpoint compare_streams (bs : nat) (fuel : nat) (d1 d2 : bytes) : bool :=
  match fuel with
  | O => false
  | S fuel' =>
      let b1 := take bs d1 in
      let b2 := take bs d2 in
      if negb (bool_decide (b1 = b2)) then false
      else match b1 with
           | [] => true
           | _ => compare_streams bs fuel' (drop bs d1) (drop bs d2)
           end
  end.

Definition files_are_identical (fs : filesystem) (file1 file2 : Path) : bool :=
  match read_bytes fs file1, read_bytes fs file2 with
  | Ok d1, Ok d2 => compare_streams buffer_size (S (length d1)) d1 d2
  | _, _ => false
  end.

Definition path_ltb (p q : Path) : bool :=
  match path_compare p q with Lt => true | _ => false end.

(** [found_set.add(file1); found_set.add(file2)] on the first confirmed
    set that holds one of the two files; [None] when there is none. *)
Fixpoint add_to_found_set (file1 file2 : Path) (confirmed : list (gset Path))
  : option (list (gset Path)) :=
  match confirmed with
  | [] => None
  | s :: rest =>
      if bool_decide (file1 ∈ s) || bool_decide (file2 ∈ s)
      then Some (({[ file1; file2 ]} ∪ s) :: rest)
      else match add_to_found_set file1 file2 rest with
           | Some rest' => Some (s :: rest')
           | None => None
           end
  end.

(** One iteration of the loop over [combinations(group, 2)]. *)
Definition verify_pair (fs : filesystem) (st : list (gset Path) * gset Path)
  (pr : Path * Path) : list (gset Path) * gset Path :=
  let '(confirmed, checked_files) := st in
  let '(file1, file2) := pr in
  if bool_decide (file1 ∈ checked_files) && bool_decide (file2 ∈ checked_files) then st
  else if files_are_identical fs file1 file2 then
    let confirmed' :=
      match add_to_found_set file1 file2 confirmed with
      | Some c => c
      | None => confirmed ++ [ {[ file1; file2 ]} ]
      end in
    (confirmed', {[ file1; file2 ]} ∪ checked_files)
  else st.

Definition verify_group (fs : filesystem) (confirmed : list (gset Path)) (group : list Path)
  : list (gset Path) :=
  fst (foldl (verify_pair fs) (confirmed, ∅) (Py.combinations2 group)).

Section pipeline.

(** The order in which the operating system enumerates a directory tree
    and the order in which submitted futures complete. *)
Variable walk_order : list Path -> list Path.
Variable as_completed : forall A : Type, list A -> list A.

Definition phase1 (fs : filesystem) (root_dir : Path) : list (Path * Z * Q) :=
  let all_paths := List.filter (is_file fs) (rglob walk_order fs root_dir) in
  omap (get_file_stats fs) (as_completed _ all_paths).

Definition files_by_size (meta : list (Path * Z * Q)) : Py.dict Z (list Path) :=
  Py.group_by (fun r => snd (fst r)) (fun r => fst (fst r)) meta.

(** The edge chunks of the files of one size group, in completion
    order, without the files that could not be read or gave no bytes. *)
Definition edge_results (fs : filesystem) (size : Z) (group : list Path)
  : list (bytes * Path) :=
  omap (fun path =>
          match get_edge_chunks fs path size with
          | Some (b :: chunks) => Some (b :: chunks, path)
          | _ => None
          end) (as_completed _ group).

Definition phase2 (fs : filesystem) (potential : Py.dict Z (list Path)) : list (list Path) :=
  List.concat
    (List.map
       (fun sf : Z * list Path =>
          let chunks_by_hash := Py.group_by fst snd (edge_results fs (fst sf) (snd sf)) in
          List.map snd (Py.more_than_one chunks_by_hash))
       potential).

Definition phase3 (fs : filesystem) (likely_dupes : list (list Path)) : list (gset Path) :=
  foldl (verify_group fs) [] likely_dupes.

Definition find_duplicates (fs : filesystem) (root_dir : Path)
  : list (list Path) * list (Path * Z * Q) :=
  let all_files_metadata := phase1 fs root_dir in
  let potential_dupes_by_size := Py.more_than_one (files_by_size all_files_metadata) in
  let likely_dupes := phase2 fs potential_dupes_by_size in
  let confirmed_duplicates := phase3 fs likely_dupes in
  (List.map (fun s => Py.sort path_ltb (elements s)) confirmed_duplicates,
   all_files_metadata).

End pipeline.

End Finder.

(** ** duplicate_finder.py: hashing, cache and folder analysis *)

Module CachedFinder.

Definition CHUNK_SIZE : nat := 4096.

Definition hex_digit (n : Z) : ascii :=
  List.nth (Z.to_nat n) (list_ascii_of_string "0123456789abcdef") "0"%char.

Fixpoint hex_digits (k : nat) (z : Z) : string :=
  match k with
  | O => EmptyString
  | S k' => String (hex_digit ((z / 16 ^ Z.of_nat k') mod 16)) (hex_digits k' z)
  end.

(** [hasher.hexdigest()] of a 64-bit digest: sixteen hexadecimal digits. *)
Definition hexdigest (digest : Z) : string := hex_digits 16 (digest mod 2 ^ 64).

(** JSON documents, as [json.dump] writes and [json.load] returns them. *)
Inductive json : Type :=
| JNull
| JInt (z : Z)
| JFloat (q : Q)
| JStr (s : string)
| JArr (l : list json)
| JObj (o : list (string * json)).

(** The content of the cache file: a JSON document, or text that
    [json.load] rejects with [JSONDecodeError]. *)
Inductive cache_file : Type :=
| Document (doc : json)
| Unparsable.

Definition scan_result : Type :=
  list (list Path) * list (Path * Z * Q) * Py.dict string (list Path).

(** The [cache_data] that [save_cache] hands to [json.dump]. *)
Definition save_cache (confirmed_duplicates : list (list Path))
  (all_files_metadata : list (Path * Z * Q))
  (full_hashes_map : Py.dict string (list Path)) : json :=
  let serializable_confirmed_duplicates :=
    JArr (List.map (fun group => JArr (List.map (fun f => JStr (path_str f)) group))
                   confirmed_duplicates) in
  let serializable_all_files_metadata :=
    JArr (List.map (fun e : Path * Z * Q =>
                      let '(f, s, m) := e in JArr [JStr (path_str f); JInt s; JFloat m])
                   all_files_metadata) in
  let serializable_full_hashes_map :=
    JObj (List.map (fun hf : string * list Path =>
                      (fst hf, JArr (List.map (fun f => JStr (path_str f)) (snd hf))))
                   full_hashes_map) in
  JObj [("confirmed_duplicates", serializable_confirmed_duplicates);
        ("all_files_metadata", serializable_all_files_metadata);
        ("full_hashes_map", serializable_full_hashes_map)].

(** [cache_data[key]]. *)
Definition json_get (key : string) (doc : json) : result json :=
  match doc with
  | JObj o =>
      match Py.dict_get key o with
      | Some v => Ok v
      | None => Raise (KeyError key)
      end
  | _ => Raise TypeError
  end.

Definition char_str (c : ascii) : json := JStr (String c EmptyString).

(** The values a [for] loop over [value] visits: the elements of a
    list, the characters of a string, the keys of a dictionary. *)
Definition py_iter (value : json) : result (list json) :=
  match value with
  | JArr l => Ok l
  | JStr s => Ok (List.map char_str (list_ascii_of_string s))
  | JObj o => Ok (List.map (fun kv => JStr (fst kv)) o)
  | _ => Raise TypeError
  end.

(** [Path(f)]. *)
Definition load_path (j : json) : result Path :=
  match j with
  | JStr f => Ok (path_of_str f)
  | _ => Raise TypeError
  end.

(** [[Path(f) for f in group]]. *)
Definition load_paths (j : json) : result (list Path) :=
  l <-- py_iter j ;; Finder.mapM load_path l.

(** One step of [(Path(f), s, m) for f, s, m in ...].  The loaded size
    and time are kept as the integer and the float that [save_cache]
    writes.  The code does not look at them here, and goes on with
    whatever values the document holds; an entry with a size that is
    not an integer or a time that is not a float is outside this
    model, which stops at it with [TypeError]. *)
Definition load_metadata_entry (j : json) : result (Path * Z * Q) :=
  values <-- py_iter j ;;
  match values with
  | [f; s; m] =>
      p <-- load_path f ;;
      match s, m with
      | JInt s, JFloat m => Ok (p, s, m)
      | _, _ => Raise TypeError
      end
  | _ :: _ :: _ :: _ :: _ => Raise (ValueError "too many values to unpack")
  | _ => Raise (ValueError "not enough values to unpack")
  end.

Fixpoint load_hashes_map (o : list (string * json)) (d : Py.dict string (list Path))
  : result (Py.dict string (list Path)) :=
  match o with
  | [] => Ok d
  | (h, files) :: o' =>
      ps <-- load_paths files ;;
      load_hashes_map o' (Py.dict_set h ps d)
  end.

Definition load_cache (cache : cache_file) : result scan_result :=
  match cache with
  | Unparsable => Raise JSONDecodeError
  | Document cache_data =>
      groups <-- json_get "confirmed_duplicates" cache_data ;;
      l <-- py_iter groups ;;
      confirmed_duplicates <-- Finder.mapM load_paths l ;;
      metadata <-- json_get "all_files_metadata" cache_data ;;
      l <-- py_iter metadata ;;
      all_files_metadata <-- Finder.mapM load_metadata_entry l ;;
      hashes <-- json_get "full_hashes_map" cache_data ;;
      full_hashes_map <--
        match hashes with
        | JObj o => load_hashes_map o []
        | _ => Raise AttributeError  (* no method [items] *)
        end ;;
      Ok (confirmed_duplicates, all_files_metadata, full_hashes_map)
  end.

(** [random.sample(population, k)]: [ValueError] when the sample is
    larger than the population; otherwise the elements at the positions
    the generator picks. *)
Definition random_sample {A} (pick : nat -> nat -> list nat) (population : list A) (k : nat)
  : result (list A) :=
  if (length population <? k)%nat
  then Raise (ValueError "Sample larger than population or is negative")
  else Ok (omap (fun i => population !! i) (pick (length population) k)).

(** A generator outcome that [random.sample] can produce: [k] distinct
    positions of the population. *)
Definition valid_pick (pick : nat -> nat -> list nat) : Prop :=
  forall n k, (k <= n)%nat ->
    length (pick n k) = k /\ NoDup (pick n k) /\ Forall (fun i => (i < n)%nat) (pick n k).

(** [int(n * 0.10)]; the product of [n] and the double nearest to 0.1
    truncates to [n / 10] for every list length a machine can hold. *)
Definition num_to_check (n : nat) : nat := Nat.max 1 (n / 10).

(** The condition under which the verification loop declares the cache
    inconsistent at one sampled entry. *)
Definition entry_changed (fs : filesystem) (e : Path * Z * Q) : bool :=
  let '(file_path, cached_size, cached_mtime) := e in
  match stat fs file_path with
  | Ok (st_size, st_mtime) =>
      negb (exists_ fs file_path)
      || negb (st_size =? cached_size)
      || negb (Qle_bool (Qabs (Float.float_sub st_mtime cached_mtime)) 1)
  | Raise _ => true
  end.

(** The verification loop, with its [break]. *)
Fixpoint is_consistent (fs : filesystem) (sample : list (Path * Z * Q)) : bool :=
  match sample with
  | [] => true
  | e :: rest => if entry_changed fs e then false else is_consistent fs rest
  end.

Section scan.

(** The hash function of the [xxhash] package (the digest of
    [xxhash.xxh64()] after the given bytes were fed to it), the order
    in which the operating system enumerates the tree, the iteration
    order of a Python [set] and the outcome of the random generator. *)
Variable xxh64 : bytes -> Z.
Variable walk_order : list Path -> list Path.
Variable set_order : list Path -> list Path.
Variable pick : nat -> nat -> list nat.

Definition get_partial_hash (fs : filesystem) (file : Path) : string :=
  match stat fs file with
  | Ok (size, _) =>
      match read_bytes fs file with
      | Ok data =>
          if size <? Z.of_nat (CHUNK_SIZE * 2) then hexdigest (xxh64 data)
          else
            match Finder.read_tail CHUNK_SIZE data with
            | Ok last_chunk => hexdigest (xxh64 (take CHUNK_SIZE data ++ last_chunk))
            | Raise _ => ""
            end
      | Raise _ => ""
      end
  | Raise _ => ""
  end.

Definition get_full_hash (fs : filesystem) (file : Path) : string :=
  match read_bytes fs file with
  | Ok data => hexdigest (xxh64 data)
  | Raise _ => ""
  end.

Definition nonempty (s : string) : bool := negb (String.eqb s "").

(** Stage 1 of the full scan. *)
Definition raw_files_list (fs : filesystem) (root_dir : Path) : list Path :=
  List.filter (fun file => is_file fs file && negb (is_symlink fs file))
              (rglob walk_order fs root_dir).

Definition scan_file (fs : filesystem) (file : Path) : option (Path * Z * Q) :=
  match stat fs file with
  | Ok (size, mtime) => if 0 <? size then Some (file, size, mtime) else None
  | Raise _ => None
  end.

Definition all_files_for_scan_and_cache (fs : filesystem) (root_dir : Path)
  : list (Path * Z * Q) :=
  omap (scan_file fs) (raw_files_list fs root_dir).

Definition files_by_size (meta : list (Path * Z * Q)) : Py.dict Z (list Path) :=
  Py.group_by (fun r => snd (fst r)) (fun r => fst (fst r)) meta.

Definition string_of_Z (z : Z) : string := NilZero.string_of_int (Z.to_int z).

(** Stage 2: the key is the f-string [f"{size}:{partial_hash}"]. *)
Definition partial_hash_entries (fs : filesystem) (potential : Py.dict Z (list Path))
  : list (string * Path) :=
  List.concat
    (List.map
       (fun sf : Z * list Path =>
          omap (fun file =>
                  let partial_hash := get_partial_hash fs file in
                  if nonempty partial_hash
                  then Some (string_of_Z (fst sf) +:+ ":" +:+ partial_hash, file)
                  else None)
               (snd sf))
       potential).

Definition potential_duplicates_by_partial_hash (fs : filesystem)
  (potential : Py.dict Z (list Path)) : Py.dict string (list Path) :=
  Py.group_by fst snd (partial_hash_entries fs potential).

(** Stage 3. *)
Definition files_to_hash (likely : Py.dict string (list Path)) : list Path :=
  set_order (elements (list_to_set (List.concat (List.map snd likely)) : gset Path)).

Definition full_hashes_of (fs : filesystem) (to_hash : list Path)
  : Py.dict string (list Path) :=
  Py.group_by fst snd
    (omap (fun file =>
             let full_hash := get_full_hash fs file in
             if nonempty full_hash then Some (full_hash, file) else None)
          to_hash).

Definition full_scan (fs : filesystem) (root_dir : Path) : scan_result :=
  let meta := all_files_for_scan_and_cache fs root_dir in
  let potential_duplicates := Py.more_than_one (files_by_size meta) in
  let likely_duplicates :=
    Py.more_than_one (potential_duplicates_by_partial_hash fs potential_duplicates) in
  let full_hashes_map := full_hashes_of fs (files_to_hash likely_duplicates) in
  let confirmed_duplicates := List.map snd (Py.more_than_one full_hashes_map) in
  (confirmed_duplicates, meta, full_hashes_map).

(** What the attempt to reuse the cache leads to. *)
Inductive cache_outcome : Type :=
| UseCache (cached : scan_result)
| Rescan
| Abort (e : exn).

Definition try_cache (fs : filesystem) (cache : cache_file) : cache_outcome :=
  match load_cache cache with
  | Ok (cached_duplicates, cached_all_files_metadata, cached_full_hashes_map) =>
      match random_sample pick cached_all_files_metadata
                          (num_to_check (length cached_all_files_metadata)) with
      | Ok files_to_check_sample =>
          if is_consistent fs files_to_check_sample
          then UseCache (cached_duplicates, cached_all_files_metadata, cached_full_hashes_map)
          else Rescan
      | Raise e => Abort e
      end
  | Raise JSONDecodeError => Rescan
  | Raise (KeyError _) => Rescan
  | Raise IndexError => Rescan
  | Raise e => Abort e
  end.

Definition outputs (r : scan_result) : list (list Path) * list Path * Py.dict string (list Path) :=
  let '(dups, meta, hashes) := r in (dups, List.map (fun e => fst (fst e)) meta, hashes).

(** [find_duplicates]: the value returned (or the exception raised) and
    the cache file left behind.  The cache file is kept apart from
    [fs], which holds the other entries of the tree: a scan that
    follows the removal of the cache file, or that finds none, walks
    exactly [fs].  (With [force_rescan] and a cache file in place the
    walk of the code also meets the cache file.) *)
Definition find_duplicates (fs : filesystem) (cache : option cache_file)
  (root_dir : Path) (force_rescan : bool)
  : result (list (list Path) * list Path * Py.dict string (list Path)) * option cache_file :=
  if negb (is_dir fs root_dir)
  then (Raise (ValueError "not a valid directory"), cache)
  else
    let outcome :=
      match cache with
      | Some c => if negb force_rescan then try_cache fs c else Rescan
      | None => Rescan
      end in
    match outcome with
    | UseCache cached => (Ok (outputs cached), cache)
    | Abort e => (Raise e, cache)
    | Rescan =>
        let '(dups, meta, hashes) := full_scan fs root_dir in
        (Ok (outputs (dups, meta, hashes)), Some (Document (save_cache dups meta hashes)))
    end.

(** *** Folder analysis *)

Inductive relationship : Type :=
| Exact_Duplicate (folder_a folder_b : Path)
| Subset (subset superset : Path).

Record folder_stat : Type := mkFolderStat {
  fs_size : Z;
  fs_files : nat;
  fs_last_modified : Q
}.

(** [{file: full_hash for full_hash, files_list in full_hashes_map.items()
      for file in files_list}]. *)
Definition initial_file_hashes (full_hashes_map : Py.dict string (list Path))
  : Py.dict Path string :=
  foldl (fun d (hf : string * list Path) =>
           foldl (fun d file => Py.dict_set file (fst hf) d) d (snd hf))
        [] full_hashes_map.

(** One iteration of the loop that builds the folder signatures; the
    state is [(all_file_hashes, folder_content_signatures)]. *)
Definition signature_step (fs : filesystem)
  (st : Py.dict Path string * Py.dict Path (gset string)) (file : Path)
  : Py.dict Path string * Py.dict Path (gset string) :=
  let '(all_file_hashes, signatures) := st in
  match Py.dict_get file all_file_hashes with
  | None =>
      let file_hash := get_full_hash fs file in
      if nonempty file_hash
      then (Py.dict_set file file_hash all_file_hashes,
            Py.dict_add (parent file) file_hash signatures)
      else st
  | Some file_hash =>
      if nonempty file_hash
      then (all_file_hashes, Py.dict_add (parent file) file_hash signatures)
      else st
  end.

Definition folder_content_signatures (fs : filesystem) (all_files : list Path)
  (full_hashes_map : Py.dict string (list Path)) : Py.dict Path (gset string) :=
  snd (foldl (signature_step fs) (initial_file_hashes full_hashes_map, []) all_files).

(** [folder_stats[folder]] with the [defaultdict] default. *)
Definition stats_step (fs : filesystem) (stats : Py.dict Path folder_stat) (file : Path)
  : Py.dict Path folder_stat :=
  match stat fs file with
  | Ok (st_size, st_mtime) =>
      let folder := parent file in
      let old := default (mkFolderStat 0 0 0%Q) (Py.dict_get folder stats) in
      Py.dict_set folder
        (mkFolderStat (fs_size old + st_size) (S (fs_files old))
                      (Qmax (fs_last_modified old) st_mtime))
        stats
  | Raise _ => stats
  end.

(** [folder_content_signatures[folder]] on the [defaultdict(set)]. *)
Definition signature_of (signatures : Py.dict Path (gset string)) (folder : Path)
  : gset string :=
  default ∅ (Py.dict_get folder signatures).

(** The body of the loop over [combinations(folders_to_compare, 2)]. *)
Definition compare_folders (signatures : Py.dict Path (gset string)) (pr : Path * Path)
  : list relationship :=
  let '(folder_a, folder_b) := pr in
  let hashes_a := signature_of signatures folder_a in
  let hashes_b := signature_of signatures folder_b in
  if bool_decide (hashes_a = ∅) || bool_decide (hashes_b = ∅) then []
  else if bool_decide (hashes_a = hashes_b) then [Exact_Duplicate folder_a folder_b]
  else if bool_decide (hashes_a ⊆ hashes_b) then [Subset folder_a folder_b]
  else if bool_decide (hashes_b ⊆ hashes_a) then [Subset folder_b folder_a]
  else [].

Definition folder_relationships (signatures : Py.dict Path (gset string))
  : list relationship :=
  let folders_to_compare := List.map fst signatures in
  List.concat (List.map (compare_folders signatures) (Py.combinations2 folders_to_compare)).

Definition analyze_folder_duplicates (fs : filesystem) (all_files : list Path)
  (full_hashes_map : Py.dict string (list Path))
  : list relationship * Py.dict Path folder_stat :=
  (folder_relationships (folder_content_signatures fs all_files full_hashes_map),
   foldl (stats_step fs) [] all_files).

End scan.

End CachedFinder.

(** ** duplicate_file_cleaner.py *)

Module Cleaner.

(** An entry of [failed_actions]; [Error] keeps the exception or the
    fixed message instead of its text. *)
Inductive failure_reason : Type :=
| SourceNotFound
| ZeroByteFile
| Exception (e : exn).

Record failed_action : Type := mkFailed {
  Source : string;
  Destination : string;
  Error : failure_reason
}.

(** The [except Exception] handler of [_perform_single_copy]: both
    [relative_to] calls can raise again, and then the exception leaves
    the function. *)
Definition report_failure (source_path : Path) (dest_path : option Path) (root_dir : Path)
  (reason : failure_reason) : result (option failed_action) :=
  src <-- relative_to source_path root_dir ;;
  dst <-- match dest_path with
          | Some d => r <-- relative_to d root_dir ;; Ok (path_str r)
          | None => Ok "N/A"
          end ;;
  Ok (Some (mkFailed (path_str src) dst reason)).

(** A [return {...}] inside the [try] block: when [relative_to] raises
    there, the handler runs (no [dest_path] is bound at those points). *)
Definition return_failure (source_path : Path) (root_dir : Path) (reason : failure_reason)
  : result (option failed_action) :=
  match relative_to source_path root_dir with
  | Ok src => Ok (Some (mkFailed (path_str src) "N/A" reason))
  | Raise e => report_failure source_path None root_dir (Exception e)
  end.

(** [f"{counter}"]. *)
Definition string_of_nat (n : nat) : string := NilZero.string_of_uint (Nat.to_uint n).

(** The name tried at a given value of [counter]. *)
Definition numbered (dest_base_path : Path) (counter : nat) : result Path :=
  with_stem dest_base_path (stem dest_base_path +:+ "_" +:+ string_of_nat counter).

(** How the [while dest_path.exists()] loop ends. *)
Inductive loop_exit : Type :=
| Identical (dest_path : Path)
| Free (dest_path : Path)
| Raised (e : exn) (dest_path : Path).

Fixpoint conflict_loop (fuel : nat) (fs : filesystem) (source_path dest_base_path : Path)
  (dest_path : Path) (counter : nat) : option loop_exit :=
  match fuel with
  | O => None
  | S fuel' =>
      if exists_ fs dest_path then
        if Finder.files_are_identical fs source_path dest_path
        then Some (Identical dest_path)
        else
          match numbered dest_base_path (S counter) with
          | Ok dest_path' =>
              conflict_loop fuel' fs source_path dest_base_path dest_path' (S counter)
          | Raise e => Some (Raised e dest_path)
          end
      else Some (Free dest_path)
  end.

(** All the ancestors of a path, the nearest last. *)
Fixpoint ancestors (p : Path) : list Path :=
  match p with
  | [] => []
  | a :: rest => [] :: List.map (cons a) (ancestors rest)
  end.

(** [dest_path.parent.mkdir(parents=True, exist_ok=True)]. *)
Definition mkdir_parents (fs : filesystem) (dir : Path) : result filesystem :=
  if existsb (is_file fs) (ancestors dir ++ [dir]) then Raise OSError
  else Ok (mkFs (files fs) (list_to_set (ancestors dir ++ [dir]) ∪ dirs fs)).

(** [shutil.copy2(source, dest)]: content and modification time. *)
Definition copy2 (fs : filesystem) (source_path dest_path : Path) : result filesystem :=
  match files fs !! source_path with
  | Some i =>
      if i_read_fails i then Raise OSError
      else if is_dir fs dest_path then Raise OSError
      else Ok (mkFs (<[dest_path := regular (i_data i) (i_mtime i)]> (files fs)) (dirs fs))
  | None => Raise OSError
  end.

(** [_perform_single_copy]: [None] when the loop has not ended within
    [fuel] iterations; otherwise the returned value (or the exception
    that leaves the function) and the file system afterwards. *)
Definition _perform_single_copy (fuel : nat) (fs : filesystem)
  (source_path dest_base_path : Path) (root_dir : Path) (skip_existing : bool)
  : option (result (option failed_action) * filesystem) :=
  if negb (exists_ fs source_path)
  then Some (return_failure source_path root_dir SourceNotFound, fs)
  else
    match stat fs source_path with
    | Raise e => Some (report_failure source_path None root_dir (Exception e), fs)
    | Ok (st_size, _) =>
        if st_size =? 0
        then Some (return_failure source_path root_dir ZeroByteFile, fs)
        else if skip_existing && exists_ fs dest_base_path then Some (Ok None, fs)
        else
          match conflict_loop fuel fs source_path dest_base_path dest_base_path 0 with
          | None => None
          | Some (Identical dest_path) =>
              (* the message printed before [return None] formats
                 [source_path.relative_to(root_dir)] *)
              match relative_to source_path root_dir with
              | Ok _ => Some (Ok None, fs)
              | Raise e =>
                  Some (report_failure source_path (Some dest_path) root_dir (Exception e), fs)
              end
          | Some (Raised e dest_path) =>
              Some (report_failure source_path (Some dest_path) root_dir (Exception e), fs)
          | Some (Free dest_path) =>
              match mkdir_parents fs (parent dest_path) with
              | Raise e =>
                  Some (report_failure source_path (Some dest_path) root_dir (Exception e), fs)
              | Ok fs1 =>
                  match copy2 fs1 source_path dest_path with
                  | Raise e =>
                      Some (report_failure source_path (Some dest_path) root_dir (Exception e),
                            fs1)
                  | Ok fs2 => Some (Ok None, fs2)
                  end
              end
          end
    end.

(** *** The entry point [process_report_actions] *)

(** A global of the module: an [openpyxl] workbook (known by its sheet
    names) or any other object. *)
Inductive pyobject : Type :=
| Workbook (sheetnames : list string)
| OtherObject.

(** The names bound at module level in [duplicate_file_cleaner.py]: its
    imports and its functions.  No builtin is called [workbook]. *)
Definition module_globals : Py.dict string pyobject :=
  List.map (fun n => (n, OtherObject))
    ["argparse"; "os"; "Path"; "tqdm"; "send2trash"; "shutil"; "ThreadPoolExecutor";
     "as_completed"; "openpyxl"; "json"; "DEFAULT_REPORT_FILE"; "files_are_identical";
     "_read_tasks_from_json"; "_read_tasks_from_xlsx"; "process_report_actions";
     "_perform_single_copy"; "_perform_single_delete";
     "_update_report_with_failed_actions"; "main"].

(** The names assigned in the body of [process_report_actions], its
    parameters included; every other name is looked up as a global. *)
Definition process_report_actions_locals : list string :=
  ["report_path"; "root_dir"; "dry_run"; "use_trash"; "copy_destination"; "skip_existing";
   "sheet_name"; "sheet"; "tasks"; "summary_info"; "total_files_to_copy";
   "total_size_to_copy_gb"; "confirm"; "total_processed_files"; "failed_actions";
   "executor"; "futures"; "task_type"; "source_path"; "dest_path"; "original_row_index";
   "future"; "result"; "action"].

(** Reading a name that the function body never assigns. *)
Definition load_global (globals : Py.dict string pyobject) (n : string) : result pyobject :=
  match Py.dict_get n globals with
  | Some v => Ok v
  | None => Raise (NameError n)
  end.

(** [obj.sheetnames]. *)
Definition get_sheetnames (obj : pyobject) : result (list string) :=
  match obj with
  | Workbook names => Ok names
  | OtherObject => Raise AttributeError
  end.

(** What the function has done so far, in order. *)
Inductive action : Type :=
| PrintReportNotFound
| PrintSheetNotFound
| UseSheet (sheet_name : string)
| ReadTasksFromJson
| ReadTasksFromXlsx
| PrintUnsupportedFormat
| ExecuteTasks.

Definition lower_string (s : string) : string :=
  string_of_list_ascii (Finder.lower s).

(** The dispatch on the report format, after the sheet was resolved. *)
Definition read_tasks (report_path : Path) : list action :=
  let ext := lower_string (suffix report_path) in
  if String.eqb ext ".json" then [ReadTasksFromJson; ExecuteTasks]
  else if String.eqb ext ".xlsx" then [ReadTasksFromXlsx; ExecuteTasks]
  else [PrintUnsupportedFormat].

(** [process_report_actions] up to the point where the tasks are read
    and handed to the executor: the actions performed, in order, and how
    the call ends.  [globals] is the module namespace in which the body
    runs. *)
Definition process_report_actions (globals : Py.dict string pyobject) (fs : filesystem)
  (report_path : Path) : list action * result unit :=
  if negb (is_file fs report_path) then ([PrintReportNotFound], Ok tt)
  else
    let sheet_name := "Files to Process" in
    match (wb <-- load_global globals "workbook" ;; get_sheetnames wb) with
    | Raise e => ([], Raise e)
    | Ok sheetnames =>
        if bool_decide (sheet_name ∈ sheetnames)
        then (UseSheet sheet_name :: read_tasks report_path, Ok tt)
        else if bool_decide ("Duplicates" ∈ sheetnames)
        then (UseSheet "Duplicates" :: read_tasks report_path, Ok tt)
        else ([PrintSheetNotFound], Ok tt)
    end.

End Cleaner.

(** ** duplicate_file_cleaner.py: reading the tasks of a JSON report *)

Module Reader.

Import CachedFinder.

(** The tuples [("copy", source, dest, 0)] and
    [("delete", path, None, 0)] of the task list. *)
Inductive task : Type :=
| Copy (source_path dest_path : Path)
| Delete (file_path : Path).

(** [obj.get(key, default)]: only a [dict] has the method. *)
Definition py_get (key : string) (default_value : json) (obj : json) : result json :=
  match obj with
  | JObj o => Ok (default default_value (Py.dict_get key o))
  | _ => Raise AttributeError
  end.

(** [value == "text"]. *)
Definition eq_str (value : json) (text : string) : bool :=
  match value with
  | JStr s => String.eqb s text
  | _ => false
  end.

(** [idx == value] for an integer [idx]. *)
Definition eq_int (idx : Z) (value : json) : bool :=
  match value with
  | JInt k => idx =? k
  | JFloat q => Qeq_bool (inject_Z idx) q
  | _ => false
  end.

(** [container[index]]: lists and strings take integers (negative ones
    count from the end), dictionaries take their keys. *)
Definition py_subscript (container index : json) : result json :=
  match container, index with
  | JArr l, JInt i => Finder.py_item l i
  | JArr _, _ => Raise TypeError
  | JStr s, JInt i => c <-- Finder.py_item (list_ascii_of_string s) i ;; Ok (char_str c)
  | JStr _, _ => Raise TypeError
  | JObj _, JStr k => json_get k container
  | JObj _, JArr _ => Raise TypeError
  | JObj _, JObj _ => Raise TypeError
  | JObj _, _ => Raise (KeyError "index")
  | _, _ => Raise TypeError
  end.

(** [directory / value]: the right operand has to be a string. *)
Definition truediv (directory : Path) (value : json) : result Path :=
  match value with
  | JStr s => Ok (joinpath directory (path_of_str s))
  | _ => Raise TypeError
  end.

(** The loop over [enumerate(file_paths_str)] of the deletion mode. *)
Fixpoint delete_tasks (fs : filesystem) (root_dir : Path) (keep_index : json) (idx : Z)
  (file_paths_str : list json) : result (list task) :=
  match file_paths_str with
  | [] => Ok []
  | path_str :: rest =>
      if eq_int idx keep_index then delete_tasks fs root_dir keep_index (idx + 1) rest
      else
        file_to_process <-- truediv root_dir path_str ;;
        tasks <-- delete_tasks fs root_dir keep_index (idx + 1) rest ;;
        Ok (if exists_ fs file_to_process then Delete file_to_process :: tasks else tasks)
  end.

(** The copy task of a kept file, when the file exists. *)
Definition copy_task (fs : filesystem) (file_to_keep_abs : Path) (copy_destination : Path)
  (file_to_keep_rel : json) : result (list task) :=
  if exists_ fs file_to_keep_abs then
    dest <-- truediv copy_destination file_to_keep_rel ;;
    Ok [Copy file_to_keep_abs dest]
  else Ok [].

(** The body of the loop over the items of the report: the tasks the
    item adds. *)
Definition read_item (fs : filesystem) (root_dir : Path) (copy_destination : option Path)
  (item : json) : result (list task) :=
  type <-- py_get "type" JNull item ;;
  if eq_str type "duplicate_group" then
    keep_index <-- json_get "keep_index" item ;;
    file_paths_str <-- json_get "files" item ;;
    file_to_keep_rel <-- py_subscript file_paths_str keep_index ;;
    file_to_keep_abs <-- truediv root_dir file_to_keep_rel ;;
    match copy_destination with
    | Some destination => copy_task fs file_to_keep_abs destination file_to_keep_rel
    | None =>
        paths <-- py_iter file_paths_str ;;
        delete_tasks fs root_dir keep_index 0 paths
    end
  else if eq_str type "unique_file" then
    match copy_destination with
    | Some destination =>
        file_to_keep_rel <-- json_get "file" item ;;
        file_to_keep_abs <-- truediv root_dir file_to_keep_rel ;;
        copy_task fs file_to_keep_abs destination file_to_keep_rel
    | None => Ok []
    end
  else Ok [].

Fixpoint read_items (fs : filesystem) (root_dir : Path) (copy_destination : option Path)
  (items : list json) : result (list task) :=
  match items with
  | [] => Ok []
  | item :: rest =>
      tasks <-- read_item fs root_dir copy_destination item ;;
      more <-- read_items fs root_dir copy_destination rest ;;
      Ok (tasks ++ more)
  end.

(** [_read_tasks_from_json] on the document [data] that [json.load]
    returned for the report. *)
Definition _read_tasks_from_json (fs : filesystem) (data : json) (root_dir : Path)
  (copy_destination : option Path) : result (list task * json) :=
  summary <-- py_get "summary" (JObj []) data ;;
  files_to_process <-- py_get "files_to_process" (JArr []) data ;;
  items <-- py_iter files_to_process ;;
  tasks <-- read_items fs root_dir copy_destination items ;;
  Ok (tasks, summary).

(** The [report_data] of [create_json_report] as a document;
    [total_size_to_keep_gb] is the text that the format [.2f] gives. *)
Definition item_data (item : Finder.report_item) : json :=
  match item with
  | Finder.duplicate_group size_bytes files keep_index =>
      JObj [("type", JStr "duplicate_group"); ("size_bytes", JInt size_bytes);
            ("files", JArr (List.map JStr files)); ("keep_index", JInt keep_index)]
  | Finder.unique_file size_bytes file =>
      JObj [("type", JStr "unique_file"); ("size_bytes", JInt size_bytes);
            ("file", JStr file)]
  end.

Definition report_data (items : list Finder.report_item) (summary : Finder.report_summary)
  (total_size_to_keep_gb : string) : json :=
  JObj [("files_to_process", JArr (List.map item_data items));
        ("summary",
         JObj [("total_files_to_keep", JInt (Z.of_nat (Finder.total_files_to_keep summary)));
               ("total_size_to_keep_bytes", JInt (Finder.total_size_to_keep_bytes summary));
               ("total_size_to_keep_gb", JStr total_size_to_keep_gb)])].

End Reader.

(** ** The XXH64 function of the [xxhash] package

    Transcribed from the published description of the algorithm
    (64-bit arithmetic modulo [2^64], little-endian lanes, seed 0, as
    [xxhash.xxh64()] uses it). *)

Module XXH64.

Definition mask (x : Z) : Z := x mod 2 ^ 64.

Definition PRIME1 : Z := 11400714785074694791.
Definition PRIME2 : Z := 14029467366897019727.
Definition PRIME3 : Z := 1609587929392839161.
Definition PRIME4 : Z := 9650029242287828579.
Definition PRIME5 : Z := 2870177450012600261.

Definition rotl (x : Z) (r : Z) : Z :=
  mask (Z.lor (Z.shiftl x r) (Z.shiftr x (64 - r))).

Definition round (acc input : Z) : Z :=
  mask (rotl (mask (acc + input * PRIME2)) 31 * PRIME1).

Definition merge_round (acc val : Z) : Z :=
  mask (Z.lxor acc (round 0 val) * PRIME1 + PRIME4).

(** Little-endian value of a byte string. *)
Fixpoint le_value (bs : bytes) : Z :=
  match bs with
  | [] => 0
  | b :: bs' => Z.of_N (Byte.to_N b) + 256 * le_value bs'
  end.

Definition lane (k : nat) (stripe : bytes) : Z := le_value (take 8 (drop (8 * k) stripe)).

(** The four accumulators over the 32-byte stripes; returns them with
    the bytes left over. *)
Fixpoint stripes (fuel : nat) (v : Z * Z * Z * Z) (data : bytes) : Z * Z * Z * Z * bytes :=
  match fuel with
  | O => (v, data)
  | S fuel' =>
      if (length data <? 32)%nat then (v, data)
      else
        let '(v1, v2, v3, v4) := v in
        let s := take 32 data in
        stripes fuel' (round v1 (lane 0 s), round v2 (lane 1 s),
                       round v3 (lane 2 s), round v4 (lane 3 s)) (drop 32 data)
  end.

Fixpoint tail8 (fuel : nat) (h : Z) (data : bytes) : Z * bytes :=
  match fuel with
  | O => (h, data)
  | S fuel' =>
      if (length data <? 8)%nat then (h, data)
      else
        let k1 := round 0 (le_value (take 8 data)) in
        tail8 fuel' (mask (rotl (Z.lxor h k1) 27 * PRIME1 + PRIME4)) (drop 8 data)
  end.

Definition tail4 (h : Z) (data : bytes) : Z * bytes :=
  if (length data <? 4)%nat then (h, data)
  else (mask (rotl (Z.lxor h (mask (le_value (take 4 data) * PRIME1))) 23 * PRIME2 + PRIME3),
        drop 4 data).

Fixpoint tail1 (h : Z) (data : bytes) : Z :=
  match data with
  | [] => h
  | b :: data' =>
      tail1 (mask (rotl (Z.lxor h (mask (Z.of_N (Byte.to_N b) * PRIME5))) 11 * PRIME1)) data'
  end.

Definition avalanche (h : Z) : Z :=
  let h := Z.lxor h (Z.shiftr h 33) in
  let h := mask (h * PRIME2) in
  let h := Z.lxor h (Z.shiftr h 29) in
  let h := mask (h * PRIME3) in
  Z.lxor h (Z.shiftr h 32).

Definition xxh64 (data : bytes) : Z :=
  let n := length data in
  let '(h, rest) :=
    if (n <? 32)%nat then (PRIME5, data)
    else
      let '(v1, v2, v3, v4, rest) :=
        stripes n (mask (PRIME1 + PRIME2), PRIME2, 0, mask (0 - PRIME1)) data in
      let h := mask (rotl v1 1 + rotl v2 7 + rotl v3 12 + rotl v4 18) in
      (merge_round (merge_round (merge_round (merge_round h v1) v2) v3) v4, rest) in
  let h := mask (h + Z.of_nat n) in
  let '(h, rest) := tail8 n h rest in
  let '(h, rest) := tail4 h rest in
  avalanche (tail1 h rest).

Definition bytes_of_string (s : string) : bytes :=
  List.map byte_of_ascii (list_ascii_of_string s).

End XXH64.

Example xxh64_empty : CachedFinder.hexdigest (XXH64.xxh64 []) = "ef46db3751d8e999".
Proof. vm_compute. reflexivity. Qed.

Example xxh64_abc :
  CachedFinder.hexdigest (XXH64.xxh64 (XXH64.bytes_of_string "abc")) = "44bc2cf5ad770999".
Proof. vm_compute. reflexivity. Qed.

Example xxh64_xxhash :
  CachedFinder.hexdigest (XXH64.xxh64 (XXH64.bytes_of_string "xxhash")) = "32dd38952c4bc720".
Proof. vm_compute. reflexivity. Qed.

Example xxh64_long :
  CachedFinder.hexdigest
    (XXH64.xxh64 (XXH64.bytes_of_string "Nobody inspects the spammish repetition"))
  = "fbcea83c8a378bf1".
Proof. vm_compute. reflexivity. Qed.

(** * Sanity checks of the embedding on the cases of the test suite *)

Example score_plain : Finder.get_filename_score ["file.txt"] = 0.
Proof. reflexivity. Qed.

Example score_copy : Finder.get_filename_score ["file (copy).txt"] = 10.
Proof. reflexivity. Qed.

Example score_under_copy : Finder.get_filename_score ["sub"; "a_copy.txt"] = 11.
Proof. reflexivity. Qed.

Example score_number : Finder.get_filename_score ["file (1).txt"] = 5.
Proof. reflexivity. Qed.

Example keeper_test :
  Finder.guess_keeper [["/"; "tmp"; "file (copy).txt"]; ["/"; "tmp"; "file.txt"]] = Ok 2%nat.
Proof. reflexivity. Qed.
(** * Orders *)

Module OrderFacts.

(** A comparison function that decides a strict total order. *)
Class TotalCompare {A : Type} (cmp : A -> A -> comparison) : Prop := {
  cmp_eq : forall x y, cmp x y = Eq <-> x = y;
  cmp_opp : forall x y, cmp y x = CompOpp (cmp x y);
  cmp_trans : forall x y z, cmp x y = Lt -> cmp y z = Lt -> cmp x z = Lt
}.

Arguments cmp_eq {A} cmp {_} x y.
Arguments cmp_opp {A} cmp {_} x y.
Arguments cmp_trans {A} cmp {_} x y z.

Lemma cmp_refl {A} (cmp : A -> A -> comparison) `{!TotalCompare cmp} x : cmp x x = Eq.
Proof. by apply (cmp_eq cmp). Qed.

Lemma cmp_gt_lt {A} (cmp : A -> A -> comparison) `{!TotalCompare cmp} x y :
  cmp x y = Gt <-> cmp y x = Lt.
Proof. rewrite (cmp_opp cmp x y). destruct (cmp x y); simpl; split; congruence. Qed.

Lemma string_lt_irrefl x : ~ String_as_OT.lt x x.
Proof. apply (StrictOrder_Irreflexive (R:=String_as_OT.lt)). Qed.

Lemma string_lt_trans x y z :
  String_as_OT.lt x y -> String_as_OT.lt y z -> String_as_OT.lt x z.
Proof. apply (StrictOrder_Transitive (R:=String_as_OT.lt)). Qed.

#[global] Instance string_total : TotalCompare String_as_OT.compare.
Proof.
  split.
  - intros x y. destruct (String_as_OT.compare_spec x y) as [H|H|H]; split; try done.
    + intros ->. by apply string_lt_irrefl in H.
    + intros ->. by apply string_lt_irrefl in H.
  - intros x y.
    destruct (String_as_OT.compare_spec x y) as [H|H|H],
             (String_as_OT.compare_spec y x) as [H'|H'|H']; simpl;
      unfold String_as_OT.eq in *; subst; try done.
    all: try (by apply string_lt_irrefl in H).
    all: try (by apply string_lt_irrefl in H').
    all: exfalso; apply (string_lt_irrefl x); eapply string_lt_trans; eassumption.
  - intros x y z. apply string_lt_trans.
Qed.

#[global] Instance Z_total : TotalCompare Z.compare.
Proof.
  split.
  - intros x y. apply Z.compare_eq_iff.
  - intros x y. apply Z.compare_antisym.
  - intros x y z. rewrite !Z.compare_lt_iff. lia.
Qed.

#[global] Instance lex_total {A} (cmp : A -> A -> comparison) `{!TotalCompare cmp} :
  TotalCompare (lex_compare cmp).
Proof.
  split.
  - induction x as [|a x IH]; intros [|b y]; simpl; try (split; congruence).
    destruct (cmp a b) eqn:E.
    + apply (cmp_eq cmp) in E as ->. rewrite IH. split; congruence.
    + split; [done|]. intros [= -> ->]. by rewrite (cmp_refl cmp) in E.
    + split; [done|]. intros [= -> ->]. by rewrite (cmp_refl cmp) in E.
  - induction x as [|a x IH]; intros [|b y]; simpl; try done.
    rewrite (cmp_opp cmp a b). destruct (cmp a b); simpl; auto.
  - induction x as [|a x IH]; intros [|b y] [|c z]; simpl; try done.
    destruct (cmp a b) eqn:E1; try done.
    + apply (cmp_eq cmp) in E1 as ->. destruct (cmp b c); try done. apply IH.
    + intros _. destruct (cmp b c) eqn:E2; try done.
      * apply (cmp_eq cmp) in E2 as ->. by rewrite E1.
      * by rewrite (cmp_trans cmp _ _ _ E1 E2).
Qed.

#[global] Instance path_total : TotalCompare path_compare.
Proof. exact (lex_total String_as_OT.compare). Qed.

#[global] Instance key_total : TotalCompare Finder.key_compare.
Proof.
  split.
  - intros [s p] [t q]. unfold Finder.key_compare. simpl.
    destruct (Z.compare s t) eqn:E.
    + apply Z.compare_eq_iff in E as ->. rewrite (cmp_eq path_compare).
      split; congruence.
    + split; [done|]. intros [= -> ->]. by rewrite Z.compare_refl in E.
    + split; [done|]. intros [= -> ->]. by rewrite Z.compare_refl in E.
  - intros [s p] [t q]. unfold Finder.key_compare. simpl.
    rewrite (Z.compare_antisym s t). destruct (Z.compare s t); simpl; auto.
    apply (cmp_opp path_compare).
  - intros [s p] [t q] [u r]. unfold Finder.key_compare. simpl.
    destruct (Z.compare s t) eqn:E1; try done.
    + apply Z.compare_eq_iff in E1 as ->. destruct (Z.compare t u); try done.
      apply (cmp_trans path_compare).
    + intros _. destruct (Z.compare t u) eqn:E2; try done.
      * apply Z.compare_eq_iff in E2 as ->. by rewrite E1.
      * intros _. rewrite Z.compare_lt_iff in E1, E2.
        assert (s < u) as ->%Z.compare_lt_iff by lia. done.
Qed.

Section sorting.

Context {A : Type} (cmp : A -> A -> comparison) `{!TotalCompare cmp}.

Definition ltb (x y : A) : bool := match cmp x y with Lt => true | _ => false end.

(** [x] is not above [y]. *)
Definition le (x y : A) : Prop := cmp x y <> Gt.

Lemma le_refl x : le x x.
Proof. unfold le. by rewrite (cmp_refl cmp). Qed.

Lemma le_trans x y z : le x y -> le y z -> le x z.
Proof.
  unfold le. intros H1 H2.
  destruct (cmp x y) eqn:E1; [| |done].
  - by apply (cmp_eq cmp) in E1 as ->.
  - destruct (cmp y z) eqn:E2; [| |done].
    + apply (cmp_eq cmp) in E2 as <-. by rewrite E1.
    + by rewrite (cmp_trans cmp _ _ _ E1 E2).
Qed.

Lemma le_antisym x y : le x y -> le y x -> x = y.
Proof.
  unfold le. intros H1 H2. rewrite (cmp_opp cmp x y) in H2.
  destruct (cmp x y) eqn:E; simpl in *; try done. by apply (cmp_eq cmp).
Qed.

Lemma not_ltb_le x y : ltb y x = false -> le x y.
Proof.
  unfold ltb, le. rewrite (cmp_opp cmp y x). destruct (cmp y x); simpl; congruence.
Qed.

Lemma ltb_le x y : ltb x y = true -> le x y.
Proof. unfold ltb, le. destruct (cmp x y); congruence. Qed.

Lemma sort_insert_perm x l : Py.sort_insert ltb x l ≡ₚ x :: l.
Proof.
  induction l as [|y l IH]; simpl; [done|].
  destruct (ltb y x); [|done]. rewrite IH. apply Permutation_swap.
Qed.

Lemma sort_perm l : Py.sort ltb l ≡ₚ l.
Proof.
  induction l as [|x l IH]; simpl; [done|]. by rewrite sort_insert_perm, IH.
Qed.

(** The head of a list is below every element. *)
Definition head_min (l : list A) : Prop :=
  match l with
  | [] => True
  | m :: _ => Forall (le m) l
  end.

Lemma sort_insert_head_min x l :
  head_min l -> head_min (Py.sort_insert ltb x l).
Proof.
  destruct l as [|y l]; simpl.
  - intros _. constructor; [apply le_refl|constructor].
  - intros Hy. destruct (ltb y x) eqn:E; simpl.
    + constructor; [apply le_refl|]. rewrite sort_insert_perm.
      constructor; [by apply ltb_le|by inversion Hy].
    + constructor; [apply le_refl|].
      eapply Forall_impl; [apply Hy|].
      intros z Hz. eapply le_trans; [by apply not_ltb_le|done].
Qed.

Lemma sort_head_min l : head_min (Py.sort ltb l).
Proof.
  induction l as [|x l IH]; simpl; [done|]. by apply sort_insert_head_min.
Qed.

(** The first element of the sorted list is the least element of the
    input. *)
Lemma sort_head l m rest :
  Py.sort ltb l = m :: rest -> m ∈ l /\ forall y, y ∈ l -> le m y.
Proof.
  intros Hs. pose proof (sort_head_min l) as Hm. pose proof (sort_perm l) as Hp.
  rewrite Hs in Hm, Hp. simpl in Hm. split.
  - rewrite <- Hp. left.
  - intros y Hy. rewrite <- Hp in Hy. by eapply Forall_forall in Hm.
Qed.

Lemma sort_nonempty l : l <> [] -> exists m rest, Py.sort ltb l = m :: rest.
Proof.
  intros Hl. destruct (Py.sort ltb l) as [|m rest] eqn:E; [|eauto].
  pose proof (sort_perm l) as Hp. rewrite E in Hp.
  by apply Permutation_nil_l in Hp.
Qed.

Lemma least_unique (l : list A) m m' :
  m ∈ l -> (forall y, y ∈ l -> le m y) ->
  m' ∈ l -> (forall y, y ∈ l -> le m' y) -> m = m'.
Proof. intros H1 H2 H3 H4. apply le_antisym; auto. Qed.

End sorting.

End OrderFacts.

(** * The keeper heuristic *)

Module KeeperFacts.

Import OrderFacts.

Lemma index_elem (x : Path) (l : list Path) :
  x ∈ l -> exists i, Finder.index x l = Ok i /\ l !! i = Some x.
Proof.
  induction l as [|y l IH]; [by intros ?%elem_of_nil|].
  intros Hx. simpl. destruct (decide (y = x)) as [->|Hne].
  - by exists 0%nat.
  - apply elem_of_cons in Hx as [->|Hx]; [done|].
    destruct (IH Hx) as (i & -> & Hi). by exists (S i).
Qed.

Definition key (p : Path) : Z * Path := (Finder.get_filename_score p, p).

(** [p] is at least as good a keeper as [q]: lower score, or equal
    score and a path that does not sort after [q]. *)
Definition preferred (p q : Path) : Prop := le Finder.key_compare (key p) (key q).

Lemma preferred_spec p q :
  preferred p q <->
  Finder.get_filename_score p < Finder.get_filename_score q \/
  (Finder.get_filename_score p = Finder.get_filename_score q /\ path_compare p q <> Gt).
Proof.
  unfold preferred, le, Finder.key_compare, key. simpl.
  destruct (Z.compare_spec (Finder.get_filename_score p) (Finder.get_filename_score q)).
  - split; [by right|]. by intros [?|[_ ?]]; [lia|].
  - split; [by left|done].
  - split; [done|]. intros [?|[? _]]; lia.
Qed.

(** The member of the group that [guess_keeper] designates. *)
Definition keeper_is (group : list Path) (k : nat) (best : Path) : Prop :=
  Finder.guess_keeper group = Ok k /\
  (1 <= k <= length group)%nat /\
  group !! (k - 1)%nat = Some best /\
  forall p, p ∈ group -> preferred best p.

Lemma guess_keeper_spec (group : list Path) :
  group <> [] -> exists k best, keeper_is group k best.
Proof.
  intros Hne. unfold keeper_is, Finder.guess_keeper.
  destruct group as [|p0 rest]; [done|]. set (group := p0 :: rest) in *.
  change Finder.key_ltb with (ltb Finder.key_compare).
  destruct (sort_nonempty Finder.key_compare (List.map key group))
    as ([s best] & tl & Hs); [done|].
  fold key. rewrite Hs.
  apply (sort_head Finder.key_compare) in Hs as [Hin Hmin].
  apply list_elem_of_fmap in Hin as (b & [= -> ->] & Hb).
  destruct (index_elem b group Hb) as (i & -> & Hi). simpl.
  exists (i + 1)%nat, b. split; [done|].
  apply lookup_lt_Some in Hi as Hlt. split; [subst group; simpl in *; lia|].
  split; [by replace (i + 1 - 1)%nat with i by lia|].
  intros p Hp. apply Hmin. by apply list_elem_of_fmap_2.
Qed.

Lemma keeper_unique (g1 g2 : list Path) k1 k2 b1 b2 :
  g1 ≡ₚ g2 -> keeper_is g1 k1 b1 -> keeper_is g2 k2 b2 -> b1 = b2.
Proof.
  intros Hp (_ & _ & H1 & M1) (_ & _ & H2 & M2).
  apply list_elem_of_lookup_2 in H1, H2.
  assert (key b1 = key b2) as [= _ ?]; [|done].
  apply (le_antisym Finder.key_compare).
  - apply M1. by rewrite Hp.
  - apply M2. by rewrite <- Hp.
Qed.

(** ** The report *)

Definition valid_item (it : Finder.report_item) : Prop :=
  match it with
  | Finder.duplicate_group _ files keep_index =>
      0 <= keep_index < Z.of_nat (length files)
  | Finder.unique_file _ _ => True
  end.

Lemma mapM_length {A B} (f : A -> result B) l l' :
  Finder.mapM f l = Ok l' -> length l' = length l.
Proof.
  revert l'. induction l as [|x l IH]; simpl; intros l'; [by intros [= <-]|].
  destruct (f x); simpl; [|done]. destruct (Finder.mapM f l); simpl; [|done].
  intros [= <-]. simpl. f_equal. by apply IH.
Qed.

Lemma mapM_ok {A B} (f : A -> result B) l :
  (forall x, x ∈ l -> exists y, f x = Ok y) -> exists l', Finder.mapM f l = Ok l'.
Proof.
  induction l as [|x l IH]; simpl; intros H; [by eexists|].
  destruct (H x) as [y ->]; [left|]. simpl.
  destruct IH as [l' ->]; [by intros; apply H; right|]. simpl. by eexists.
Qed.

Lemma py_item_ok {A} (l : list A) (i : nat) x :
  l !! i = Some x -> Finder.py_item l (Z.of_nat i) = Ok x.
Proof.
  intros H. unfold Finder.py_item.
  destruct (Z.ltb_spec (Z.of_nat i) 0); [lia|].
  destruct (Z.ltb_spec (Z.of_nat i) 0); [lia|].
  by rewrite Nat2Z.id, H.
Qed.

Lemma report_step_valid dups root st entry st' :
  Finder.report_step dups root st entry = Ok st' ->
  Forall valid_item (fst (fst st)) -> Forall valid_item (fst (fst st')).
Proof.
  destruct st as [[items kept] processed], entry as [[file_path size] mtime].
  unfold Finder.report_step. case_bool_decide.
  - destruct (Py.dict_get file_path _) as [gi|]; simpl; [|done].
    destruct (dups !! gi) as [group|]; simpl; [|done].
    case_bool_decide; [by intros [= <-]|].
    destruct group as [|p0 rest]; [by cbn|].
    destruct (guess_keeper_spec (p0 :: rest)) as (k & best & -> & Hk & Hb & _);
      [congruence|].
    cbn [rbind]. destruct (Finder.py_item _ _); cbn [rbind]; [|done].
    destruct (Finder.mapM _ _) as [rels|] eqn:Hrels; cbn [rbind]; [|done].
    intros [= <-] Hv. cbn [fst]. apply Forall_app. split; [done|].
    constructor; [|constructor]. cbn [valid_item].
    rewrite length_map, (mapM_length _ _ _ Hrels). cbn [length] in *. lia.
  - destruct (relative_to file_path root); simpl; [|done].
    intros [= <-] Hv. simpl. apply Forall_app. split; [done|].
    by repeat constructor.
Qed.

Lemma report_loop_valid dups root meta st st' :
  Finder.report_loop dups root st meta = Ok st' ->
  Forall valid_item (fst (fst st)) -> Forall valid_item (fst (fst st')).
Proof.
  revert st. induction meta as [|entry meta IH]; simpl; intros st.
  - by intros [= <-].
  - destruct (Finder.report_step dups root st entry) as [st1|] eqn:E; simpl; [|done].
    intros H Hv. eapply IH; [done|]. by eapply report_step_valid.
Qed.

Lemma create_json_report_valid meta dups root items summary :
  Finder.create_json_report meta dups root = Ok (items, summary) ->
  Forall valid_item items.
Proof.
  unfold Finder.create_json_report.
  destruct (Finder.report_loop _ _ _ _) as [[[its kept] pr]|] eqn:E; simpl; [|done].
  intros [= <- _]. by apply (report_loop_valid _ _ _ _ _ E).
Qed.

(** *** The report is produced whenever every path lies under the root *)

Lemma dict_get_set {K V} `{EqDecision K} (k k' : K) (v : V) (d : Py.dict K V) :
  Py.dict_get k' (Py.dict_set k v d) = if decide (k = k') then Some v else Py.dict_get k' d.
Proof.
  induction d as [|[k0 v0] d IH]; simpl.
  - destruct (decide (k = k')); done.
  - destruct (decide (k0 = k)) as [->|Hne]; simpl.
    + destruct (decide (k = k')); done.
    + destruct (decide (k0 = k')) as [->|Hne']; [|done].
      destruct (decide (k = k')); congruence.
Qed.

Lemma group_entries_get (i : nat) (g : list Path) (d : Py.dict Path nat) (p : Path) :
  Py.dict_get p (foldl (fun d f_path => Py.dict_set f_path i d) d g)
  = if decide (p ∈ g) then Some i else Py.dict_get p d.
Proof.
  revert d. induction g as [|f g IH]; intros d; simpl.
  - destruct (decide (p ∈ [])) as [H|]; [by apply elem_of_nil in H|done].
  - rewrite IH, dict_get_set.
    destruct (decide (p ∈ g)), (decide (p ∈ f :: g)) as [H|H]; try done.
    + exfalso. apply H. by right.
    + destruct (decide (f = p)) as [->|]; [done|].
      apply elem_of_cons in H as [->|]; done.
    + destruct (decide (f = p)) as [->|]; [|done]. exfalso. apply H. left.
Qed.

Definition group_map_from (n : nat) (gs : list (list Path)) (d : Py.dict Path nat)
  : Py.dict Path nat :=
  foldl (fun d (ig : nat * list Path) =>
           foldl (fun d f_path => Py.dict_set f_path (fst ig) d) d (snd ig))
        d (imap (fun j g => ((n + j)%nat, g)) gs).

Lemma group_map_from_cons n g gs d :
  group_map_from n (g :: gs) d
  = group_map_from (S n) gs (foldl (fun d f_path => Py.dict_set f_path n d) d g).
Proof.
  unfold group_map_from. simpl. rewrite Nat.add_0_r. f_equal.
  apply imap_ext. intros j x _. simpl. f_equal. lia.
Qed.

Lemma group_map_from_outside gs : forall n d p,
  p ∉ List.concat gs -> Py.dict_get p (group_map_from n gs d) = Py.dict_get p d.
Proof.
  induction gs as [|g gs IH]; intros n d p Hp; [done|].
  rewrite group_map_from_cons. simpl in Hp.
  rewrite IH by (intros ?; apply Hp, elem_of_app; by right).
  rewrite group_entries_get. destruct (decide (p ∈ g)); [|done].
  exfalso. apply Hp, elem_of_app. by left.
Qed.

Lemma group_map_from_inside gs : forall n d p,
  p ∈ List.concat gs ->
  exists j g, Py.dict_get p (group_map_from n gs d) = Some (n + j)%nat /\
              gs !! j = Some g /\ p ∈ g.
Proof.
  induction gs as [|g gs IH]; intros n d p Hp; [by apply elem_of_nil in Hp|].
  rewrite group_map_from_cons.
  destruct (decide (p ∈ List.concat gs)) as [Hin|Hout].
  - destruct (IH (S n) (foldl (fun d f_path => Py.dict_set f_path n d) d g) p Hin)
      as (j & g' & -> & Hj & Hg).
    exists (S j), g'. split; [f_equal; lia|done].
  - rewrite group_map_from_outside by done. rewrite group_entries_get.
    simpl in Hp. apply elem_of_app in Hp as [Hp|Hp]; [|done].
    destruct (decide (p ∈ g)); [|done]. exists 0%nat, g.
    split; [f_equal; lia|done].
Qed.

Lemma file_to_group_map_get dups p :
  p ∈ List.concat dups ->
  exists gi g, Py.dict_get p (Finder.file_to_group_map dups) = Some gi /\
               dups !! gi = Some g /\ p ∈ g.
Proof.
  intros Hp. destruct (group_map_from_inside dups 0 [] p Hp) as (j & g & H & Hj & Hg).
  exists j, g. split; [|done]. exact H.
Qed.

(** Every path handed to the report lies under the root. *)
Definition under_root (root : Path) (meta : list (Path * Z * Q)) (dups : list (list Path))
  : Prop :=
  Forall (fun e => root `prefix_of` fst (fst e)) meta /\
  Forall (Forall (fun p => root `prefix_of` p)) dups.

Lemma relative_to_ok p root : root `prefix_of` p -> exists r, relative_to p root = Ok r.
Proof. intros H. unfold relative_to. rewrite bool_decide_eq_true_2 by done. by eexists. Qed.

Lemma report_step_ok dups root st entry :
  root `prefix_of` fst (fst entry) ->
  Forall (Forall (fun p => root `prefix_of` p)) dups ->
  exists st', Finder.report_step dups root st entry = Ok st'.
Proof.
  destruct st as [[items kept] processed], entry as [[file_path size] mtime].
  cbn [fst]. intros Hroot Hdups. unfold Finder.report_step. case_bool_decide as Hin.
  - unfold Finder.duplicate_file_paths_set in Hin. apply elem_of_list_to_set in Hin.
    destruct (file_to_group_map_get dups file_path Hin) as (gi & g & -> & Hgi & Hg).
    cbn [rbind]. rewrite Hgi. cbn [rbind]. case_bool_decide; [by eexists|].
    destruct (guess_keeper_spec g) as (k & best & -> & Hk & Hb & _).
    { intros ->. by apply elem_of_nil in Hg. }
    cbn [rbind]. replace (Z.of_nat k - 1) with (Z.of_nat (k - 1)) by lia.
    rewrite (py_item_ok _ _ _ Hb). cbn [rbind].
    destruct (mapM_ok (fun p => relative_to p root) g) as [rels ->].
    { intros x Hx. apply relative_to_ok.
      eapply Forall_forall in Hdups; [|by eapply list_elem_of_lookup_2].
      by eapply Forall_forall in Hdups. }
    cbn [rbind]. by eexists.
  - destruct (relative_to_ok _ _ Hroot) as [r ->]. cbn [rbind]. by eexists.
Qed.

Lemma report_loop_ok dups root meta : forall st,
  under_root root meta dups ->
  exists st', Finder.report_loop dups root st meta = Ok st'.
Proof.
  induction meta as [|entry meta IH]; intros st [Hm Hd]; simpl; [by eexists|].
  inversion Hm as [|? ? He Hm']; subst.
  destruct (report_step_ok dups root st entry He Hd) as [st1 ->]. cbn [rbind].
  by apply IH.
Qed.

Lemma create_json_report_ok meta dups root :
  under_root root meta dups ->
  exists report, Finder.create_json_report meta dups root = Ok report.
Proof.
  intros H. unfold Finder.create_json_report.
  destruct (report_loop_ok dups root meta ([], [], ∅) H) as [[[items kept] pr] ->].
  cbn [rbind]. by eexists.
Qed.

End KeeperFacts.

(** * Regular expressions: the matcher agrees with the denotation *)

Module ReFacts.

Import Re.

Ltac nil_app :=
  repeat match goal with
  | H : _ ++ _ = [] |- _ => apply app_eq_nil in H as [? ?]; subst
  | H : [] = _ ++ _ |- _ => symmetry in H; apply app_eq_nil in H as [? ?]; subst
  end.

Lemma matches_eps_inv s : matches Eps s -> s = [].
Proof. by inversion 1. Qed.

Lemma matches_void_inv s : ~ matches Void s.
Proof. by inversion 1. Qed.

Lemma matches_alt_inv r1 r2 s : matches (Alt r1 r2) s -> matches r1 s \/ matches r2 s.
Proof. inversion 1; auto. Qed.

Lemma matches_cat_inv r1 r2 s :
  matches (Cat r1 r2) s -> exists s1 s2, s = s1 ++ s2 /\ matches r1 s1 /\ matches r2 s2.
Proof. inversion 1; subst; eauto. Qed.

Lemma nullable_spec r : nullable r = true <-> matches r [].
Proof.
  split.
  - induction r; simpl; intros H; try done.
    + constructor.
    + apply andb_true_iff in H as [H1 H2]. apply (m_cat _ _ [] []); auto.
    + apply orb_true_iff in H as [H|H]; [apply m_alt_l|apply m_alt_r]; auto.
    + apply m_plus_one; auto.
  - induction r; simpl; intros H; try done.
    + by inversion H.
    + inversion H.
    + inv H. nil_app. apply andb_true_iff; auto.
    + apply orb_true_iff. inv H; auto.
    + inv H; nil_app; auto.
Qed.

Lemma deriv_sound c r : forall s, matches (deriv c r) s -> matches r (c :: s).
Proof.
  induction r; simpl; intros s H.
  - by apply matches_void_inv in H.
  - by apply matches_void_inv in H.
  - destruct (P c) eqn:E; [|by apply matches_void_inv in H].
    apply matches_eps_inv in H as ->. by constructor.
  - destruct (nullable r1) eqn:E.
    + inv H.
      * match goal with H : matches (Cat _ _) _ |- _ => inv H end.
        rewrite app_comm_cons. constructor; auto.
      * apply (m_cat _ _ [] (c :: s)); [by apply nullable_spec|auto].
    + inv H. rewrite app_comm_cons. constructor; auto.
  - inv H; [apply m_alt_l|apply m_alt_r]; auto.
  - inv H.
    match goal with H : matches (Alt _ _) _ |- _ => inv H end.
    + match goal with H : matches Eps _ |- _ => apply matches_eps_inv in H as -> end.
      rewrite app_nil_r. apply m_plus_one; auto.
    + rewrite app_comm_cons. apply m_plus_more; auto.
Qed.

Lemma deriv_complete c r s' :
  matches r s' -> forall s, s' = c :: s -> matches (deriv c r) s.
Proof.
  induction 1 as [|P c' HP|r1 r2 s1 s2 H1 IH1 H2 IH2|r1 r2 s0 H1 IH1|r1 r2 s0 H1 IH1
                 |r s0 H1 IH1|r s1 s2 H1 IH1 H2 IH2]; intros s Heq; simpl.
  - done.
  - injection Heq as -> <-. rewrite HP. constructor.
  - destruct s1 as [|a s1]; simpl in Heq.
    + subst s2. apply nullable_spec in H1 as ->. apply m_alt_r. by apply IH2.
    + injection Heq as -> <-. 
      assert (matches (Cat (deriv c r1) r2) (s1 ++ s2)) by (constructor; auto).
      destruct (nullable r1); [by apply m_alt_l|done].
  - apply m_alt_l. by apply IH1.
  - apply m_alt_r. by apply IH1.
  - rewrite <- (app_nil_r s). constructor; [by apply IH1|]. apply m_alt_l. constructor.
  - destruct s1 as [|a s1]; simpl in Heq.
    + subst s2. by apply IH2.
    + injection Heq as -> <-. constructor; [by apply IH1|]. by apply m_alt_r.
Qed.

Lemma deriv_spec c r s : matches (deriv c r) s <-> matches r (c :: s).
Proof. split; [apply deriv_sound|]. intros H. by eapply deriv_complete. Qed.

Lemma match_prefix_spec s : forall r,
  match_prefix r s = true <-> exists s1 s2, s = s1 ++ s2 /\ matches r s1.
Proof.
  induction s as [|c s IH]; intros r; simpl.
  - rewrite orb_false_r, nullable_spec. split.
    + intros H. by exists [], [].
    + intros (s1 & s2 & Heq & H). symmetry in Heq.
      by apply app_eq_nil in Heq as [-> ->].
  - rewrite orb_true_iff, nullable_spec, IH. split.
    + intros [H|(s1 & s2 & -> & H)].
      * by exists [], (c :: s).
      * exists (c :: s1), s2. split; [done|]. by apply deriv_spec.
    + intros (s1 & s2 & Heq & H). destruct s1 as [|a s1]; [by left|].
      injection Heq as <- ->. right. exists s1, s2. split; [done|]. by apply deriv_spec.
Qed.

(** [re.search] finds a match exactly when some substring belongs to
    the language of the pattern. *)
Lemma search_nil r : search r [] = match_prefix r [] || false.
Proof. done. Qed.

Lemma search_cons r c s : search r (c :: s) = match_prefix r (c :: s) || search r s.
Proof. done. Qed.

Lemma search_spec r s :
  search r s = true <-> exists pre m post, s = pre ++ m ++ post /\ matches r m.
Proof.
  induction s as [|c s IH].
  - rewrite search_nil, orb_false_r, match_prefix_spec. split.
    + intros (s1 & s2 & Heq & H). by exists [], s1, s2.
    + intros (pre & m & post & Heq & H). nil_app. by exists [], [].
  - rewrite search_cons, orb_true_iff, match_prefix_spec, IH. split.
    + intros [(s1 & s2 & Heq & H)|(pre & m & post & -> & H)].
      * by exists [], s1, s2.
      * by exists (c :: pre), m, post.
    + intros (pre & m & post & Heq & H). destruct pre as [|a pre].
      * left. by exists m, post.
      * injection Heq as <- ->. right. by exists pre, m, post.
Qed.

Lemma matches_lit_char c m : matches (lit_char c) m <-> m = [c].
Proof.
  unfold lit_char. split.
  - intros H. inv H. match goal with H : Ascii.eqb _ _ = true |- _ =>
      by apply Ascii.eqb_eq in H as -> end.
  - intros ->. constructor. apply Ascii.eqb_refl.
Qed.

Lemma matches_lit w : forall m, matches (lit w) m <-> m = w.
Proof.
  induction w as [|c w IH]; intros m; simpl.
  - split; [apply matches_eps_inv|intros ->; constructor].
  - split.
    + intros H. inv H.
      match goal with H : matches (lit_char _) _ |- _ =>
        apply matches_lit_char in H as -> end.
      match goal with H : matches (lit _) _ |- _ => by apply IH in H as -> end.
    + intros ->. apply (m_cat _ _ [c] w); [by apply matches_lit_char|by apply IH].
Qed.

Lemma matches_one_of cs m : matches (one_of cs) m <-> exists c, c ∈ cs /\ m = [c].
Proof.
  unfold one_of. split.
  - intros H. inv H. match goal with H : existsb _ _ = true |- _ =>
      apply existsb_exists in H as (x & Hx & ->%Ascii.eqb_eq) end.
    exists x. split; [by apply list_elem_of_In|done].
  - intros (c & Hc & ->). constructor. apply existsb_exists. exists c.
    split; [by apply list_elem_of_In|apply Ascii.eqb_refl].
Qed.

Lemma matches_plus_class P m :
  matches (Plus (Chr P)) m <-> m <> [] /\ Forall (fun c => P c = true) m.
Proof.
  split.
  - intros H. remember (Plus (Chr P)) as r eqn:Hr.
    induction H as [| | | | |r s0 H1 _|r s1 s2 H1 _ H2 IH2]; try done.
    + injection Hr as ->. inv H1. split; [done|]. by repeat constructor.
    + injection Hr as ->. inv H1. destruct (IH2 eq_refl) as [_ HF].
      split; [done|]. by constructor.
  - intros [Hne HF]. induction HF as [|c m Hc HF IH]; [done|].
    destruct m as [|c' m'].
    + apply m_plus_one. by constructor.
    + apply (m_plus_more _ [c] (c' :: m')); [by constructor|by apply IH].
Qed.

End ReFacts.

(** * Claims about the keeper heuristic *)

Module KeeperClaims.

Import OrderFacts KeeperFacts.

(** [n] has [w] as a substring. *)
Definition contains (w n : list ascii) : Prop := exists pre post, n = pre ++ w ++ post.

(** The copy indicators of the heuristic: ["(copy)"], or ["copy"]
    right after a dash, an underscore or a space. *)
Definition copy_indicator (n : list ascii) : Prop :=
  contains (list_ascii_of_string "(copy)") n \/
  exists c, c ∈ list_ascii_of_string "-_ " /\ contains (c :: list_ascii_of_string "copy") n.

(** A parenthesized number: ["("], one or more digits, [")"]. *)
Definition parenthesized_number (n : list ascii) : Prop :=
  exists ds, ds <> [] /\ Forall (fun c => Re.is_digit c = true) ds /\
             contains ("("%char :: ds ++ [")"%char]) n.

Lemma copy_re_spec n : Re.search Finder.copy_re n = true <-> copy_indicator n.
Proof.
  rewrite ReFacts.search_spec. unfold copy_indicator, contains, Finder.copy_re. split.
  - intros (pre & m & post & -> & H).
    apply ReFacts.matches_alt_inv in H as [H|H].
    + apply ReFacts.matches_lit in H as ->. left. by exists pre, post.
    + apply ReFacts.matches_cat_inv in H as (s1 & s2 & -> & H1 & H2).
      apply ReFacts.matches_one_of in H1 as (c & Hc & ->).
      apply ReFacts.matches_lit in H2 as ->.
      right. exists c. split; [done|]. by exists pre, post.
  - intros [(pre & post & ->)|(c & Hc & pre & post & ->)].
    + exists pre, (list_ascii_of_string "(copy)"), post. split; [done|].
      apply Re.m_alt_l. by apply ReFacts.matches_lit.
    + exists pre, (c :: list_ascii_of_string "copy"), post. split; [done|].
      apply Re.m_alt_r. apply (Re.m_cat _ _ [c]).
      * apply ReFacts.matches_one_of. by exists c.
      * by apply ReFacts.matches_lit.
Qed.

Lemma number_re_spec n : Re.search Finder.number_re n = true <-> parenthesized_number n.
Proof.
  rewrite ReFacts.search_spec. unfold parenthesized_number, contains, Finder.number_re.
  split.
  - intros (pre & m & post & -> & H).
    apply ReFacts.matches_cat_inv in H as (s1 & s2 & -> & H1 & H2).
    apply ReFacts.matches_cat_inv in H2 as (ds & s3 & -> & H2 & H3).
    apply ReFacts.matches_lit_char in H1 as ->.
    apply ReFacts.matches_lit_char in H3 as ->.
    apply ReFacts.matches_plus_class in H2 as [Hne HF].
    exists ds. split; [done|]. split; [done|]. by exists pre, post.
  - intros (ds & Hne & HF & pre & post & ->).
    exists pre, ("("%char :: ds ++ [")"%char]), post. split; [done|].
    apply (Re.m_cat _ _ ["("%char]); [by apply ReFacts.matches_lit_char|].
    constructor; [by apply ReFacts.matches_plus_class|by apply ReFacts.matches_lit_char].
Qed.

(** A string of ASCII characters.  On such a string [str.lower] changes
    the letters [A] to [Z] only and the class [\d] is the set of the
    digits [0] to [9]; in a string with other characters [\d] also
    accepts the other Unicode decimal digits. *)
Definition ascii_only (s : string) : Prop :=
  forallb (fun c => (nat_of_ascii c <? 128)%nat) (list_ascii_of_string s) = true.

(** C9, as amended.  The score of a path whose file name is made of
    ASCII characters is the sum of a penalty of 10 when the lower-cased
    file name has a copy indicator (["(copy)"], or ["copy"] right after
    ['-'], ['_'] or a space), a penalty of 5 when it has a parenthesized
    number (digits [0] to [9]), and the number of parts of the path
    minus one. *)
Theorem filename_score_formula (p : Path) :
  ascii_only (name p) ->
  let n := Finder.lower (name p) in
  exists copy_penalty number_penalty,
    Finder.get_filename_score p
      = copy_penalty + number_penalty + (Z.of_nat (length p) - 1) /\
    ((copy_indicator n /\ copy_penalty = 10) \/ (~ copy_indicator n /\ copy_penalty = 0)) /\
    ((parenthesized_number n /\ number_penalty = 5) \/
     (~ parenthesized_number n /\ number_penalty = 0)).
Proof.
  intros _ n. unfold Finder.get_filename_score. fold n.
  pose proof (copy_re_spec n) as Hc. pose proof (number_re_spec n) as Hn.
  destruct (Re.search Finder.copy_re n), (Re.search Finder.number_re n).
  - exists 10, 5. split; [lia|]. split; left; split; try done; [by apply Hc|by apply Hn].
  - exists 10, 0. split; [lia|]. split; [left|right]; split; try done.
    + by apply Hc.
    + intros H%Hn. done.
  - exists 0, 5. split; [lia|]. split; [right|left]; split; try done.
    + intros H%Hc. done.
    + by apply Hn.
  - exists 0, 0. split; [lia|]. split; right; split; try done.
    + intros H%Hc. done.
    + intros H%Hn. done.
Qed.

Lemma filename_score_formula_witness :
  exists copy_penalty number_penalty,
    Finder.get_filename_score ["/"; "photos"; "old"; "Holiday (2) - Copy.JPG"]
      = copy_penalty + number_penalty + (4 - 1) /\
    ((copy_indicator (list_ascii_of_string "holiday (2) - copy.jpg") /\ copy_penalty = 10)
     \/ (~ copy_indicator (list_ascii_of_string "holiday (2) - copy.jpg")
         /\ copy_penalty = 0)) /\
    ((parenthesized_number (list_ascii_of_string "holiday (2) - copy.jpg")
      /\ number_penalty = 5) \/
     (~ parenthesized_number (list_ascii_of_string "holiday (2) - copy.jpg")
      /\ number_penalty = 0)).
Proof.
  apply (filename_score_formula ["/"; "photos"; "old"; "Holiday (2) - Copy.JPG"]).
  reflexivity.
Defined.

(** C9, counterexample.  The file name ["copy.txt"] contains the token
    ["copy"], yet no penalty is added: its score is its depth, 0. *)
Lemma bare_copy_not_penalized :
  contains (list_ascii_of_string "copy") (Finder.lower (name ["copy.txt"])) /\
  Finder.get_filename_score ["copy.txt"] = Z.of_nat (length ["copy.txt"]) - 1.
Proof.
  split; [|reflexivity].
  exists [], (list_ascii_of_string ".txt"). reflexivity.
Qed.

(** C6.  The keeper does not depend on the order of the group: for two
    orderings of the same non-empty group, [guess_keeper] designates the
    same path, and that path has the least [(score, path)] pair: a
    lower score than any other member, or the same score and a path
    that does not sort after it. *)
Theorem keeper_order_independent (g1 g2 : list Path) :
  g1 <> [] -> g1 ≡ₚ g2 ->
  exists k1 k2 best,
    Finder.guess_keeper g1 = Ok k1 /\ Finder.guess_keeper g2 = Ok k2 /\
    g1 !! (k1 - 1)%nat = Some best /\ g2 !! (k2 - 1)%nat = Some best /\
    forall p, p ∈ g1 ->
      Finder.get_filename_score best < Finder.get_filename_score p \/
      (Finder.get_filename_score best = Finder.get_filename_score p /\
       path_compare best p <> Gt).
Proof.
  intros Hne Hp.
  destruct (guess_keeper_spec g1 Hne) as (k1 & b1 & K1).
  destruct (guess_keeper_spec g2) as (k2 & b2 & K2).
  { intros ->. by apply Permutation_nil_r in Hp. }
  pose proof (keeper_unique _ _ _ _ _ _ Hp K1 K2) as <-.
  destruct K1 as (E1 & _ & L1 & M1), K2 as (E2 & _ & L2 & _).
  exists k1, k2, b1. repeat split; try done.
  intros p Hin. by apply preferred_spec, M1.
Qed.

Lemma keeper_order_independent_witness :
  exists k1 k2 best,
    Finder.guess_keeper [["sub"; "a_copy.txt"]; ["a.txt"]] = Ok k1 /\
    Finder.guess_keeper [["a.txt"]; ["sub"; "a_copy.txt"]] = Ok k2 /\
    [["sub"; "a_copy.txt"]; ["a.txt"]] !! (k1 - 1)%nat = Some best /\
    [["a.txt"]; ["sub"; "a_copy.txt"]] !! (k2 - 1)%nat = Some best /\
    forall p, p ∈ [["sub"; "a_copy.txt"]; ["a.txt"]] ->
      Finder.get_filename_score best < Finder.get_filename_score p \/
      (Finder.get_filename_score best = Finder.get_filename_score p /\
       path_compare best p <> Gt).
Proof.
  apply keeper_order_independent; [discriminate|apply Permutation_swap].
Defined.

(** C10.  [guess_keeper] returns 0 on an empty group and a position
    between 1 and the length of a non-empty group; every
    [duplicate_group] record of the JSON report has a [keep_index] that
    is a valid 0-based index into its [files]; and the report is
    produced whenever all paths lie under the root. *)
Theorem keep_index_valid :
  Finder.guess_keeper [] = Ok 0%nat /\
  (forall group, group <> [] ->
     exists k, Finder.guess_keeper group = Ok k /\ (1 <= k <= length group)%nat) /\
  (forall meta dups root items summary,
     Finder.create_json_report meta dups root = Ok (items, summary) ->
     forall size files keep_index,
       Finder.duplicate_group size files keep_index ∈ items ->
       0 <= keep_index < Z.of_nat (length files)) /\
  (forall meta dups root,
     under_root root meta dups ->
     exists report, Finder.create_json_report meta dups root = Ok report).
Proof.
  split; [done|]. split; [|split].
  - intros group Hne. destruct (guess_keeper_spec group Hne) as (k & b & E & Hk & _).
    by exists k.
  - intros meta dups root items summary H size files ki Hin.
    apply create_json_report_valid in H.
    eapply Forall_forall in H; [|done]. exact H.
  - apply create_json_report_ok.
Qed.

Lemma keep_index_valid_witness :
  exists k, Finder.guess_keeper [["/"; "r"; "a (1).txt"]; ["/"; "r"; "a.txt"]] = Ok k /\
            (1 <= k <= length [["/"; "r"; "a (1).txt"]; ["/"; "r"; "a.txt"]])%nat.
Proof.
  apply keep_index_valid. discriminate.
Defined.

End KeeperClaims.

(** * Folder analysis *)

Module FolderFacts.

Import CachedFinder.

(** ** Pairs of [combinations] *)

Lemma combinations2_in {A} (l : list A) a b :
  (a, b) ∈ Py.combinations2 l -> a ∈ l /\ b ∈ l.
Proof.
  induction l as [|x l IH]; simpl; [by intros ?%elem_of_nil|].
  intros [H|H]%elem_of_app.
  - apply list_elem_of_fmap in H as (y & [= -> ->] & Hy). split; [left|by right].
  - destruct (IH H). split; by right.
Qed.

Lemma combinations2_neq {A} (l : list A) a b :
  NoDup l -> (a, b) ∈ Py.combinations2 l -> a <> b.
Proof.
  induction 1 as [|x l Hx Hl IH]; simpl; [by intros ?%elem_of_nil|].
  intros [H|H]%elem_of_app; [|by apply IH].
  apply list_elem_of_fmap in H as (y & [= -> ->] & Hy). by intros ->.
Qed.

Lemma combinations2_total {A} (l : list A) a b :
  a ∈ l -> b ∈ l -> a <> b ->
  (a, b) ∈ Py.combinations2 l \/ (b, a) ∈ Py.combinations2 l.
Proof.
  induction l as [|x l IH]; simpl; [by intros ?%elem_of_nil|].
  intros [->|Ha]%elem_of_cons [->|Hb]%elem_of_cons Hne; try done.
  - left. apply elem_of_app. left. by apply list_elem_of_fmap_2.
  - right. apply elem_of_app. left. by apply list_elem_of_fmap_2.
  - destruct (IH Ha Hb Hne); [left|right]; apply elem_of_app; by right.
Qed.

(** ** The [defaultdict(set)] of signatures *)

Section dict_add.

Context {K V : Type} {EqK : EqDecision K} {EqV : EqDecision V} {CntV : Countable V}.

Definition lookup_set (d : Py.dict K (gset V)) (k : K) : gset V :=
  default ∅ (Py.dict_get k d).

Lemma lookup_set_add k x d k' :
  lookup_set (Py.dict_add k x d) k'
  = if decide (k = k') then {[ x ]} ∪ lookup_set d k' else lookup_set d k'.
Proof.
  unfold lookup_set. induction d as [|[k0 s0] d IH]; simpl.
  - destruct (decide (k = k')); simpl; [set_solver|done].
  - destruct (decide (k0 = k)) as [->|Hne]; simpl.
    + destruct (decide (k = k')); done.
    + destruct (decide (k0 = k')) as [->|Hne']; [|done].
      destruct (decide (k = k')); congruence.
Qed.

Lemma keys_add k x (d : Py.dict K (gset V)) k' :
  k' ∈ List.map fst (Py.dict_add k x d) <-> k' = k \/ k' ∈ List.map fst d.
Proof.
  induction d as [|[k0 s0] d IH]; simpl.
  - rewrite list_elem_of_singleton. set_solver.
  - destruct (decide (k0 = k)) as [->|Hne]; simpl.
    + rewrite !elem_of_cons. tauto.
    + rewrite !elem_of_cons, IH. tauto.
Qed.

Lemma keys_add_NoDup k x (d : Py.dict K (gset V)) :
  NoDup (List.map fst d) -> NoDup (List.map fst (Py.dict_add k x d)).
Proof.
  induction d as [|[k0 s0] d IH]; simpl; intros Hd.
  - repeat constructor. by intros ?%elem_of_nil.
  - apply NoDup_cons in Hd as [Hk0 Hd]. destruct (decide (k0 = k)) as [->|Hne]; simpl.
    + by apply NoDup_cons.
    + apply NoDup_cons. split; [|by apply IH].
      rewrite keys_add. intros [->|?]; done.
Qed.

Lemma lookup_set_absent (d : Py.dict K (gset V)) k :
  k ∉ List.map fst d -> lookup_set d k = ∅.
Proof.
  unfold lookup_set. induction d as [|[k0 s0] d IH]; simpl; [done|].
  intros Hk. destruct (decide (k0 = k)) as [->|Hne].
  - exfalso. apply Hk. left.
  - apply IH. intros ?. apply Hk. by right.
Qed.

End dict_add.

Section folders.

Variable xxh64 : bytes -> Z.
Variable fs : filesystem.
Variable full_hashes_map : Py.dict string (list Path).

(** The content hash the analysis attributes to a file: the one
    recorded in [full_hashes_map], or else the hash of its content. *)
Definition hash_of (file : Path) : string :=
  match Py.dict_get file (initial_file_hashes full_hashes_map) with
  | Some h => h
  | None => get_full_hash xxh64 fs file
  end.

(** The signature of a folder: the non-empty hashes of the files of
    the scan that lie directly in it. *)
Definition content_signature (all_files : list Path) (folder : Path) : gset string :=
  list_to_set
    (omap (fun file =>
             if decide (parent file = folder) then
               if nonempty (hash_of file) then Some (hash_of file) else None
             else None)
          all_files).

Lemma elem_of_content_signature all_files folder h :
  h ∈ content_signature all_files folder <->
  exists file, file ∈ all_files /\ parent file = folder /\ hash_of file = h /\ h <> "".
Proof.
  unfold content_signature. rewrite elem_of_list_to_set, list_elem_of_omap. split.
  - intros (file & Hf & Hs). exists file. split; [done|].
    destruct (decide (parent file = folder)); [|done].
    destruct (nonempty (hash_of file)) eqn:E; [|done].
    injection Hs as <-. repeat split; try done.
    intros E'. rewrite E' in E. done.
  - intros (file & Hf & Hp & <- & Hne). exists file. split; [done|].
    rewrite decide_True by done.
    destruct (nonempty (hash_of file)) eqn:E; [done|].
    unfold nonempty in E. apply negb_false_iff, String.eqb_eq in E. done.
Qed.

Lemma content_signature_app l1 l2 folder :
  content_signature (l1 ++ l2) folder
  = content_signature l1 folder ∪ content_signature l2 folder.
Proof. unfold content_signature. rewrite omap_app. set_solver. Qed.

(** The state of the signature loop after the files [done]. *)
Record loop_inv (done : list Path)
  (st : Py.dict Path string * Py.dict Path (gset string)) : Prop := {
  inv_known : forall f h, Py.dict_get f st.1 = Some h -> hash_of f = h;
  inv_initial : forall f h,
    Py.dict_get f (initial_file_hashes full_hashes_map) = Some h ->
    Py.dict_get f st.1 = Some h;
  inv_sig : forall folder, signature_of st.2 folder = content_signature done folder;
  inv_keys : forall folder,
    folder ∈ List.map fst st.2 <-> content_signature done folder <> ∅;
  inv_nodup : NoDup (List.map fst st.2)
}.

Lemma loop_inv_init : loop_inv [] (initial_file_hashes full_hashes_map, []).
Proof.
  split; simpl; try done.
  - intros f h E. unfold hash_of. by rewrite E.
  - intros folder. split; [by intros ?%elem_of_nil|]. intros H. by destruct H.
  - constructor.
Qed.

Lemma content_signature_snoc done file folder :
  content_signature (done ++ [file]) folder
  = if decide (parent file = folder) then
      if nonempty (hash_of file) then {[ hash_of file ]} ∪ content_signature done folder
      else content_signature done folder
    else content_signature done folder.
Proof.
  rewrite content_signature_app. unfold content_signature at 2. simpl.
  destruct (decide (parent file = folder)); [|set_solver].
  destruct (nonempty (hash_of file)); set_solver.
Qed.

Lemma loop_inv_add done st file :
  loop_inv done st ->
  nonempty (hash_of file) = true ->
  forall afh, (forall f h, Py.dict_get f afh = Some h -> hash_of f = h) ->
    (forall f h, Py.dict_get f (initial_file_hashes full_hashes_map) = Some h ->
                 Py.dict_get f afh = Some h) ->
    loop_inv (done ++ [file]) (afh, Py.dict_add (parent file) (hash_of file) st.2).
Proof.
  intros [Hk Hi Hs Hkeys Hnd] Hne afh Hk' Hi'. split; simpl; try done.
  - intros folder. change (signature_of ?d ?k) with (lookup_set d k).
    rewrite lookup_set_add, content_signature_snoc, Hne.
    change (lookup_set ?d ?k) with (signature_of d k). rewrite Hs.
    destruct (decide (parent file = folder)); done.
  - intros folder. rewrite keys_add, content_signature_snoc, Hne, Hkeys.
    destruct (decide (parent file = folder)) as [<-|Hp].
    + split; [set_solver|by left].
    + split; [intros [->|?]; done|by right].
  - by apply keys_add_NoDup.
Qed.

Lemma loop_inv_skip done st file :
  loop_inv done st -> nonempty (hash_of file) = false -> loop_inv (done ++ [file]) st.
Proof.
  intros [Hk Hi Hs Hkeys Hnd] Hne. split; try done.
  - intros folder. rewrite content_signature_snoc, Hne. rewrite Hs.
    by destruct (decide (parent file = folder)).
  - intros folder. rewrite content_signature_snoc, Hne, Hkeys.
    by destruct (decide (parent file = folder)).
Qed.

Lemma signature_step_inv done st file :
  loop_inv done st -> loop_inv (done ++ [file]) (signature_step xxh64 fs st file).
Proof.
  intros Hinv. destruct st as [afh sigs]. unfold signature_step.
  destruct (Py.dict_get file afh) as [h|] eqn:E.
  - pose proof (inv_known _ _ Hinv _ _ E) as Hh. simpl in Hh. subst h.
    destruct (nonempty (hash_of file)) eqn:Hne.
    + apply (loop_inv_add done (afh, sigs) file Hinv Hne); apply Hinv.
    + by apply loop_inv_skip.
  - assert (hash_of file = get_full_hash xxh64 fs file) as Hh.
    { unfold hash_of.
      destruct (Py.dict_get file (initial_file_hashes full_hashes_map)) as [h|] eqn:E0;
        [|done].
      apply (inv_initial _ _ Hinv) in E0. simpl in E0. congruence. }
    rewrite <- Hh. destruct (nonempty (hash_of file)) eqn:Hne.
    + apply (loop_inv_add done (afh, sigs) file Hinv Hne).
      * intros f h. rewrite KeeperFacts.dict_get_set.
        destruct (decide (file = f)) as [<-|]; [congruence|]. apply Hinv.
      * intros f h E0. rewrite KeeperFacts.dict_get_set.
        destruct (decide (file = f)) as [<-|]; [|by apply Hinv].
        apply (inv_initial _ _ Hinv) in E0. simpl in E0. congruence.
    + by apply loop_inv_skip.
Qed.

Lemma signature_loop_inv files : forall done st,
  loop_inv done st -> loop_inv (done ++ files) (foldl (signature_step xxh64 fs) st files).
Proof.
  induction files as [|file files IH]; intros done st Hinv; simpl.
  - by rewrite app_nil_r.
  - rewrite (cons_middle file done files), app_assoc. apply IH.
    by apply signature_step_inv.
Qed.

Lemma folder_content_signatures_inv all_files :
  loop_inv all_files
    (foldl (signature_step xxh64 fs) (initial_file_hashes full_hashes_map, []) all_files).
Proof. apply (signature_loop_inv all_files [] _ loop_inv_init). Qed.

End folders.

End FolderFacts.

(** * Claim about the folder analysis *)

Module FolderClaims.

Import CachedFinder FolderFacts.

Section relationships.

Variable xxh64 : bytes -> Z.
Variable fs : filesystem.
Variable all_files : list Path.
Variable full_hashes_map : Py.dict string (list Path).

Let signatures := folder_content_signatures xxh64 fs all_files full_hashes_map.
Let rels := fst (analyze_folder_duplicates xxh64 fs all_files full_hashes_map).
Let sig := content_signature xxh64 fs full_hashes_map all_files.

Lemma signatures_inv :
  (forall folder, signature_of signatures folder = sig folder) /\
  (forall folder, folder ∈ List.map fst signatures <-> sig folder <> ∅) /\
  NoDup (List.map fst signatures).
Proof.
  destruct (folder_content_signatures_inv xxh64 fs full_hashes_map all_files)
    as [_ _ Hs Hk Hn].
  done.
Qed.

Lemma compare_folders_spec a b :
  sig a <> ∅ -> sig b <> ∅ ->
  compare_folders signatures (a, b)
  = if decide (sig a = sig b) then [Exact_Duplicate a b]
    else if decide (sig a ⊆ sig b) then [Subset a b]
    else if decide (sig b ⊆ sig a) then [Subset b a]
    else [].
Proof.
  intros Ha Hb. destruct signatures_inv as (Hs & _ & _).
  unfold compare_folders. rewrite !Hs.
  rewrite (bool_decide_eq_false_2 (sig a = ∅)) by done.
  rewrite (bool_decide_eq_false_2 (sig b = ∅)) by done.
  simpl. repeat case_bool_decide; repeat case_decide; done.
Qed.

Lemma elem_of_rels r :
  r ∈ rels <->
  exists a b, (a, b) ∈ Py.combinations2 (List.map fst signatures) /\
              r ∈ compare_folders signatures (a, b).
Proof.
  unfold rels, analyze_folder_duplicates, folder_relationships. simpl.
  fold signatures. rewrite list_elem_of_In, in_concat. split.
  - intros (l & Hl & Hr). apply in_map_iff in Hl as ([a b] & <- & Hab).
    exists a, b. by rewrite !list_elem_of_In.
  - intros (a & b & Hab & Hr). exists (compare_folders signatures (a, b)).
    rewrite <- !list_elem_of_In. split; [|done].
    apply list_elem_of_In, in_map_iff. exists (a, b). by rewrite <- list_elem_of_In.
Qed.

Lemma pair_compared a b :
  (a, b) ∈ Py.combinations2 (List.map fst signatures) ->
  a <> b /\ sig a <> ∅ /\ sig b <> ∅.
Proof.
  destruct signatures_inv as (_ & Hk & Hn). intros H.
  split; [by eapply combinations2_neq|].
  apply combinations2_in in H as [Ha Hb]. by rewrite <- !Hk.
Qed.

(** C7.  For two distinct directories with non-empty signatures, an
    [Exact_Duplicate] relationship between them is emitted exactly when
    the signatures are equal, and [Subset X Y] exactly when the
    signature of [X] is a strict subset of that of [Y]; every emitted
    relationship is between two distinct directories with non-empty
    signatures, so a directory without hashed files appears in none. *)
Theorem folder_relationships_exact :
  (forall X Y, X <> Y -> sig X <> ∅ -> sig Y <> ∅ ->
     ((Exact_Duplicate X Y ∈ rels \/ Exact_Duplicate Y X ∈ rels) <-> sig X = sig Y) /\
     (Subset X Y ∈ rels <-> sig X ⊂ sig Y)) /\
  (forall A B, Exact_Duplicate A B ∈ rels \/ Subset A B ∈ rels ->
     A <> B /\ sig A <> ∅ /\ sig B <> ∅).
Proof.
  destruct signatures_inv as (Hs & Hk & Hn). split.
  - intros X Y Hne HX HY.
    assert ((X, Y) ∈ Py.combinations2 (List.map fst signatures) \/
            (Y, X) ∈ Py.combinations2 (List.map fst signatures)) as Hpair.
    { apply combinations2_total; [by apply Hk|by apply Hk|done]. }
    split; split.
    + intros [H|H]; apply elem_of_rels in H as (a & b & Hab & Hr);
        destruct (pair_compared a b Hab) as (_ & Ha & Hb);
        rewrite compare_folders_spec in Hr by done;
        repeat case_decide; set_solver.
    + intros Heq. destruct Hpair as [H|H]; [left|right]; apply elem_of_rels.
      * exists X, Y. split; [done|]. rewrite compare_folders_spec by done.
        rewrite decide_True by done. left.
      * exists Y, X. split; [done|]. rewrite compare_folders_spec by done.
        rewrite decide_True by done. left.
    + intros H. apply elem_of_rels in H as (a & b & Hab & Hr).
      destruct (pair_compared a b Hab) as (_ & Ha & Hb).
      rewrite compare_folders_spec in Hr by done.
      repeat case_decide; set_solver.
    + intros [Hsub Hnsub]. apply elem_of_rels. destruct Hpair as [H|H].
      * exists X, Y. split; [done|]. rewrite compare_folders_spec by done.
        rewrite decide_False by set_solver. rewrite decide_True by done. left.
      * exists Y, X. split; [done|]. rewrite compare_folders_spec by done.
        rewrite decide_False by set_solver. rewrite decide_False by done.
        rewrite decide_True by done. left.
  - intros A B [H|H]; apply elem_of_rels in H as (a & b & Hab & Hr);
      destruct (pair_compared a b Hab) as (Hne & Ha & Hb);
      rewrite compare_folders_spec in Hr by done;
      repeat case_decide; set_solver.
Qed.

End relationships.

Definition sample_hashes : Py.dict string (list Path) :=
  [("h1", [["r"; "dir_A"; "file1.txt"]; ["r"; "dir_B"; "file1_copy.txt"]]);
   ("h2", [["r"; "dir_B"; "unique_in_B.txt"]])].

Definition sample_files : list Path :=
  [["r"; "dir_A"; "file1.txt"]; ["r"; "dir_B"; "file1_copy.txt"];
   ["r"; "dir_B"; "unique_in_B.txt"]].

Lemma folder_relationships_exact_witness :
  Subset ["r"; "dir_A"] ["r"; "dir_B"]
    ∈ fst (analyze_folder_duplicates XXH64.xxh64 (mkFs ∅ ∅) sample_files sample_hashes)
  <-> content_signature XXH64.xxh64 (mkFs ∅ ∅) sample_hashes sample_files ["r"; "dir_A"]
      ⊂ content_signature XXH64.xxh64 (mkFs ∅ ∅) sample_hashes sample_files ["r"; "dir_B"].
Proof.
  apply (folder_relationships_exact XXH64.xxh64 (mkFs ∅ ∅) sample_files sample_hashes).
  - discriminate.
  - by vm_compute.
  - by vm_compute.
Defined.

End FolderClaims.

(** * The cache round trip *)

Module CacheFacts.

Import CachedFinder.

(** ** Paths and their strings *)

Lemma no_slash_cons c n : no_slash (String c n) <-> c <> "/"%char /\ no_slash n.
Proof. unfold no_slash. simpl. apply (Forall_cons (fun c => c <> "/"%char)). Qed.

Lemma split_on_no_slash n : no_slash n -> split_on "/" n = [n].
Proof.
  induction n as [|c n IH]; [done|].
  intros [Hc Hn]%no_slash_cons. simpl.
  rewrite (proj2 (Ascii.eqb_neq c "/") Hc). by rewrite IH.
Qed.

Lemma split_on_append n s :
  no_slash n -> split_on "/" (n +:+ String "/" s) = n :: split_on "/" s.
Proof.
  induction n as [|c n IH]; [done|].
  intros [Hc Hn]%no_slash_cons. simpl.
  rewrite (proj2 (Ascii.eqb_neq c "/") Hc). by rewrite IH.
Qed.

Lemma split_on_concat (names : list string) :
  names <> [] -> Forall no_slash names ->
  split_on "/" (String.concat "/" names) = names.
Proof.
  induction names as [|n names IH]; [done|]. intros _ HF.
  apply Forall_cons in HF as [Hn HF]. destruct names as [|n' names].
  - simpl. by apply split_on_no_slash.
  - change (String.concat "/" (n :: n' :: names))
      with (n +:+ String "/" (String.concat "/" (n' :: names))).
    rewrite split_on_append by done. by rewrite IH.
Qed.

Lemma wf_name_no_slash n : wf_name n -> no_slash n.
Proof. by intros (_ & _ & ?). Qed.

Lemma wf_name_keep n : wf_name n -> keep_component n = true.
Proof.
  intros (H1 & H2 & _). unfold keep_component.
  apply andb_true_iff. split; apply negb_true_iff, String.eqb_neq; done.
Qed.

Lemma filter_keep names : Forall wf_name names -> List.filter keep_component names = names.
Proof.
  induction 1 as [|n names Hn HF IH]; [done|]. simpl.
  by rewrite (wf_name_keep n Hn), IH.
Qed.

Lemma wf_name_first n : wf_name n -> exists c n', n = String c n' /\ c <> "/"%char.
Proof.
  intros (H1 & _ & H3). destruct n as [|c n']; [done|].
  apply no_slash_cons in H3 as [? _]. eauto.
Qed.

(** The names of a relative path, parsed back from their string. *)
Lemma parse_names names :
  Forall wf_name names ->
  List.filter keep_component (split_on "/" (String.concat "/" names)) = names.
Proof.
  intros HF. destruct names as [|n names]; [done|].
  rewrite split_on_concat; [by apply filter_keep|done|].
  eapply Forall_impl; [done|]. apply wf_name_no_slash.
Qed.

Lemma parse_anchor_names names :
  Forall wf_name names -> parse_anchor (String.concat "/" names) = [].
Proof.
  intros HF. destruct names as [|n names]; [done|].
  apply Forall_cons in HF as [Hn _].
  destruct (wf_name_first n Hn) as (c & n' & -> & Hc).
  destruct names; simpl; by rewrite (proj2 (Ascii.eqb_neq c "/") Hc).
Qed.

Lemma parse_anchor_root names :
  Forall wf_name names -> parse_anchor ("/" +:+ String.concat "/" names) = ["/"].
Proof.
  intros HF. destruct names as [|n names]; [done|].
  apply Forall_cons in HF as [Hn _].
  destruct (wf_name_first n Hn) as (c & n' & -> & Hc).
  destruct names; simpl; by rewrite (proj2 (Ascii.eqb_neq c "/") Hc).
Qed.

Lemma parse_anchor_root2 names :
  Forall wf_name names -> parse_anchor ("//" +:+ String.concat "/" names) = ["//"].
Proof.
  intros HF. destruct names as [|n names]; [done|].
  apply Forall_cons in HF as [Hn _].
  destruct (wf_name_first n Hn) as (c & n' & -> & Hc).
  destruct names; simpl; by rewrite (proj2 (Ascii.eqb_neq c "/") Hc).
Qed.

(** [Path(str(p)) == p]. *)
Lemma path_of_str_path_str (p : Path) : wf_path p -> path_of_str (path_str p) = p.
Proof.
  destruct p as [|a rest]; [done|]. intros [Ha HF]. unfold path_of_str, path_str.
  destruct Ha as [->|[->|Ha]].
  - change (is_anchor "/") with true. cbn match.
    rewrite parse_anchor_root by done.
    change ("/" +:+ String.concat "/" rest) with (String "/" (String.concat "/" rest)).
    change (split_on "/" (String "/" ?s)) with (EmptyString :: split_on "/" s).
    simpl List.filter. by rewrite parse_names.
  - change (is_anchor "//") with true. cbn match.
    rewrite parse_anchor_root2 by done.
    change ("//" +:+ String.concat "/" rest)
      with (String "/" (String "/" (String.concat "/" rest))).
    change (split_on "/" (String "/" (String "/" ?s)))
      with (EmptyString :: EmptyString :: split_on "/" s).
    simpl List.filter. by rewrite parse_names.
  - destruct (wf_name_first a Ha) as (c & a' & -> & Hc).
    assert (is_anchor (String c a') = false) as ->.
    { simpl. by apply Ascii.eqb_neq. }
    assert (Forall wf_name (String c a' :: rest)) as HF' by by constructor.
    by rewrite parse_anchor_names, parse_names.
Qed.

(** ** Decoding what [save_cache] wrote *)

Lemma load_paths_saved (l : list Path) :
  Forall wf_path l ->
  load_paths (JArr (List.map (fun f => JStr (path_str f)) l)) = Ok l.
Proof.
  unfold load_paths. cbn [py_iter rbind]. induction 1 as [|p l Hp HF IH]; [done|].
  simpl. rewrite path_of_str_path_str by done. cbn [rbind]. by rewrite IH.
Qed.

Lemma load_groups_saved (groups : list (list Path)) :
  Forall (Forall wf_path) groups ->
  Finder.mapM load_paths
    (List.map (fun group => JArr (List.map (fun f => JStr (path_str f)) group)) groups)
  = Ok groups.
Proof.
  induction 1 as [|g groups Hg HF IH]; [done|].
  cbn [List.map Finder.mapM]. rewrite load_paths_saved by done. cbn [rbind]. by rewrite IH.
Qed.

Lemma load_metadata_saved (meta : list (Path * Z * Q)) :
  Forall (fun e => wf_path e.1.1) meta ->
  Finder.mapM load_metadata_entry
    (List.map (fun e : Path * Z * Q =>
                 let '(f, s, m) := e in JArr [JStr (path_str f); JInt s; JFloat m]) meta)
  = Ok meta.
Proof.
  induction 1 as [|[[f s] m] meta Hp HF IH]; [done|].
  simpl in *. rewrite path_of_str_path_str by done. cbn [rbind]. by rewrite IH.
Qed.

Lemma dict_set_fresh {K V} `{EqDecision K} (k : K) (v : V) (d : Py.dict K V) :
  k ∉ List.map fst d -> Py.dict_set k v d = d ++ [(k, v)].
Proof.
  induction d as [|[k0 v0] d IH]; simpl; [done|]. intros Hk.
  destruct (decide (k0 = k)) as [->|Hne].
  - exfalso. apply Hk. left.
  - rewrite IH; [done|]. intros ?. apply Hk. by right.
Qed.

Lemma load_hashes_map_saved (o : Py.dict string (list Path)) : forall d,
  Forall (fun hf => Forall wf_path hf.2) o ->
  NoDup (List.map fst (d ++ o)) ->
  load_hashes_map
    (List.map (fun hf : string * list Path =>
                 (fst hf, JArr (List.map (fun f => JStr (path_str f)) (snd hf)))) o) d
  = Ok (d ++ o).
Proof.
  induction o as [|[h ps] o IH]; intros d HF Hnd; cbn [List.map load_hashes_map fst snd].
  - by rewrite app_nil_r.
  - apply Forall_cons in HF as [Hps HF]. simpl in Hps.
    rewrite load_paths_saved by done. cbn [rbind].
    rewrite dict_set_fresh.
    + rewrite IH; [by rewrite <- app_assoc|done|by rewrite <- app_assoc].
    + rewrite fmap_app in Hnd. apply NoDup_app in Hnd as (_ & Hd & _).
      intros Hin. apply (Hd h Hin). left.
Qed.

Lemma json_get_saved a b c :
  let doc := JObj [("confirmed_duplicates", a); ("all_files_metadata", b);
                   ("full_hashes_map", c)] in
  json_get "confirmed_duplicates" doc = Ok a /\
  json_get "all_files_metadata" doc = Ok b /\
  json_get "full_hashes_map" doc = Ok c.
Proof. done. Qed.

End CacheFacts.

Module CacheClaims.

Import CachedFinder CacheFacts.

(** C4.  Loading the document that [save_cache] wrote gives back the
    groups, the metadata list and the fingerprint map that were saved,
    for every scan result whose paths are [Path] values and whose
    fingerprint map is a dictionary (no key twice). *)
Theorem cache_round_trip (confirmed_duplicates : list (list Path))
  (all_files_metadata : list (Path * Z * Q))
  (full_hashes_map : Py.dict string (list Path)) :
  Forall (Forall wf_path) confirmed_duplicates ->
  Forall (fun e => wf_path e.1.1) all_files_metadata ->
  Forall (fun hf => Forall wf_path hf.2) full_hashes_map ->
  NoDup (List.map fst full_hashes_map) ->
  load_cache (Document (save_cache confirmed_duplicates all_files_metadata full_hashes_map))
  = Ok (confirmed_duplicates, all_files_metadata, full_hashes_map).
Proof.
  intros Hd Hm Hh Hnd. unfold load_cache, save_cache.
  match goal with |- context [json_get _ (JObj [(_, ?a); (_, ?b); (_, ?c)])] =>
    destruct (json_get_saved a b c) as (-> & -> & ->) end.
  cbn [rbind py_iter]. rewrite load_groups_saved by done. cbn [rbind py_iter].
  rewrite load_metadata_saved by done. cbn [rbind].
  rewrite (load_hashes_map_saved full_hashes_map []) by done. done.
Qed.

Definition sample_groups : list (list Path) :=
  [[["/"; "r"; "a.txt"]; ["/"; "r"; "sub"; "a_copy.txt"]]].

Definition sample_metadata : list (Path * Z * Q) :=
  [(["/"; "r"; "a.txt"], 5, 1700000000 # 1);
   (["/"; "r"; "sub"; "a_copy.txt"], 5, 3400000001 # 2);
   (["/"; "r"; "b.txt"], 5, 1700000002 # 1)].

Definition sample_map : Py.dict string (list Path) :=
  [("26c7827d889f6da3", [["/"; "r"; "a.txt"]; ["/"; "r"; "sub"; "a_copy.txt"]])].

Lemma wf_name_dec_true n :
  negb (String.eqb n "") && negb (String.eqb n ".")
  && forallb (fun c => negb (Ascii.eqb c "/")) (list_ascii_of_string n) = true ->
  wf_name n.
Proof.
  intros [[H1 H2]%andb_true_iff H3]%andb_true_iff. repeat split.
  - by apply String.eqb_neq, negb_true_iff.
  - by apply String.eqb_neq, negb_true_iff.
  - unfold no_slash. apply Forall_forall. intros c Hc.
    rewrite forallb_forall in H3. apply list_elem_of_In, H3 in Hc.
    by apply Ascii.eqb_neq, negb_true_iff.
Qed.

Lemma cache_round_trip_witness :
  load_cache (Document (save_cache sample_groups sample_metadata sample_map))
  = Ok (sample_groups, sample_metadata, sample_map).
Proof.
  apply cache_round_trip.
  - repeat constructor; auto; by apply wf_name_dec_true.
  - repeat constructor; auto; by apply wf_name_dec_true.
  - repeat constructor; auto; by apply wf_name_dec_true.
  - repeat constructor. by intros ?%elem_of_nil.
Defined.

End CacheClaims.

(** ** The entry point of the cleanup script *)

Module EntryPointClaims.

Import Cleaner.

(** [workbook] is neither a parameter nor assigned anywhere in the body
    of [process_report_actions], and the module binds no such name. *)
Lemma workbook_not_local : "workbook" ∉ process_report_actions_locals.
Proof.
  unfold process_report_actions_locals. intros H. apply list_elem_of_In in H. cbn in H.
  repeat (destruct H as [H | H]; [discriminate H |]). exact H.
Qed.

Lemma workbook_unbound : load_global module_globals "workbook" = Raise (NameError "workbook").
Proof. reflexivity. Qed.

(** With a workbook bound to the name, the sheet is resolved and the
    report is handed to the reader of its format. *)
Lemma bound_workbook_reaches_reader (fs : filesystem) (report_path : Path) (names : list string) :
  is_file fs report_path = true ->
  "Files to Process" ∈ names ->
  process_report_actions (Py.dict_set "workbook" (Workbook names) module_globals)
                         fs report_path
  = (UseSheet "Files to Process" :: read_tasks report_path, Ok tt).
Proof.
  intros Hf Hin. unfold process_report_actions. rewrite Hf. cbn [negb].
  change (load_global _ "workbook") with (@Ok pyobject (Workbook names)).
  cbn [rbind get_sheetnames]. by rewrite bool_decide_true.
Qed.

Definition sample_report : Path := ["/"; "data"; "duplicates_report.json"].

Definition sample_tree : filesystem :=
  mkFs {[ sample_report := regular [Byte.x7b; Byte.x7d] 0%Q ]} {[ ["/"; "data"] ]}.

Lemma sample_report_is_json : read_tasks sample_report = [ReadTasksFromJson; ExecuteTasks].
Proof. vm_compute. reflexivity. Qed.

(** C5. The claim calls the read of [workbook] dead code that no report
    routed through a format-specific reader executes.  In the code the
    read comes right after the test that the report file exists and
    before the dispatch on the report format: on every existing report,
    whatever its format, the call ends there with [NameError] and no
    reader has run. *)
Theorem workbook_read_precedes_readers (fs : filesystem) (report_path : Path) :
  process_report_actions module_globals fs report_path =
    (if is_file fs report_path
     then ([], Raise (NameError "workbook"))
     else ([PrintReportNotFound], Ok tt))
  /\ (ReadTasksFromJson ∉ fst (process_report_actions module_globals fs report_path))
  /\ (ReadTasksFromXlsx ∉ fst (process_report_actions module_globals fs report_path)).
Proof.
  unfold process_report_actions. rewrite workbook_unbound. cbn [rbind].
  destruct (is_file fs report_path); cbn [negb fst]; split_and!; try done.
  all: first [rewrite list_elem_of_singleton | apply not_elem_of_nil]; done.
Qed.

(** The same on a JSON report that exists. *)
Example json_report_raises_name_error :
  is_file sample_tree sample_report = true
  /\ process_report_actions module_globals sample_tree sample_report
     = ([], Raise (NameError "workbook")).
Proof. split; vm_compute; reflexivity. Qed.

End EntryPointClaims.

(** ** Reuse of the cache by [duplicate_finder.find_duplicates] *)

Module CacheCheckFacts.

Import CachedFinder.

Section check.

Variable xxh64 : bytes -> Z.
Variable walk_order : list Path -> list Path.
Variable set_order : list Path -> list Path.
Variable pick : nat -> nat -> list nat.

Lemma is_consistent_spec (fs : filesystem) (sample : list (Path * Z * Q)) :
  is_consistent fs sample = true <-> Forall (fun e => entry_changed fs e = false) sample.
Proof.
  induction sample as [| e rest IH]; cbn [is_consistent].
  - split; [constructor | done].
  - rewrite Forall_cons. destruct (entry_changed fs e).
    + split; [done | intros [? _]; done].
    + rewrite IH. tauto.
Qed.

(** An entry counts as changed exactly when [stat] fails on its path,
    or the size differs, or the difference of the modification times,
    as the floating-point subtraction gives it, is more than one
    second. *)
Lemma entry_changed_spec (fs : filesystem) (file_path : Path) (cached_size : Z)
  (cached_mtime : Q) :
  entry_changed fs (file_path, cached_size, cached_mtime) = true <->
  (exists e, stat fs file_path = Raise e)
  \/ (exists st_size st_mtime, stat fs file_path = Ok (st_size, st_mtime)
        /\ (st_size <> cached_size
            \/ ~ (Qabs (Float.float_sub st_mtime cached_mtime) <= 1)%Q)).
Proof.
  unfold entry_changed.
  assert (Hex : forall sz mt, stat fs file_path = Ok (sz, mt) -> exists_ fs file_path = true).
  { unfold stat, exists_, is_file. intros sz mt.
    destruct (files fs !! file_path) as [i |] eqn:Hi.
    - intros _. by rewrite bool_decide_true.
    - destruct (is_dir fs file_path); [by rewrite orb_true_r | done]. }
  destruct (stat fs file_path) as [[st_size st_mtime] | e] eqn:Hs.
  - rewrite (Hex _ _ eq_refl). cbn [negb orb].
    rewrite orb_true_iff, !negb_true_iff, Z.eqb_neq.
    rewrite <- not_true_iff_false, Qle_bool_iff.
    split.
    + intros H. right. by exists st_size, st_mtime.
    + intros [[e He] | (sz & mt & [= <- <-] & H)]; done.
  - split; [intros _; left; by exists e | done].
Qed.

(** The sample drawn from a non-empty cache: as many entries as
    [num_to_check] says, all of them cached entries. *)
Lemma random_sample_ok {A} (population : list A) (k : nat) :
  valid_pick pick -> (k <= length population)%nat ->
  exists sample, random_sample pick population k = Ok sample
    /\ length sample = k /\ sample ⊆ population.
Proof.
  intros Hpick Hk. unfold random_sample.
  destruct (Nat.ltb_spec (length population) k) as [Hlt | _]; [lia |].
  eexists; split; [reflexivity |].
  destruct (Hpick (length population) k Hk) as (Hlen & _ & Hlt).
  split.
  - clear Hk. revert Hlen Hlt. generalize (pick (length population) k) as l. intros l <- Hlt.
    induction Hlt as [| i l Hi _ IH]; [done |].
    cbn [omap list_omap]. destruct (lookup_lt_is_Some_2 population i Hi) as [x ->].
    cbn. f_equal. exact IH.
  - intros x Hx. apply list_elem_of_omap in Hx as (i & _ & Hx).
    by eapply list_elem_of_lookup_2.
Qed.

Lemma num_to_check_le (n : nat) : (0 < n)%nat -> (num_to_check n <= n)%nat.
Proof.
  intros Hn. unfold num_to_check.
  pose proof (Nat.Div0.div_le_upper_bound n 10 n) as H.
  apply Nat.max_lub; [lia |]. apply Nat.Div0.div_le_upper_bound. lia.
Qed.

(** On a cache that loads and holds at least one entry, the sample has
    [num_to_check] entries and decides alone between reuse and rescan. *)
Lemma try_cache_nonempty (fs : filesystem) (cache : cache_file) dups meta hashes :
  valid_pick pick ->
  load_cache cache = Ok (dups, meta, hashes) ->
  meta <> [] ->
  exists sample,
    random_sample pick meta (num_to_check (length meta)) = Ok sample
    /\ length sample = num_to_check (length meta)
    /\ sample ⊆ meta
    /\ try_cache pick fs cache =
         if is_consistent fs sample then UseCache (dups, meta, hashes) else Rescan.
Proof.
  intros Hpick Hload Hne.
  destruct (random_sample_ok meta (num_to_check (length meta)) Hpick)
    as (sample & Hs & Hlen & Hsub).
  { apply num_to_check_le. destruct meta; [done | cbn; lia]. }
  exists sample. split_and!; try done.
  unfold try_cache. by rewrite Hload, Hs.
Qed.

Lemma try_cache_unparsable (fs : filesystem) : try_cache pick fs Unparsable = Rescan.
Proof. reflexivity. Qed.

End check.

End CacheCheckFacts.

Module CacheCheckClaims.

Import CachedFinder CacheCheckFacts.

(** The cache that a scan of a tree without non-empty files writes. *)
Definition empty_cache : cache_file := Document (save_cache [] [] []).

Definition empty_tree : filesystem := mkFs ∅ {[ ["/"; "data"] ]}.

(** C3. The claim has every existing cache either used (the sample
    passes) or deleted and rebuilt (the sample fails or the file does
    not parse).  A cache with no metadata entry is neither: the sample
    of [max(1, 0) = 1] entries cannot be drawn from the empty list,
    [random.sample] raises [ValueError], the handler around the check
    catches only [JSONDecodeError], [KeyError] and [IndexError], and
    the call ends with that exception, the cache file left in place and
    no scan done. *)
Theorem empty_cache_aborts (xxh64 : bytes -> Z) (walk_order set_order : list Path -> list Path)
  (pick : nat -> nat -> list nat) (fs : filesystem) (root_dir : Path) :
  find_duplicates xxh64 walk_order set_order pick fs (Some empty_cache) root_dir false =
    if is_dir fs root_dir
    then (Raise (ValueError "Sample larger than population or is negative"), Some empty_cache)
    else (Raise (ValueError "not a valid directory"), Some empty_cache).
Proof.
  unfold find_duplicates. destruct (is_dir fs root_dir); reflexivity.
Qed.

(** The first scan of a directory without files writes that cache, and
    the next scan of the same directory ends with the exception. *)
Example second_scan_of_empty_tree (xxh64 : bytes -> Z) (pick : nat -> nat -> list nat) :
  let scan := find_duplicates xxh64 id id pick empty_tree in
  scan None ["/"; "data"] false = (Ok ([], [], []), Some empty_cache)
  /\ scan (Some empty_cache) ["/"; "data"] false
     = (Raise (ValueError "Sample larger than population or is negative"), Some empty_cache).
Proof. split; vm_compute; reflexivity. Qed.

End CacheCheckClaims.

(** ** The two scanners *)

Module ScanFacts.

Lemma elem_of_List_filter {A} (f : A -> bool) (l : list A) (x : A) :
  x ∈ List.filter f l <-> x ∈ l /\ f x = true.
Proof. rewrite !list_elem_of_In. apply filter_In. Qed.

Lemma NoDup_List_filter {A} (f : A -> bool) (l : list A) :
  NoDup l -> NoDup (List.filter f l).
Proof. rewrite !NoDup_ListNoDup. apply List.NoDup_filter. Qed.

Section walk.

Variable walk_order : list Path -> list Path.
Hypothesis walk_order_perm : forall l, walk_order l ≡ₚ l.

Lemma elem_of_rglob (fs : filesystem) (root p : Path) :
  p ∈ rglob walk_order fs root <-> under root p = true /\ exists_ fs p = true.
Proof.
  unfold rglob. rewrite walk_order_perm, elem_of_List_filter, elem_of_elements.
  rewrite elem_of_union, elem_of_dom. unfold exists_, is_file, is_dir.
  rewrite orb_true_iff, !bool_decide_eq_true. tauto.
Qed.

Lemma NoDup_rglob (fs : filesystem) (root : Path) : NoDup (rglob walk_order fs root).
Proof.
  unfold rglob. rewrite walk_order_perm. apply NoDup_List_filter, NoDup_elements.
Qed.

End walk.

(** What both scanners record about a path: [stat] succeeds on it and
    reports a positive size. *)
Definition recorded (fs : filesystem) (p : Path) (size : Z) (mtime : Q) : Prop :=
  is_file fs p = true /\ stat fs p = Ok (size, mtime) /\ 0 < size.

Lemma get_file_stats_Some (fs : filesystem) (p : Path) (r : Path * Z * Q) :
  Finder.get_file_stats fs p = Some r <->
  exists size mtime, r = (p, size, mtime) /\ stat fs p = Ok (size, mtime) /\ 0 < size.
Proof.
  unfold Finder.get_file_stats. destruct (stat fs p) as [[size mtime] | e].
  - destruct (Z.ltb_spec 0 size) as [Hpos | Hneg].
    + split.
      * intros [= <-]. by exists size, mtime.
      * intros (s & m & -> & [= <- <-] & _). done.
    + split; [done |]. intros (s & m & _ & [= <- <-] & ?). lia.
  - split; [done |]. intros (s & m & _ & ? & _). done.
Qed.

Lemma scan_file_eq (fs : filesystem) (p : Path) :
  CachedFinder.scan_file fs p = Finder.get_file_stats fs p.
Proof. reflexivity. Qed.

Lemma omap_stats_NoDup (fs : filesystem) (l : list Path) :
  NoDup l -> NoDup (List.map (fun r : Path * Z * Q => r.1.1) (omap (Finder.get_file_stats fs) l)).
Proof.
  induction 1 as [| p l Hp _ IH]; [constructor |].
  cbn [omap list_omap]. destruct (Finder.get_file_stats fs p) as [r |] eqn:Hr; [| exact IH].
  apply get_file_stats_Some in Hr as (size & mtime & -> & _).
  cbn. constructor; [| exact IH].
  intros Hin. apply Hp.
  apply list_elem_of_fmap in Hin as (r & Hr1 & Hr).
  apply list_elem_of_omap in Hr as (q & Hq & Hr).
  apply get_file_stats_Some in Hr as (s & m & -> & _). cbn in Hr1. by subst.
Qed.

End ScanFacts.

Module ScannerClaims.

Import ScanFacts.

Section scanners.

Variable xxh64 : bytes -> Z.
Variable walk_order : list Path -> list Path.
Variable set_order : list Path -> list Path.
Variable pick : nat -> nat -> list nat.
Variable as_completed : forall A : Type, list A -> list A.

Hypothesis walk_order_perm : forall l, walk_order l ≡ₚ l.
Hypothesis as_completed_perm : forall A (l : list A), as_completed A l ≡ₚ l.

Lemma elem_of_all_files (fs : filesystem) (root_dir p : Path) (size : Z) (mtime : Q) :
  (p, size, mtime) ∈ CachedFinder.all_files_for_scan_and_cache walk_order fs root_dir <->
  under root_dir p = true /\ is_symlink fs p = false /\ recorded fs p size mtime.
Proof.
  unfold CachedFinder.all_files_for_scan_and_cache, CachedFinder.raw_files_list, recorded.
  rewrite list_elem_of_omap. split.
  - intros (q & Hq & Hs). rewrite scan_file_eq in Hs.
    apply get_file_stats_Some in Hs as (s & m & [= <- <- <-] & Hs & Hpos).
    apply elem_of_List_filter in Hq as (Hq & Hf).
    apply (elem_of_rglob _ walk_order_perm) in Hq as (Hu & _).
    apply andb_true_iff in Hf as (Hf & Hl). apply negb_true_iff in Hl. done.
  - intros (Hu & Hl & Hf & Hs & Hpos). exists p. split.
    + apply elem_of_List_filter. split.
      * apply (elem_of_rglob _ walk_order_perm). unfold exists_. by rewrite Hf.
      * by rewrite Hf, Hl.
    + rewrite scan_file_eq. apply get_file_stats_Some. by exists size, mtime.
Qed.

Lemma elem_of_phase1 (fs : filesystem) (root_dir p : Path) (size : Z) (mtime : Q) :
  (p, size, mtime) ∈ Finder.phase1 walk_order as_completed fs root_dir <->
  under root_dir p = true /\ recorded fs p size mtime.
Proof.
  unfold Finder.phase1, recorded. rewrite list_elem_of_omap. split.
  - intros (q & Hq & Hs).
    apply get_file_stats_Some in Hs as (s & m & [= <- <- <-] & Hs & Hpos).
    rewrite as_completed_perm in Hq.
    apply elem_of_List_filter in Hq as (Hq & Hf).
    apply (elem_of_rglob _ walk_order_perm) in Hq as (Hu & _). done.
  - intros (Hu & Hf & Hs & Hpos). exists p. split.
    + rewrite as_completed_perm. apply elem_of_List_filter. split; [| done].
      apply (elem_of_rglob _ walk_order_perm). unfold exists_. by rewrite Hf.
    + apply get_file_stats_Some. by exists size, mtime.
Qed.

End scanners.

End ScannerClaims.

(** ** Byte comparison and the verification phase of
    [duplicate_file_finder.py] *)

Module VerifyFacts.

Import Finder.

(** The buffered comparison loop decides equality of the two contents
    once it has one iteration more than the first file has bytes. *)
Lemma compare_streams_spec (bs fuel : nat) (d1 d2 : bytes) :
  (0 < bs)%nat -> (length d1 < fuel)%nat ->
  compare_streams bs fuel d1 d2 = bool_decide (d1 = d2).
Proof.
  intros Hbs. revert d1 d2. induction fuel as [| fuel IH]; intros d1 d2 Hlen; [lia |].
  cbn [compare_streams]. case_bool_decide as Htake; cbn [negb].
  - destruct (take bs d1) as [| b b1] eqn:Hb1.
    + assert (d1 = []) as ->.
      { destruct d1; [done |]. destruct bs; [lia | cbn in Hb1; done]. }
      assert (d2 = []) as ->.
      { destruct d2; [done |]. destruct bs; [lia | cbn in Htake; done]. }
      by rewrite bool_decide_true.
    + rewrite IH.
      * apply bool_decide_ext. split.
        -- intros Hd.
           by rewrite <- (take_drop bs d1), <- (take_drop bs d2), Hb1, <- Htake, Hd.
        -- by intros ->.
      * rewrite length_drop. destruct d1; [by rewrite take_nil in Hb1 |].
        cbn [length] in *. lia.
  - symmetry. apply bool_decide_eq_false. by intros ->.
Qed.

Lemma files_are_identical_iff (fs : filesystem) (file1 file2 : Path) :
  files_are_identical fs file1 file2 = true <->
  exists data, read_bytes fs file1 = Ok data /\ read_bytes fs file2 = Ok data.
Proof.
  unfold files_are_identical.
  destruct (read_bytes fs file1) as [d1 | e1], (read_bytes fs file2) as [d2 | e2].
  - rewrite compare_streams_spec by (unfold buffer_size; lia).
    rewrite bool_decide_eq_true. split.
    + intros ->. by exists d2.
    + intros (d & [= ->] & [= ->]). done.
  - split; [done | intros (d & _ & ?); done].
  - split; [done | intros (d & ? & _); done].
  - split; [done | intros (d & ? & _); done].
Qed.

(** [files_are_identical] answers [True] exactly when both files can be
    read and hold the same bytes. *)
Theorem files_are_identical_spec (fs : filesystem) (file1 file2 : Path) :
  Finder.files_are_identical fs file1 file2 = true <->
  exists data, read_bytes fs file1 = Ok data /\ read_bytes fs file2 = Ok data.
Proof. apply files_are_identical_iff. Qed.

Lemma files_are_identical_sym (fs : filesystem) (file1 file2 : Path) :
  files_are_identical fs file1 file2 = files_are_identical fs file2 file1.
Proof.
  apply eq_true_iff_eq. rewrite !files_are_identical_iff.
  split; intros (d & ? & ?); by exists d.
Qed.

(** All the members of a confirmed set can be read and hold the same
    bytes. *)
Definition same_content (fs : filesystem) (s : gset Path) : Prop :=
  exists data, forall p, p ∈ s -> read_bytes fs p = Ok data.

Lemma add_to_found_set_same_content (fs : filesystem) (file1 file2 : Path)
  (confirmed confirmed' : list (gset Path)) :
  files_are_identical fs file1 file2 = true ->
  Forall (same_content fs) confirmed ->
  add_to_found_set file1 file2 confirmed = Some confirmed' ->
  Forall (same_content fs) confirmed'.
Proof.
  intros (d & H1 & H2)%files_are_identical_iff. revert confirmed'.
  induction confirmed as [| s rest IH]; intros confirmed' Hall; [done |].
  apply Forall_cons in Hall as [(ds & Hs) Hrest]. cbn [add_to_found_set].
  destruct (bool_decide (file1 ∈ s) || bool_decide (file2 ∈ s)) eqn:Hin.
  - intros [= <-]. apply Forall_cons. split; [| done].
    assert (ds = d) as ->.
    { apply orb_true_iff in Hin as [Hin | Hin]; apply bool_decide_eq_true in Hin;
        apply Hs in Hin; congruence. }
    exists d. intros p. rewrite !elem_of_union, !elem_of_singleton.
    intros [[-> | ->] | Hp]; auto.
  - destruct (add_to_found_set file1 file2 rest) as [rest' |]; [| done].
    intros [= <-]. apply Forall_cons. split; [by exists ds | by apply IH].
Qed.

Lemma verify_pair_same_content (fs : filesystem) (st : list (gset Path) * gset Path)
  (pr : Path * Path) :
  Forall (same_content fs) st.1 -> Forall (same_content fs) (verify_pair fs st pr).1.
Proof.
  destruct st as [confirmed checked], pr as [file1 file2]. cbn [fst verify_pair].
  intros Hall. destruct (_ && _); [done |].
  destruct (files_are_identical fs file1 file2) eqn:Hid; [| done]. cbn [fst].
  destruct (add_to_found_set file1 file2 confirmed) as [c |] eqn:Hadd.
  - by eapply add_to_found_set_same_content.
  - apply Forall_app. split; [done |]. apply Forall_singleton.
    apply files_are_identical_iff in Hid as (d & H1 & H2). exists d.
    intros p. rewrite elem_of_union, !elem_of_singleton. by intros [-> | ->].
Qed.

Lemma verify_group_same_content (fs : filesystem) (confirmed : list (gset Path))
  (group : list Path) :
  Forall (same_content fs) confirmed -> Forall (same_content fs) (verify_group fs confirmed group).
Proof.
  unfold verify_group. generalize (Py.combinations2 group) as pairs.
  generalize (∅ : gset Path) as checked. intros checked pairs.
  revert confirmed checked. induction pairs as [| pr pairs IH]; intros confirmed checked Hall.
  - done.
  - cbn [foldl].
    pose proof (verify_pair_same_content fs (confirmed, checked) pr Hall) as Hstep.
    destruct (verify_pair fs (confirmed, checked) pr) as [confirmed' checked'].
    by apply IH.
Qed.

Lemma phase3_same_content (fs : filesystem) (likely_dupes : list (list Path)) :
  Forall (same_content fs) (phase3 fs likely_dupes).
Proof.
  unfold phase3. assert (Hnil : Forall (same_content fs) []) by constructor.
  revert Hnil. generalize (@nil (gset Path)) as confirmed.
  induction likely_dupes as [| group rest IH]; intros confirmed Hall; [done |].
  cbn [foldl]. by apply IH, verify_group_same_content.
Qed.

(** Any two files that [find_duplicates] returns in one group can be
    read and have the same content, whatever the order in which the
    tree is walked and the futures complete. *)
Theorem confirmed_group_identical (walk_order : list Path -> list Path)
  (as_completed : forall A : Type, list A -> list A) (fs : filesystem) (root_dir : Path)
  (group : list Path) (p q : Path) :
  group ∈ (find_duplicates walk_order as_completed fs root_dir).1 ->
  p ∈ group -> q ∈ group ->
  exists data, read_bytes fs p = Ok data /\ read_bytes fs q = Ok data.
Proof.
  unfold find_duplicates. cbn [fst]. intros Hg Hp Hq.
  apply list_elem_of_fmap in Hg as (s & -> & Hs).
  pose proof (phase3_same_content fs
    (phase2 as_completed fs (Py.more_than_one (files_by_size (phase1 walk_order as_completed fs root_dir)))))
    as Hall.
  rewrite Forall_forall in Hall. destruct (Hall s Hs) as (d & Hd).
  change path_ltb with (OrderFacts.ltb path_compare) in Hp, Hq.
  rewrite OrderFacts.sort_perm in Hp, Hq. apply elem_of_elements in Hp, Hq.
  exists d. split; by apply Hd.
Qed.

Definition album_root : Path := ["/"; "album"].

Definition jpeg_bytes : bytes := [Byte.xff; Byte.xd8; Byte.xff; Byte.xe0].

Definition other_bytes : bytes := [Byte.xff; Byte.xd8; Byte.xff; Byte.xe1].

Definition album_tree : filesystem :=
  mkFs (list_to_map
          [ (album_root ++ ["a.jpg"], regular jpeg_bytes 0%Q);
            (album_root ++ ["b.jpg"], regular other_bytes 0%Q);
            (album_root ++ ["old"; "a (copy).jpg"], regular jpeg_bytes 1%Q) ])
       {[ ["/"]; album_root; album_root ++ ["old"] ]}.

Lemma confirmed_group_identical_witness :
  exists data,
    read_bytes album_tree (album_root ++ ["a.jpg"]) = Ok data
    /\ read_bytes album_tree (album_root ++ ["old"; "a (copy).jpg"]) = Ok data.
Proof.
  apply (confirmed_group_identical id (fun _ l => l) album_tree album_root
           [album_root ++ ["a.jpg"]; album_root ++ ["old"; "a (copy).jpg"]]).
  - apply list_elem_of_In. vm_compute. tauto.
  - apply list_elem_of_In. vm_compute. tauto.
  - apply list_elem_of_In. vm_compute. tauto.
Defined.

End VerifyFacts.

(** ** Copying one file: [_perform_single_copy] *)

Module CopyFacts.

Import Cleaner.

(** *** Strings and decimal numerals *)





(** *** The names tried by the loop *)

(** The destination tried when [counter] has the value [j]. *)
Definition candidate (dest_base_path : Path) (j : nat) : Path :=
  match j with
  | O => dest_base_path
  | S _ =>
      removelast dest_base_path
        ++ [(stem dest_base_path +:+ "_" +:+ string_of_nat j) +:+ suffix dest_base_path]
  end.








(** *** The file system *)


Lemma exists_false_lookup (fs : filesystem) (p : Path) :
  exists_ fs p = false -> files fs !! p = None /\ p ∉ dirs fs.
Proof.
  unfold exists_, is_file, is_dir. rewrite orb_false_iff, !bool_decide_eq_false.
  intros [Hf Hd]. split; [| done]. by apply eq_None_not_Some.
Qed.


(** *** The loop *)


Section loop.

Variable fs : filesystem.
Variables source_path dest_base_path : Path.
Hypothesis named : name dest_base_path <> "".





End loop.

End CopyFacts.

Module CopyProperties.

Import Cleaner CopyFacts.

Lemma conflict_loop_free (fuel : nat) (fs : filesystem) (source_path dest_base_path : Path)
  (dest_path : Path) (counter : nat) (found : Path) :
  conflict_loop fuel fs source_path dest_base_path dest_path counter = Some (Free found) ->
  exists_ fs found = false.
Proof.
  revert dest_path counter. induction fuel as [| fuel IH]; intros dest_path counter; [done |].
  cbn [conflict_loop]. destruct (exists_ fs dest_path) eqn:Hex.
  - destruct (Finder.files_are_identical fs source_path dest_path); [done |].
    destruct (numbered dest_base_path (S counter)) as [d |]; [apply IH | done].
  - by intros [= <-].
Qed.

(** The source of a copy task that passes the two tests at the start of
    the function. *)
Definition copyable (fs : filesystem) (source_path : Path) (i : inode) : Prop :=
  files fs !! source_path = Some i
  /\ i_stat_fails i = false /\ i_read_fails i = false /\ i_data i <> [].

Lemma copyable_stat (fs : filesystem) (source_path : Path) (i : inode) :
  copyable fs source_path i ->
  exists_ fs source_path = true
  /\ exists size, stat fs source_path = Ok (size, i_mtime i) /\ (size =? 0) = false.
Proof.
  intros (Hi & Hs & _ & Hd). split.
  - unfold exists_, is_file. rewrite Hi. by rewrite bool_decide_true.
  - unfold stat. rewrite Hi, Hs. eexists; split; [done |].
    apply Z.eqb_neq. destruct (i_data i); [done | cbn [length]; lia].
Qed.



Lemma report_failure_outside (source_path root_dir : Path) (dest_path : option Path)
  (reason : failure_reason) :
  ~ root_dir `prefix_of` source_path ->
  report_failure source_path dest_path root_dir reason
  = Raise (ValueError "path is not in the subpath of root").
Proof. intros Hroot. unfold report_failure, relative_to. by rewrite bool_decide_false. Qed.

Lemma return_failure_outside (source_path root_dir : Path) (reason : failure_reason) :
  ~ root_dir `prefix_of` source_path ->
  return_failure source_path root_dir reason
  = Raise (ValueError "path is not in the subpath of root").
Proof.
  intros Hroot. unfold return_failure, relative_to at 1. rewrite bool_decide_false by done.
  by apply report_failure_outside.
Qed.

(** A failure record names the source relative to [root_dir], so none
    is ever returned for a source outside [root_dir]: there the call
    ends either with a success or with the [ValueError] of
    [relative_to], raised again in the handler, which leaves the
    function.  This also happens when nothing has failed: for a source
    outside the root whose bytes already stand at the destination, the
    message of the identical case cannot be formatted. *)
Theorem copy_outside_root (fs : filesystem) (source_path dest_base_path root_dir : Path)
  (skip_existing : bool) :
  ~ root_dir `prefix_of` source_path ->
  (forall fuel r fs',
     _perform_single_copy fuel fs source_path dest_base_path root_dir skip_existing
     = Some (r, fs') ->
     r = Ok None \/ r = Raise (ValueError "path is not in the subpath of root"))
  /\ (forall i fuel,
        copyable fs source_path i ->
        exists_ fs dest_base_path = true ->
        Finder.files_are_identical fs source_path dest_base_path = true ->
        _perform_single_copy (S fuel) fs source_path dest_base_path root_dir false
        = Some (Raise (ValueError "path is not in the subpath of root"), fs)).
Proof.
  intros Hroot. split.
  - intros fuel r fs'. unfold _perform_single_copy.
    destruct (negb (exists_ fs source_path)).
    { rewrite return_failure_outside by done. intros [= <- _]. by right. }
    destruct (stat fs source_path) as [[st_size st_mtime] | e].
    2: { rewrite report_failure_outside by done. intros [= <- _]. by right. }
    destruct (st_size =? 0).
    { rewrite return_failure_outside by done. intros [= <- _]. by right. }
    destruct (skip_existing && exists_ fs dest_base_path).
    { intros [= <- _]. by left. }
    destruct (conflict_loop fuel fs source_path dest_base_path dest_base_path 0)
      as [[dest_path | dest_path | e dest_path] |]; [| | | done].
    + unfold relative_to at 1. rewrite bool_decide_false by done.
      rewrite report_failure_outside by done. intros [= <- _]. by right.
    + destruct (mkdir_parents fs (parent dest_path)) as [fs1 | e].
      2: { rewrite report_failure_outside by done. intros [= <- _]. by right. }
      destruct (copy2 fs1 source_path dest_path) as [fs2 | e].
      * intros [= <- _]. by left.
      * rewrite report_failure_outside by done. intros [= <- _]. by right.
    + rewrite report_failure_outside by done. intros [= <- _]. by right.
  - intros i fuel Hsrc Hdest Hid.
    destruct (copyable_stat _ _ _ Hsrc) as (Hex & size & Hstat & Hsize).
    unfold _perform_single_copy. rewrite Hex, Hstat, Hsize. cbn [negb andb conflict_loop].
    rewrite Hdest, Hid. unfold relative_to at 1. rewrite bool_decide_false by done.
    by rewrite report_failure_outside.
Qed.

(** Whatever the arguments and however the call ends, no file that
    exists is changed or removed and no directory disappears: the only
    change to the files is at most one new file, at a path where
    nothing existed, with the bytes and the modification time of the
    source. *)
Theorem copy_keeps_existing (fuel : nat) (fs fs' : filesystem)
  (source_path dest_base_path root_dir : Path) (skip_existing : bool)
  (r : result (option failed_action)) :
  _perform_single_copy fuel fs source_path dest_base_path root_dir skip_existing
  = Some (r, fs') ->
  files fs ⊆ files fs'
  /\ dirs fs ⊆ dirs fs'
  /\ (files fs' = files fs
      \/ exists dest_path i,
           exists_ fs dest_path = false
           /\ files fs !! source_path = Some i
           /\ files fs' = <[dest_path := regular (i_data i) (i_mtime i)]> (files fs)).
Proof.
  unfold _perform_single_copy.
  assert (Hsame : forall r0, Some (r0, fs) = Some (r, fs') ->
                  files fs ⊆ files fs' /\ dirs fs ⊆ dirs fs'
                  /\ (files fs' = files fs
                      \/ exists dest_path i,
                           exists_ fs dest_path = false
                           /\ files fs !! source_path = Some i
                           /\ files fs' = <[dest_path := regular (i_data i) (i_mtime i)]>
                                            (files fs))).
  { intros r0 [= _ <-]. split_and!; [done | done | by left]. }
  destruct (negb (exists_ fs source_path)); [apply Hsame |].
  destruct (stat fs source_path) as [[st_size st_mtime] |]; [| apply Hsame].
  destruct (st_size =? 0); [apply Hsame |].
  destruct (skip_existing && exists_ fs dest_base_path); [apply Hsame |].
  destruct (conflict_loop fuel fs source_path dest_base_path dest_base_path 0)
    as [[dest_path | dest_path | e dest_path] |] eqn:Hloop;
    [destruct (relative_to source_path root_dir); apply Hsame | | apply Hsame | done].
  apply conflict_loop_free in Hloop.
  unfold mkdir_parents. destruct (existsb _ _); [apply Hsame |].
  unfold copy2. cbn [files dirs].
  destruct (files fs !! source_path) as [i |] eqn:Hi.
  - destruct (i_read_fails i).
    { intros [= _ <-]. cbn [files dirs]. split_and!; [done | set_solver | by left]. }
    destruct (is_dir _ dest_path).
    { intros [= _ <-]. cbn [files dirs]. split_and!; [done | set_solver | by left]. }
    intros [= _ <-]. cbn [files dirs]. split_and!.
    + apply insert_subseteq. by apply exists_false_lookup in Hloop as [? _].
    + set_solver.
    + right. by exists dest_path, i.
  - intros [= _ <-]. cbn [files dirs]. split_and!; [done | set_solver | by left].
Qed.


(** *** A run with a conflict *)

Definition backup : Path := ["/"; "backup"].

Definition report_bytes : bytes := [Byte.x31; Byte.x32; Byte.x33].

Definition draft_bytes : bytes := [Byte.x34; Byte.x35].

Definition backup_tree : filesystem :=
  mkFs (list_to_map
          [ (["/"; "data"; "report.txt"], regular report_bytes 5%Q);
            (["/"; "data"; "empty.txt"], regular [] 5%Q);
            (backup ++ ["report.txt"], regular draft_bytes 1%Q);
            (backup ++ ["report_1.txt"], regular draft_bytes 2%Q) ])
       {[ ["/"]; ["/"; "data"]; backup ]}.

Lemma backup_candidates :
  candidate (backup ++ ["report.txt"]) 1 = backup ++ ["report_1.txt"]
  /\ candidate (backup ++ ["report.txt"]) 2 = backup ++ ["report_2.txt"].
Proof. split; vm_compute; reflexivity. Qed.


Lemma copy_keeps_existing_witness :
  files backup_tree
    ⊆ files (mkFs (<[backup ++ ["report_2.txt"] := regular report_bytes 5%Q]>
                     (files backup_tree))
                  (list_to_set (ancestors backup ++ [backup]) ∪ dirs backup_tree)).
Proof.
  apply (copy_keeps_existing 3 backup_tree _ ["/"; "data"; "report.txt"]
           (backup ++ ["report.txt"]) ["/"; "data"] false (Ok None)).
  vm_compute. reflexivity.
Defined.

(** A copy of a report that is kept outside the tree [/data]. *)
Definition archive_tree : filesystem :=
  mkFs (list_to_map
          [ (["/"; "archive"; "report.txt"], regular report_bytes 5%Q);
            (backup ++ ["report.txt"], regular report_bytes 1%Q) ])
       {[ ["/"]; ["/"; "archive"]; backup ]}.

Lemma copy_outside_root_witness :
  _perform_single_copy 1 archive_tree ["/"; "archive"; "report.txt"]
                       (backup ++ ["report.txt"]) ["/"; "data"] false
  = Some (Raise (ValueError "path is not in the subpath of root"), archive_tree).
Proof.
  apply (copy_outside_root archive_tree ["/"; "archive"; "report.txt"]
           (backup ++ ["report.txt"]) ["/"; "data"] false)
    with (i := regular report_bytes 5%Q).
  - intros [k Hk]. discriminate.
  - split_and!; [vm_compute; reflexivity | reflexivity | reflexivity | done].
  - vm_compute. reflexivity.
  - vm_compute. reflexivity.
Defined.


End CopyProperties.

Module CopyClaims.

Import Cleaner CopyFacts CopyProperties.




End CopyClaims.

(** ** Grouping loops over [defaultdict(list)] *)

Module GroupFacts.

Section dict.

Context {K V : Type} `{EqDecision K}.

Lemma dict_get_Some_elem (d : Py.dict K V) (k : K) (v : V) :
  Py.dict_get k d = Some v -> (k, v) ∈ d.
Proof.
  induction d as [| [k' v'] d IH]; cbn [Py.dict_get]; [done |].
  case_decide as Hk.
  - intros [= ->]. subst. by left.
  - intros Hd. right. by apply IH.
Qed.

Lemma dict_elem_get (d : Py.dict K V) (k : K) (v : V) :
  NoDup (d.*1) -> (k, v) ∈ d -> Py.dict_get k d = Some v.
Proof.
  induction d as [| [k' v'] d IH]; cbn [Py.dict_get fmap list_fmap fst].
  - by intros _ ?%elem_of_nil.
  - intros [Hk' Hd]%NoDup_cons [[= -> ->] | Hin]%elem_of_cons.
    + by rewrite decide_True.
    + rewrite decide_False; [by apply IH |].
      intros ->. apply Hk'. apply list_elem_of_fmap. by exists (k, v).
Qed.

End dict.

Section append.

Context {K V : Type} `{EqDecision K}.

Lemma dict_append_get (k k' : K) (x : V) (d : Py.dict K (list V)) :
  Py.dict_get k' (Py.dict_append k x d)
  = if decide (k = k') then Some (default [] (Py.dict_get k d) ++ [x])
    else Py.dict_get k' d.
Proof.
  induction d as [| [k0 xs] d IH]; cbn [Py.dict_append Py.dict_get].
  - cbn. repeat case_decide; congruence.
  - destruct (decide (k0 = k)) as [-> | Hk0]; simpl;
      rewrite ?IH; repeat case_decide; simpl; congruence.
Qed.

Lemma dict_append_keys (k : K) (x : V) (d : Py.dict K (list V)) :
  (Py.dict_append k x d).*1 = if bool_decide (k ∈ d.*1) then d.*1 else d.*1 ++ [k].
Proof.
  induction d as [| [k0 xs] d IH]; cbn [Py.dict_append fmap list_fmap fst].
  - rewrite bool_decide_false; [done | apply not_elem_of_nil].
  - destruct (decide (k0 = k)) as [-> | Hk0]; cbn [fmap list_fmap fst].
    + rewrite bool_decide_true; [done | by left].
    + fold (fmap (M:=list) (@fst K (list V))). rewrite IH.
      case_bool_decide as Hin.
      * rewrite bool_decide_true; [done | by right].
      * rewrite bool_decide_false; [done |].
        intros [-> | ?]%elem_of_cons; done.
Qed.

Lemma dict_append_NoDup (k : K) (x : V) (d : Py.dict K (list V)) :
  NoDup (d.*1) -> NoDup ((Py.dict_append k x d).*1).
Proof.
  intros Hd. rewrite dict_append_keys. case_bool_decide as Hin; [done |].
  apply NoDup_app. split_and!; [done | | apply NoDup_singleton].
  intros k' Hk' ->%list_elem_of_singleton. done.
Qed.

Lemma dict_append_concat (k : K) (x : V) (d : Py.dict K (list V)) :
  concat (d.*2) ++ [x] ≡ₚ concat ((Py.dict_append k x d).*2).
Proof.
  induction d as [| [k0 xs] d IH]; cbn [Py.dict_append fmap list_fmap snd concat].
  - done.
  - destruct (decide (k0 = k)) as [-> | Hk0]; cbn [fmap list_fmap snd concat].
    + rewrite <- !(assoc_L (++)). apply Permutation_app_head, Permutation_app_comm.
    + fold (fmap (M:=list) (@snd K (list V))). rewrite <- IH. by rewrite (assoc_L (++)).
Qed.

Context {A : Type} (key : A -> K) (val : A -> V).

(** The values of the elements of [l] that have the key [k], in the
    order of [l]. *)
Definition keyed (k : K) (l : list A) : list V :=
  val <$> List.filter (fun x => bool_decide (key x = k)) l.

Lemma keyed_app (k : K) (l1 l2 : list A) : keyed k (l1 ++ l2) = keyed k l1 ++ keyed k l2.
Proof. unfold keyed. by rewrite List.filter_app, fmap_app. Qed.

Lemma elem_of_keyed (k : K) (l : list A) (v : V) :
  v ∈ keyed k l <-> exists x, x ∈ l /\ key x = k /\ val x = v.
Proof.
  unfold keyed. rewrite list_elem_of_fmap. split.
  - intros (x & -> & Hx). apply list_elem_of_In, filter_In in Hx as [Hx Hk].
    apply bool_decide_eq_true in Hk. exists x. by rewrite list_elem_of_In.
  - intros (x & Hx & Hk & <-). exists x. split; [done |].
    apply list_elem_of_In, filter_In. rewrite <- list_elem_of_In.
    by rewrite bool_decide_true.
Qed.

Local Abbreviation step := (fun (d : Py.dict K (list V)) (x : A) => Py.dict_append (key x) (val x) d).

Lemma group_fold_get (l : list A) (d : Py.dict K (list V)) (k : K) :
  Py.dict_get k (foldl step d l)
  = match Py.dict_get k d, keyed k l with
    | None, [] => None
    | o, vs => Some (default [] o ++ vs)
    end.
Proof.
  revert d. induction l as [| x l IH]; intros d; cbn [foldl].
  - unfold keyed. cbn. destruct (Py.dict_get k d); [by rewrite app_nil_r | done].
  - rewrite IH. rewrite dict_append_get.
    unfold keyed. cbn [List.filter]. case_decide as Hk.
    + subst k. rewrite bool_decide_true by done. cbn [fmap list_fmap].
      fold (keyed (key x) l).
      destruct (Py.dict_get (key x) d) as [vs0 |]; cbn [default].
      * unfold id. by rewrite <- (assoc_L (++)).
      * cbn. by destruct (keyed (key x) l).
    + rewrite bool_decide_false by done. done.
Qed.

Lemma group_fold_NoDup (l : list A) (d : Py.dict K (list V)) :
  NoDup (d.*1) -> NoDup ((foldl step d l).*1).
Proof.
  revert d. induction l as [| x l IH]; intros d Hd; [done |].
  cbn [foldl]. apply IH, dict_append_NoDup, Hd.
Qed.

Lemma group_fold_concat (l : list A) (d : Py.dict K (list V)) :
  concat ((foldl step d l).*2) ≡ₚ concat (d.*2) ++ (val <$> l).
Proof.
  revert d. induction l as [| x l IH]; intros d; cbn [foldl fmap list_fmap].
  - by rewrite app_nil_r.
  - rewrite IH. rewrite <- dict_append_concat.
    by rewrite <- (assoc_L (++)).
Qed.

Lemma group_by_NoDup_keys (l : list A) : NoDup ((Py.group_by key val l).*1).
Proof. apply group_fold_NoDup. constructor. Qed.

(** The groups partition the values. *)
Lemma group_by_concat (l : list A) : concat ((Py.group_by key val l).*2) ≡ₚ val <$> l.
Proof. unfold Py.group_by. by rewrite group_fold_concat. Qed.

(** Each group holds the values of one key, in their order, and is
    not empty. *)
Lemma elem_of_group_by (l : list A) (k : K) (vs : list V) :
  (k, vs) ∈ Py.group_by key val l <-> vs = keyed k l /\ vs <> [].
Proof.
  split.
  - intros Hin. apply (dict_elem_get _ _ _ (group_by_NoDup_keys l)) in Hin.
    unfold Py.group_by in Hin. rewrite group_fold_get in Hin. cbn [Py.dict_get] in Hin.
    destruct (keyed k l) as [| v vs'] eqn:Hk; [done |]. by injection Hin as <-.
  - intros [-> Hne]. apply dict_get_Some_elem.
    unfold Py.group_by. rewrite group_fold_get. cbn [Py.dict_get].
    by destruct (keyed k l).
Qed.

Lemma group_by_group_of (l : list A) (x : A) :
  x ∈ l -> (key x, keyed (key x) l) ∈ Py.group_by key val l.
Proof.
  intros Hx. apply elem_of_group_by. split; [done |].
  intros Hnil. assert (Hv : val x ∈ keyed (key x) l) by (apply elem_of_keyed; by exists x).
  rewrite Hnil in Hv. by apply elem_of_nil in Hv.
Qed.

Lemma keyed_NoDup (k : K) (l : list A) : NoDup (val <$> l) -> NoDup (keyed k l).
Proof.
  unfold keyed. induction l as [| x l IH]; cbn [List.filter fmap list_fmap]; [done |].
  intros [Hx Hl]%NoDup_cons. case_bool_decide; [| by apply IH].
  cbn [fmap list_fmap]. apply NoDup_cons. split; [| by apply IH].
  intros (y & Hy & Hin)%list_elem_of_fmap. apply Hx.
  apply list_elem_of_fmap. exists y. split; [done |].
  by apply list_elem_of_In, filter_In in Hin as [?%list_elem_of_In _].
Qed.

End append.

(** [more_than_one] keeps whole groups. *)
Lemma elem_of_more_than_one {K V} (d : Py.dict K (list V)) (k : K) (vs : list V) :
  (k, vs) ∈ Py.more_than_one d <-> (k, vs) ∈ d /\ (1 < length vs)%nat.
Proof.
  unfold Py.more_than_one. rewrite !list_elem_of_In, filter_In. cbn [snd].
  by rewrite Nat.ltb_lt.
Qed.

Lemma submseteq_NoDup {A} (l k : list A) : l ⊆+ k -> NoDup k -> NoDup l.
Proof.
  intros (k' & Hk)%submseteq_Permutation. rewrite Hk. by intros (? & _)%NoDup_app.
Qed.

Lemma filter_submseteq {A} (f : A -> bool) (l : list A) : List.filter f l ⊆+ l.
Proof.
  induction l as [| x l IH]; cbn [List.filter]; [done |].
  destruct (f x); [by apply submseteq_skip | by apply submseteq_cons].
Qed.

Lemma concat_submseteq {A} (l1 l2 : list (list A)) : l1 ⊆+ l2 -> concat l1 ⊆+ concat l2.
Proof.
  induction 1 as [| x l1 l2 _ IH | x y l | x l1 l2 _ IH | l1 l2 l3 _ IH1 _ IH2];
    cbn [concat].
  - done.
  - by apply submseteq_app.
  - rewrite !(assoc_L (++)). apply submseteq_app; [| done].
    apply Permutation_submseteq, Permutation_app_comm.
  - etrans; [exact IH |]. apply submseteq_inserts_l. done.
  - by etrans.
Qed.

Lemma concat_fmap_submseteq {A B} (f g : A -> list B) (l : list A) :
  (forall x, x ∈ l -> f x ⊆+ g x) -> concat (f <$> l) ⊆+ concat (g <$> l).
Proof.
  induction l as [| x l IH]; intros Hfg; cbn [fmap list_fmap concat]; [done |].
  apply submseteq_app.
  - apply Hfg. by left.
  - apply IH. intros y Hy. apply Hfg. by right.
Qed.

Lemma more_than_one_submseteq {K V} (d : Py.dict K (list V)) :
  concat ((Py.more_than_one d).*2) ⊆+ concat (d.*2).
Proof. apply concat_submseteq, fmap_submseteq, filter_submseteq. Qed.

End GroupFacts.

(** ** Completeness of the verification phase *)

Module Phase3Facts.

Import Finder VerifyFacts.

Section verify.

Variable fs : filesystem.

(** Two files the byte comparison accepts. *)
Definition ident (x y : Path) : Prop := files_are_identical fs x y = true.

Lemma ident_sym x y : ident x y -> ident y x.
Proof. unfold ident. by rewrite files_are_identical_sym. Qed.

Lemma ident_trans x y z : ident x y -> ident y z -> ident x z.
Proof.
  unfold ident. rewrite !files_are_identical_iff.
  intros (d & Hx & Hy) (d' & Hy' & Hz). exists d. split; [done | congruence].
Qed.

Lemma ident_dec x y : ident x y \/ ~ ident x y.
Proof. unfold ident. destruct (files_are_identical fs x y); [by left | by right]. Qed.

(** *** One pair *)

Lemma add_to_found_set_none (f1 f2 : Path) (conf : list (gset Path)) :
  (forall s, s ∈ conf -> (f1 ∉ s) /\ (f2 ∉ s)) -> add_to_found_set f1 f2 conf = None.
Proof.
  induction conf as [| s conf IH]; intros Hno; cbn [add_to_found_set]; [done |].
  destruct (Hno s) as [H1 H2]; [by left |].
  rewrite !bool_decide_false by done. cbn [orb].
  rewrite IH; [done |]. intros s' Hs'. apply Hno. by right.
Qed.

Lemma add_to_found_set_last (f1 f2 : Path) (base : list (gset Path)) (S : gset Path) :
  (forall s, s ∈ base -> (f1 ∉ s) /\ (f2 ∉ s)) -> f1 ∈ S ->
  add_to_found_set f1 f2 (base ++ [S]) = Some (base ++ [ {[ f1; f2 ]} ∪ S ]).
Proof.
  intros Hno HS. induction base as [| s base IH]; cbn [add_to_found_set app].
  - by rewrite bool_decide_true.
  - destruct (Hno s) as [H1 H2]; [by left |].
    rewrite !bool_decide_false by done. cbn [orb].
    rewrite IH; [done |]. intros s' Hs'. apply Hno. by right.
Qed.

Lemma add_to_found_set_grows (f1 f2 : Path) (conf conf' : list (gset Path)) :
  add_to_found_set f1 f2 conf = Some conf' ->
  (forall s, s ∈ conf -> exists s', s' ∈ conf' /\ s ⊆ s')
  /\ (forall s' z, s' ∈ conf' -> z ∈ s' -> z = f1 \/ z = f2 \/ exists s, s ∈ conf /\ z ∈ s).
Proof.
  revert conf'. induction conf as [| s0 conf IH]; intros conf'; cbn [add_to_found_set];
    [done |].
  destruct (_ || _).
  - intros [= <-]. split.
    + intros s [-> | Hs]%elem_of_cons.
      * exists ({[f1; f2]} ∪ s0). split; [by left | set_solver].
      * exists s. split; [by right | done].
    + intros s' z [-> | Hs']%elem_of_cons Hz.
      * apply elem_of_union in Hz as [Hz | Hz].
        -- apply elem_of_union in Hz as [->%elem_of_singleton | ->%elem_of_singleton]; auto.
        -- right. right. exists s0. split; [by left | done].
      * right. right. exists s'. split; [by right | done].
  - destruct (add_to_found_set f1 f2 conf) as [rest |]; [| done].
    destruct (IH rest eq_refl) as [IH1 IH2]. intros [= <-]. split.
    + intros s [-> | Hs]%elem_of_cons.
      * exists s0. split; [by left | done].
      * destruct (IH1 s Hs) as (s' & Hs' & Hsub). exists s'. split; [by right | done].
    + intros s' z [-> | Hs']%elem_of_cons Hz.
      * right. right. exists s0. split; [by left | done].
      * destruct (IH2 s' z Hs' Hz) as [? | [? | (s & Hs & Hzs)]]; auto.
        right. right. exists s. split; [by right | done].
Qed.

Lemma verify_pair_differ (st : list (gset Path) * gset Path) (f1 f2 : Path) :
  ~ ident f1 f2 -> verify_pair fs st (f1, f2) = st.
Proof.
  unfold ident. intros Hd. destruct st as [conf chk]. cbn [verify_pair].
  destruct (_ && _); [done |]. by destruct (files_are_identical fs f1 f2).
Qed.

Lemma verify_pair_skip (conf : list (gset Path)) (chk : gset Path) (f1 f2 : Path) :
  f1 ∈ chk -> f2 ∈ chk -> verify_pair fs (conf, chk) (f1, f2) = (conf, chk).
Proof. intros H1 H2. cbn [verify_pair]. by rewrite !bool_decide_true. Qed.

Lemma verify_pair_join (conf : list (gset Path)) (chk : gset Path) (f1 f2 : Path) :
  ident f1 f2 -> (f1 ∉ chk) \/ (f2 ∉ chk) ->
  verify_pair fs (conf, chk) (f1, f2)
  = (match add_to_found_set f1 f2 conf with
     | Some c => c
     | None => conf ++ [ {[ f1; f2 ]} ]
     end, {[ f1; f2 ]} ∪ chk).
Proof.
  unfold ident. intros Hid Hchk. cbn [verify_pair]. rewrite Hid.
  destruct Hchk as [H | H]; rewrite (bool_decide_false _ H); by rewrite ?andb_false_r.
Qed.

(** A step only adds the two files of the pair and never splits a
    set. *)
Lemma verify_pair_grows (st : list (gset Path) * gset Path) (pr : Path * Path) :
  (forall s, s ∈ st.1 -> exists s', s' ∈ (verify_pair fs st pr).1 /\ s ⊆ s')
  /\ (forall s' z, s' ∈ (verify_pair fs st pr).1 -> z ∈ s' ->
        z = pr.1 \/ z = pr.2 \/ exists s, s ∈ st.1 /\ z ∈ s).
Proof.
  destruct st as [conf chk], pr as [f1 f2]. cbn [fst snd verify_pair].
  assert (Hsame : (forall s, s ∈ conf -> exists s', s' ∈ conf /\ s ⊆ s')
                  /\ (forall s' z, s' ∈ conf -> z ∈ s' ->
                        z = f1 \/ z = f2 \/ exists s, s ∈ conf /\ z ∈ s)).
  { split; [intros s Hs; by exists s | intros s' z Hs' Hz; right; right; by exists s']. }
  destruct (_ && _); [done |].
  destruct (files_are_identical fs f1 f2); [| done]. cbn [fst].
  destruct (add_to_found_set f1 f2 conf) as [c |] eqn:Hadd.
  - by apply add_to_found_set_grows.
  - split.
    + intros s Hs. exists s. split; [apply elem_of_app; by left | done].
    + intros s' z [Hs' | ->%list_elem_of_singleton]%elem_of_app Hz.
      * right. right. by exists s'.
      * apply elem_of_union in Hz as [->%elem_of_singleton | ->%elem_of_singleton]; auto.
Qed.

Lemma foldl_verify_pair_grows (pairs : list (Path * Path))
  (st : list (gset Path) * gset Path) :
  (forall s, s ∈ st.1 -> exists s', s' ∈ (foldl (verify_pair fs) st pairs).1 /\ s ⊆ s')
  /\ (forall s' z, s' ∈ (foldl (verify_pair fs) st pairs).1 -> z ∈ s' ->
        (exists pr, pr ∈ pairs /\ (z = pr.1 \/ z = pr.2)) \/ exists s, s ∈ st.1 /\ z ∈ s).
Proof.
  revert st. induction pairs as [| pr pairs IH]; intros st; cbn [foldl].
  - split; [intros s Hs; by exists s | intros s' z Hs' Hz; right; by exists s'].
  - destruct (IH (verify_pair fs st pr)) as [IH1 IH2].
    destruct (verify_pair_grows st pr) as [H1 H2]. split.
    + intros s Hs. destruct (H1 s Hs) as (s1 & Hs1 & Hsub1).
      destruct (IH1 s1 Hs1) as (s2 & Hs2 & Hsub2). exists s2. split; [done | set_solver].
    + intros s' z Hs' Hz. destruct (IH2 s' z Hs' Hz) as [(pr' & Hpr' & Hz') | (s & Hs & Hzs)].
      * left. exists pr'. split; [by right | done].
      * destruct (H2 s z Hs Hzs) as [-> | [-> | (s0 & Hs0 & Hz0)]].
        -- left. exists pr. split; [by left | by left].
        -- left. exists pr. split; [by left | by right].
        -- right. by exists s0.
Qed.

Lemma verify_group_grows (conf : list (gset Path)) (group : list Path) :
  (forall s, s ∈ conf -> exists s', s' ∈ verify_group fs conf group /\ s ⊆ s')
  /\ (forall s' z, s' ∈ verify_group fs conf group -> z ∈ s' ->
        z ∈ group \/ exists s, s ∈ conf /\ z ∈ s).
Proof.
  unfold verify_group.
  destruct (foldl_verify_pair_grows (Py.combinations2 group) (conf, ∅)) as [H1 H2].
  split; [exact H1 |]. intros s' z Hs' Hz.
  destruct (H2 s' z Hs' Hz) as [([a b] & Hpr & Hz') | ?]; [| by right].
  left. apply FolderFacts.combinations2_in in Hpr as [Ha Hb].
  by destruct Hz' as [-> | ->].
Qed.

End verify.

End Phase3Facts.

Module Phase3Rows.

Import Finder VerifyFacts Phase3Facts.

Section rows.

Variable fs : filesystem.

Local Abbreviation ident := (Phase3Facts.ident fs).

(** *** One row: the pairs [(x, y)] for the files [y] after [x] *)

(** The row of a file that is already checked changes nothing. *)
Lemma row_checked (x : Path) (post : list Path) (conf : list (gset Path)) (chk : gset Path) :
  x ∈ chk ->
  (forall y, y ∈ post -> y ∈ chk \/ ~ ident x y) ->
  foldl (verify_pair fs) (conf, chk) (pair x <$> post) = (conf, chk).
Proof.
  intros Hx. induction post as [| y post IH]; intros Hpost; cbn [fmap list_fmap foldl];
    [done |].
  destruct (Hpost y) as [Hy | Hy]; [by left | |].
  - rewrite verify_pair_skip by done. apply IH. intros z Hz. apply Hpost. by right.
  - rewrite verify_pair_differ by done. apply IH. intros z Hz. apply Hpost. by right.
Qed.

(** The state in the row of a file [x] that was not checked when the
    row began, after the files [seen]: nothing has changed as long as
    no file identical to [x] was met; afterwards the last set holds [x]
    and the identical files met. *)
Definition in_row (x : Path) (base : list (gset Path)) (chk0 : gset Path)
  (seen : list Path) (st : list (gset Path) * gset Path) : Prop :=
  (st = (base, chk0) /\ forall y, y ∈ seen -> ~ ident x y)
  \/ exists S : gset Path,
       st = (base ++ [S], S ∪ chk0)
       /\ forall z, z ∈ S <-> z = x \/ (z ∈ seen /\ ident x z).

Lemma row_step (x y : Path) (base : list (gset Path)) (chk0 : gset Path)
  (seen : list Path) (st : list (gset Path) * gset Path) :
  (forall s, s ∈ base -> x ∉ s) -> x ∉ chk0 ->
  y <> x -> y ∉ seen ->
  (ident x y -> (y ∉ chk0) /\ forall s, s ∈ base -> y ∉ s) ->
  in_row x base chk0 seen st ->
  in_row x base chk0 (seen ++ [y]) (verify_pair fs st (x, y)).
Proof.
  intros Hxbase Hxchk Hyx Hyseen Hy Hrow.
  destruct (ident_dec fs x y) as [Hid | Hid].
  - destruct (Hy Hid) as [Hychk Hybase].
    destruct Hrow as [[-> Hnone] | (S & -> & HS)]; right.
    + exists {[ x; y ]}. split.
      * rewrite verify_pair_join by auto.
        rewrite add_to_found_set_none; [done |]. intros s Hs. auto.
      * intros z. rewrite elem_of_union, !elem_of_singleton, elem_of_app,
          list_elem_of_singleton. split.
        -- intros [-> | ->]; auto.
        -- intros [-> | [[Hz | ->] Hidz]]; auto. by apply Hnone in Hz.
    + exists ({[ x; y ]} ∪ S). split.
      * rewrite verify_pair_join; [| done |].
        -- rewrite add_to_found_set_last; [by rewrite (assoc_L (∪)) | auto |].
           apply HS. by left.
        -- right. rewrite elem_of_union, HS. intros [[-> | [? _]] | ?]; done.
      * intros z. rewrite !elem_of_union, !elem_of_singleton, HS, elem_of_app,
          list_elem_of_singleton. split.
        -- intros [[-> | ->] | [-> | [Hz Hidz]]]; auto.
        -- intros [-> | [[Hz | ->] Hidz]]; auto.
  - rewrite verify_pair_differ by done.
    destruct Hrow as [[-> Hnone] | (S & -> & HS)]; [left | right].
    + split; [done |]. intros z [Hz | ->%list_elem_of_singleton]%elem_of_app; auto.
    + exists S. split; [done |]. intros z. rewrite HS, elem_of_app, list_elem_of_singleton.
      split.
      * intros [-> | [Hz Hidz]]; auto.
      * intros [-> | [[Hz | ->] Hidz]]; auto. done.
Qed.

Lemma row_unchecked (x : Path) (base : list (gset Path)) (chk0 : gset Path)
  (post seen : list Path) (st : list (gset Path) * gset Path) :
  (forall s, s ∈ base -> x ∉ s) -> x ∉ chk0 ->
  x ∉ post -> NoDup (seen ++ post) ->
  (forall y, y ∈ post -> ident x y -> (y ∉ chk0) /\ forall s, s ∈ base -> y ∉ s) ->
  in_row x base chk0 seen st ->
  in_row x base chk0 (seen ++ post) (foldl (verify_pair fs) st (pair x <$> post)).
Proof.
  intros Hxbase Hxchk. revert seen st.
  induction post as [| y post IH]; intros seen st Hxpost Hnodup Hpost Hrow;
    cbn [fmap list_fmap foldl].
  - by rewrite app_nil_r.
  - rewrite cons_middle, (assoc_L (++)). apply IH.
    + intros Hx. apply Hxpost. by right.
    + by rewrite <- (assoc_L (++)).
    + intros z Hz. apply Hpost. by right.
    + apply row_step; try done.
      * intros ->. apply Hxpost. by left.
      * apply NoDup_app in Hnodup as (_ & Hdisj & _). intros Hy.
        apply (Hdisj y Hy). by left.
      * apply Hpost. by left.
Qed.

(** *** All the rows of a group *)

(** The state between two rows; [done] are the files whose rows are
    over. *)
Record between_rows (group done : list Path) (st : list (gset Path) * gset Path) : Prop := {
  sets_checked : forall s z, s ∈ st.1 -> z ∈ s -> z ∈ group -> z ∈ st.2;
  checked_joined : forall x y, x ∈ st.2 -> y ∈ group -> ident x y ->
                               exists s, s ∈ st.1 /\ x ∈ s /\ y ∈ s;
  done_checked : forall y z, y ∈ done -> z ∈ group -> ident y z -> y <> z -> z ∈ st.2
}.

Lemma row_between (done post : list Path) (x : Path) (st : list (gset Path) * gset Path) :
  NoDup (done ++ x :: post) ->
  between_rows (done ++ x :: post) done st ->
  between_rows (done ++ x :: post) (done ++ [x])
               (foldl (verify_pair fs) st (pair x <$> post)).
Proof.
  intros Hnodup [H1 H3 H4]. destruct st as [base chk0]. cbn [fst snd] in *.
  set (group := done ++ x :: post) in *.
  assert (Hxg : x ∈ group) by (apply elem_of_app; right; by left).
  assert (Hpg : forall y, y ∈ post -> y ∈ group)
    by (intros y Hy; apply elem_of_app; right; by right).
  assert (Hdg : forall y, y ∈ done -> y ∈ group) by (intros y Hy; apply elem_of_app; by left).
  apply NoDup_app in Hnodup as (Hdone & Hdisj & [Hxpost Hpost]%NoDup_cons).
  destruct (decide (x ∈ chk0)) as [Hx | Hx].
  - rewrite row_checked; [| done |].
    + split; cbn [fst snd]; [done | done |].
      intros y z [Hy | ->%list_elem_of_singleton]%elem_of_app Hz Hid Hne; [by eapply H4 |].
      destruct (H3 x z Hx Hz Hid) as (s & Hs & _ & Hzs). by eapply H1.
    + intros y Hy. destruct (ident_dec fs x y) as [Hid | Hid]; [left | by right].
      destruct (H3 x y Hx (Hpg y Hy) Hid) as (s & Hs & _ & Hys). eapply H1; eauto.
  - assert (Hxbase : forall s, s ∈ base -> x ∉ s).
    { intros s Hs Hxs. apply Hx. by eapply H1. }
    assert (Hfresh : forall y, y ∈ group -> ident x y ->
                               (y ∉ chk0) /\ forall s, s ∈ base -> y ∉ s).
    { intros y Hy Hid. assert (Hychk : y ∉ chk0).
      { intros Hychk. destruct (H3 y x Hychk Hxg (ident_sym fs _ _ Hid)) as (s & Hs & _ & Hxs).
        by apply (Hxbase s Hs). }
      split; [done |]. intros s Hs Hys. apply Hychk. by eapply H1. }
    assert (Hnotdone : forall y, y ∈ done -> ~ ident x y).
    { intros y Hy Hid. apply Hx. apply (H4 y x Hy Hxg (ident_sym fs _ _ Hid)).
      intros ->. apply (Hdisj x Hy). by left. }
    pose proof (row_unchecked x base chk0 post [] (base, chk0) Hxbase Hx Hxpost Hpost
                  (fun y Hy => Hfresh y (Hpg y Hy))) as Hrow.
    cbn [app] in Hrow.
    destruct Hrow as [[-> Hnone] | (S & -> & HS)].
    { left. split; [done |]. by intros y ?%elem_of_nil. }
    + split; cbn [fst snd]; [done | done |].
      intros y z [Hy | ->%list_elem_of_singleton]%elem_of_app Hz Hid Hne; [by eapply H4 |].
      exfalso. apply elem_of_app in Hz as [Hz | [-> | Hz]%elem_of_cons].
      * by apply (Hnotdone z).
      * done.
      * by apply (Hnone z).
    + assert (Hxx : forall z, z ∈ S -> z ∈ group /\ (z = x \/ ident x z)).
      { intros z [-> | [Hz Hid]]%HS; [by auto |]. split; [by apply Hpg | by right]. }
      assert (HinS : forall z, z ∈ group -> ident x z -> z ∈ S).
      { intros z Hz Hid. apply HS. apply elem_of_app in Hz as [Hz | [-> | Hz]%elem_of_cons].
        - by destruct (Hnotdone z).
        - by left.
        - by right. }
      split; cbn [fst snd].
      * intros s z [Hs | ->%list_elem_of_singleton]%elem_of_app Hz Hzg.
        -- apply elem_of_union. right. by eapply H1.
        -- apply elem_of_union. by left.
      * intros x' y [Hx' | Hx']%elem_of_union Hy Hid.
        -- exists S. split; [apply elem_of_app; right; by left |]. split; [done |].
           apply HinS; [done |]. destruct (Hxx x' Hx') as [_ [-> | Hxid]]; [done |].
           by eapply ident_trans.
        -- destruct (H3 x' y Hx' Hy Hid) as (s & Hs & Hx's & Hys).
           exists s. split; [apply elem_of_app; by left | done].
      * intros y z [Hy | ->%list_elem_of_singleton]%elem_of_app Hz Hid Hne.
        -- apply elem_of_union. right. by eapply H4.
        -- apply elem_of_union. left. by apply HinS.
Qed.

Lemma rows_between (post done : list Path) (st : list (gset Path) * gset Path) :
  NoDup (done ++ post) ->
  between_rows (done ++ post) done st ->
  between_rows (done ++ post) (done ++ post)
               (foldl (verify_pair fs) st (Py.combinations2 post)).
Proof.
  revert done st. induction post as [| x post IH]; intros done st Hnodup Hinv.
  - by rewrite app_nil_r in *.
  - cbn [Py.combinations2]. rewrite foldl_app.
    change (List.map (pair x) post) with (pair x <$> post).
    pose proof (row_between done post x st Hnodup Hinv) as Hrow.
    rewrite cons_middle, (assoc_L (++)) in *. by apply IH.
Qed.

(** After the pairs of a group, any two files of the group that the
    byte comparison accepts are in one set. *)
Lemma verify_group_complete (conf : list (gset Path)) (group : list Path) (a b : Path) :
  NoDup group ->
  (forall s z, s ∈ conf -> z ∈ s -> z ∉ group) ->
  a ∈ group -> b ∈ group -> a <> b -> ident a b ->
  exists s, s ∈ verify_group fs conf group /\ a ∈ s /\ b ∈ s.
Proof.
  intros Hnodup Hconf Ha Hb Hne Hid. unfold verify_group.
  destruct (rows_between group [] (conf, ∅)) as [H1 H3 H4]; [done | |].
  - split; cbn [fst snd].
    + intros s z Hs Hz Hzg. by destruct (Hconf s z Hs Hz).
    + by intros x y ?%elem_of_empty.
    + by intros y z ?%elem_of_nil.
  - cbn [app] in *. pose proof (H4 a b Ha Hb Hid Hne) as Hbchk.
    destruct (H3 b a Hbchk Ha (ident_sym fs _ _ Hid)) as (s & Hs & Hbs & Has).
    by exists s.
Qed.

Lemma foldl_verify_group_grows (groups : list (list Path)) (conf : list (gset Path))
  (s : gset Path) :
  s ∈ conf -> exists s', s' ∈ foldl (verify_group fs) conf groups /\ s ⊆ s'.
Proof.
  revert conf s. induction groups as [| g groups IH]; intros conf s Hs; cbn [foldl].
  - by exists s.
  - destruct (verify_group_grows fs conf g) as [Hgrow _].
    destruct (Hgrow s Hs) as (s1 & Hs1 & Hsub1).
    destruct (IH _ s1 Hs1) as (s2 & Hs2 & Hsub2). exists s2. split; [done | set_solver].
Qed.

(** The same for the whole list of groups, when no file is in two
    groups or twice in one. *)
Lemma phase3_complete (likely_dupes : list (list Path)) (group : list Path) (a b : Path) :
  NoDup (concat likely_dupes) ->
  group ∈ likely_dupes -> a ∈ group -> b ∈ group -> a <> b -> ident a b ->
  exists s, s ∈ phase3 fs likely_dupes /\ a ∈ s /\ b ∈ s.
Proof.
  intros Hnodup Hg Ha Hb Hne Hid. unfold phase3.
  assert (Hconf : forall s z, s ∈ @nil (gset Path) -> z ∈ s -> z ∉ concat likely_dupes)
    by (by intros s z ?%elem_of_nil).
  revert Hnodup Hg Hconf. generalize (@nil (gset Path)) as conf.
  induction likely_dupes as [| g0 rest IH]; intros conf Hnodup Hg Hconf;
    [by apply elem_of_nil in Hg |].
  cbn [foldl concat] in *. apply NoDup_app in Hnodup as (Hg0 & Hdisj & Hrest).
  destruct (verify_group_grows fs conf g0) as [Hgrow Hmem].
  apply elem_of_cons in Hg as [-> | Hg].
  - destruct (verify_group_complete conf g0 a b) as (s & Hs & Has & Hbs); try done.
    { intros s z Hs Hz Hzg. apply (Hconf s z Hs Hz). apply elem_of_app. by left. }
    destruct (foldl_verify_group_grows rest _ s Hs) as (s' & Hs' & Hsub).
    exists s'. split; [done | set_solver].
  - apply IH; [done | done |].
    intros s z Hs Hz Hzr. destruct (Hmem s z Hs Hz) as [Hzg | (s0 & Hs0 & Hz0)].
    + by apply (Hdisj z Hzg).
    + apply (Hconf s0 z Hs0 Hz0). apply elem_of_app. by right.
Qed.

End rows.

End Phase3Rows.

(** ** The whole pipeline of [duplicate_file_finder.py] *)

Module PipelineFacts.

Import Finder VerifyFacts GroupFacts ScanFacts.

(** A file that [stat] and [open]/[read] accept, with its bytes. *)
Definition readable (fs : filesystem) (p : Path) (data : bytes) : Prop :=
  exists i, files fs !! p = Some i
            /\ i_stat_fails i = false /\ i_read_fails i = false /\ i_data i = data.

Lemma readable_read (fs : filesystem) (p : Path) (data : bytes) :
  readable fs p data -> read_bytes fs p = Ok data.
Proof. intros (i & Hi & _ & Hr & <-). unfold read_bytes. by rewrite Hi, Hr. Qed.

(** The edge chunks of a file as a function of its bytes. *)
Definition edge_of (data : bytes) : bytes :=
  if (length data <? CHUNK_SIZE * 2)%nat then data
  else take CHUNK_SIZE data ++ take CHUNK_SIZE (drop (length data - CHUNK_SIZE) data).

Lemma get_edge_chunks_readable (fs : filesystem) (p : Path) (data : bytes) :
  readable fs p data ->
  get_edge_chunks fs p (Z.of_nat (length data)) = Some (edge_of data).
Proof.
  intros Hr%readable_read. unfold get_edge_chunks, edge_of. rewrite Hr.
  destruct (Nat.ltb_spec (length data) (CHUNK_SIZE * 2)) as [Hlt | Hge].
  - destruct (Z.ltb_spec (Z.of_nat (length data)) (Z.of_nat (CHUNK_SIZE * 2))); [done | lia].
  - destruct (Z.ltb_spec (Z.of_nat (length data)) (Z.of_nat (CHUNK_SIZE * 2))); [lia |].
    unfold read_tail.
    destruct (Nat.ltb_spec (length data) CHUNK_SIZE) as [Hlt | _]; [| done].
    unfold CHUNK_SIZE in *. lia.
Qed.

Lemma edge_of_nonempty (data : bytes) : data <> [] -> edge_of data <> [].
Proof.
  unfold edge_of. intros Hne. destruct (length data <? CHUNK_SIZE * 2)%nat; [done |].
  destruct data as [| b data]; [done |]. unfold CHUNK_SIZE. by rewrite firstn_cons.
Qed.

Lemma two_in_NoDup {A} (l : list A) (a b : A) :
  NoDup l -> a ∈ l -> b ∈ l -> a <> b -> (1 < length l)%nat.
Proof.
  destruct l as [| x [| y l]]; cbn [length]; intros _ Ha Hb Hne; [| | lia].
  - by apply elem_of_nil in Ha.
  - apply list_elem_of_singleton in Ha, Hb. congruence.
Qed.

Lemma omap_snd_submseteq {A B} (h : A -> option (B * A)) (l : list A) :
  (forall x y, h x = Some y -> y.2 = x) -> (omap h l).*2 ⊆+ l.
Proof.
  intros Hh. induction l as [| x l IH]; cbn [omap list_omap]; [done |].
  destruct (h x) as [y |] eqn:Hx; cbn [fmap list_fmap].
  - rewrite (Hh x y Hx). by apply submseteq_skip.
  - by apply submseteq_cons.
Qed.

Lemma concat_concat_fmap {A} (L : list (list (list A))) :
  concat (concat L) = concat (@concat A <$> L).
Proof.
  induction L as [| l L IH]; cbn [concat fmap list_fmap]; [done |].
  by rewrite concat_app, IH.
Qed.

Lemma elem_of_concat {A} (L : list (list A)) (x : A) :
  x ∈ concat L <-> exists l, l ∈ L /\ x ∈ l.
Proof.
  rewrite list_elem_of_In, in_concat. split; intros (l & Hl & Hx); exists l.
  - by rewrite !list_elem_of_In.
  - by rewrite <- !list_elem_of_In.
Qed.

Section pipeline.

Variable walk_order : list Path -> list Path.
Variable as_completed : forall A : Type, list A -> list A.

Hypothesis walk_order_perm : forall l, walk_order l ≡ₚ l.
Hypothesis as_completed_perm : forall A (l : list A), as_completed A l ≡ₚ l.

Lemma phase1_NoDup (fs : filesystem) (root_dir : Path) :
  NoDup ((fun r : Path * Z * Q => r.1.1) <$> phase1 walk_order as_completed fs root_dir).
Proof.
  unfold phase1. apply omap_stats_NoDup. rewrite as_completed_perm.
  apply NoDup_List_filter, NoDup_rglob, walk_order_perm.
Qed.

Lemma elem_of_edge_results (fs : filesystem) (size : Z) (group : list Path)
  (chunks : bytes) (p : Path) :
  (chunks, p) ∈ edge_results as_completed fs size group <->
  p ∈ group /\ get_edge_chunks fs p size = Some chunks /\ chunks <> [].
Proof.
  unfold edge_results. rewrite list_elem_of_omap. split.
  - intros (q & Hq & Hc). rewrite as_completed_perm in Hq.
    destruct (get_edge_chunks fs q size) as [[| b c] |] eqn:He; try done.
    by simplify_eq.
  - intros (Hp & Hc & Hne). exists p. rewrite as_completed_perm. split; [done |].
    rewrite Hc. by destruct chunks.
Qed.

Lemma edge_results_submseteq (fs : filesystem) (size : Z) (group : list Path) :
  (edge_results as_completed fs size group).*2 ⊆+ group.
Proof.
  unfold edge_results. etrans.
  - apply omap_snd_submseteq. intros x y.
    destruct (get_edge_chunks fs x size) as [[| b c] |]; try done. by intros [= <-].
  - by rewrite as_completed_perm.
Qed.

(** The groups that leave a size group in phase 2. *)
Definition edge_groups (fs : filesystem) (sf : Z * list Path) : list (list Path) :=
  (Py.more_than_one (Py.group_by fst snd (edge_results as_completed fs sf.1 sf.2))).*2.

Lemma phase2_eq (fs : filesystem) (potential : Py.dict Z (list Path)) :
  phase2 as_completed fs potential = concat (edge_groups fs <$> potential).
Proof. reflexivity. Qed.

Lemma edge_groups_submseteq (fs : filesystem) (sf : Z * list Path) :
  concat (edge_groups fs sf) ⊆+ sf.2.
Proof.
  unfold edge_groups. etrans; [apply more_than_one_submseteq |].
  rewrite group_by_concat. apply edge_results_submseteq.
Qed.

Lemma phase2_NoDup (fs : filesystem) (root_dir : Path) :
  let meta := phase1 walk_order as_completed fs root_dir in
  NoDup (concat (phase2 as_completed fs (Py.more_than_one (files_by_size meta)))).
Proof.
  intros meta. rewrite phase2_eq, concat_concat_fmap, <- list_fmap_compose.
  eapply submseteq_NoDup; [| apply (phase1_NoDup fs root_dir)].
  fold meta. etrans.
  - apply (concat_fmap_submseteq _ snd). intros sf _. apply edge_groups_submseteq.
  - etrans; [apply more_than_one_submseteq |].
    unfold files_by_size. by rewrite group_by_concat.
Qed.

(** What phase 1 has recorded for a path is what [stat] gave. *)
Lemma phase1_stat (fs : filesystem) (root_dir p : Path) (size : Z) (mtime : Q) :
  (p, size, mtime) ∈ phase1 walk_order as_completed fs root_dir ->
  stat fs p = Ok (size, mtime) /\ 0 < size.
Proof.
  unfold phase1. intros (q & _ & Hs)%list_elem_of_omap.
  by apply get_file_stats_Some in Hs as (s & m & [= <- <- <-] & Hs & Hpos).
Qed.

Lemma phase1_readable (fs : filesystem) (root_dir p : Path) (size : Z) (mtime : Q)
  (data : bytes) :
  (p, size, mtime) ∈ phase1 walk_order as_completed fs root_dir ->
  readable fs p data ->
  size = Z.of_nat (length data) /\ data <> [].
Proof.
  intros [Hstat Hpos]%phase1_stat (i & Hi & Hs & _ & <-).
  unfold stat in Hstat. rewrite Hi, Hs in Hstat. injection Hstat as <- _.
  split; [done |]. intros Hnil. rewrite Hnil in Hpos. cbn in Hpos. lia.
Qed.

(** Two different files with the same bytes that the scan has recorded
    leave phase 2 in one group. *)
Lemma phase2_together (fs : filesystem) (root_dir a b : Path) (data : bytes) (ma mb : Q) :
  let meta := phase1 walk_order as_completed fs root_dir in
  (a, Z.of_nat (length data), ma) ∈ meta ->
  (b, Z.of_nat (length data), mb) ∈ meta ->
  a <> b -> data <> [] ->
  readable fs a data -> readable fs b data ->
  exists group,
    group ∈ phase2 as_completed fs (Py.more_than_one (files_by_size meta))
    /\ a ∈ group /\ b ∈ group.
Proof.
  intros meta Hma Hmb Hne Hdata Ha Hb.
  set (size := Z.of_nat (length data)) in *.
  set (key := fun r : Path * Z * Q => snd (fst r)).
  set (val := fun r : Path * Z * Q => fst (fst r)).
  set (vs := keyed key val size meta).
  assert (Hvs : (size, vs) ∈ Py.more_than_one (files_by_size meta)).
  { apply elem_of_more_than_one. split.
    - apply (group_by_group_of key val meta (a, size, ma) Hma).
    - apply (two_in_NoDup vs a b); [| | | done].
      + apply keyed_NoDup, phase1_NoDup.
      + apply elem_of_keyed. by exists (a, size, ma).
      + apply elem_of_keyed. by exists (b, size, mb). }
  assert (Hin : forall p, readable fs p data -> p ∈ vs ->
                  (edge_of data, p) ∈ edge_results as_completed fs size vs).
  { intros p Hp Hpv. apply elem_of_edge_results. split_and!; [done | |].
    - by apply get_edge_chunks_readable.
    - by apply edge_of_nonempty. }
  set (er := edge_results as_completed fs size vs) in *.
  set (ws := keyed fst snd (edge_of data) er).
  assert (Hav : a ∈ vs) by (apply elem_of_keyed; by exists (a, size, ma)).
  assert (Hbv : b ∈ vs) by (apply elem_of_keyed; by exists (b, size, mb)).
  assert (Haw : a ∈ ws) by (apply elem_of_keyed; exists (edge_of data, a); auto).
  assert (Hbw : b ∈ ws) by (apply elem_of_keyed; exists (edge_of data, b); auto).
  exists ws. split_and!; [| done | done].
  rewrite phase2_eq. apply elem_of_concat. exists (edge_groups fs (size, vs)). split.
  - by apply list_elem_of_fmap_2.
  - unfold edge_groups. cbn [fst snd]. fold er.
    apply list_elem_of_fmap. exists (edge_of data, ws). split; [done |].
    apply elem_of_more_than_one. split.
    + apply (group_by_group_of fst snd er (edge_of data, a)). auto.
    + apply (two_in_NoDup ws a b); [| done | done | done].
      apply keyed_NoDup. eapply submseteq_NoDup; [apply edge_results_submseteq |].
      apply keyed_NoDup, phase1_NoDup.
Qed.

(** The files that phase 1 has recorded, as the second component of
    the result lists them. *)
Definition scanned (meta : list (Path * Z * Q)) (p : Path) : Prop :=
  exists size mtime, (p, size, mtime) ∈ meta.

Lemma scanned_together (fs : filesystem) (root_dir a b : Path) (data : bytes) :
  let result := find_duplicates walk_order as_completed fs root_dir in
  scanned result.2 a -> scanned result.2 b -> a <> b ->
  readable fs a data -> readable fs b data ->
  exists group, group ∈ result.1 /\ a ∈ group /\ b ∈ group.
Proof.
  intros result (sa & ma & Hma) (sb & mb & Hmb) Hne Ha Hb.
  unfold result, find_duplicates in Hma, Hmb. cbn [snd] in Hma, Hmb.
  destruct (phase1_readable fs root_dir a sa ma data Hma Ha) as [-> Hdata].
  destruct (phase1_readable fs root_dir b sb mb data Hmb Hb) as [-> _].
  destruct (phase2_together fs root_dir a b data ma mb Hma Hmb Hne Hdata Ha Hb)
    as (g & Hg & Hag & Hbg).
  destruct (Phase3Rows.phase3_complete fs _ g a b (phase2_NoDup fs root_dir) Hg Hag Hbg Hne)
    as (s & Hs & Has & Hbs).
  { apply files_are_identical_iff. exists data. split; by apply readable_read. }
  exists (Py.sort path_ltb (elements s)). unfold result, find_duplicates. cbn [fst].
  split_and!.
  - by apply (list_elem_of_fmap_2 (fun s => Py.sort path_ltb (elements s))).
  - change path_ltb with (OrderFacts.ltb path_compare).
    rewrite OrderFacts.sort_perm. by apply elem_of_elements.
  - change path_ltb with (OrderFacts.ltb path_compare).
    rewrite OrderFacts.sort_perm. by apply elem_of_elements.
Qed.

(** Two different files that the scan has recorded (they are in the
    metadata list it returns), that can be read and hold the same bytes
    are returned in one group, whatever the order in which the tree is
    walked and the futures complete. *)
Theorem identical_files_grouped (fs : filesystem) (root_dir a b : Path) (data : bytes) :
  let result := find_duplicates walk_order as_completed fs root_dir in
  scanned result.2 a -> scanned result.2 b -> a <> b ->
  readable fs a data -> readable fs b data ->
  exists group, group ∈ result.1 /\ a ∈ group /\ b ∈ group.
Proof. apply scanned_together. Qed.

End pipeline.

Lemma identical_files_grouped_witness :
  exists group,
    group ∈ (find_duplicates id (fun _ l => l) album_tree album_root).1
    /\ album_root ++ ["a.jpg"] ∈ group
    /\ album_root ++ ["old"; "a (copy).jpg"] ∈ group.
Proof.
  apply (identical_files_grouped id (fun _ l => l) (fun l => reflexivity l)
           (fun _ l => reflexivity l) album_tree album_root _ _ jpeg_bytes).
  - eexists _, _. apply list_elem_of_In. vm_compute.
    repeat (first [left; reflexivity | right]).
  - eexists _, _. apply list_elem_of_In. vm_compute.
    repeat (first [left; reflexivity | right]).
  - discriminate.
  - eexists. split_and!; [vm_compute; reflexivity | reflexivity ..].
  - eexists. split_and!; [vm_compute; reflexivity | reflexivity ..].
Defined.

End PipelineFacts.

(** ** Symbolic links in the scan of [duplicate_file_finder.py] *)

Module SymlinkClaims.

Import Finder PipelineFacts.

(** A directory with one file and a symbolic link to that file. *)
Definition gallery : Path := ["/"; "gallery"].

Definition picture : bytes := [Byte.x61; Byte.x62; Byte.x63].

Definition gallery_tree : filesystem :=
  mkFs (list_to_map
          [ (gallery ++ ["a.txt"], regular picture 0%Q);
            (gallery ++ ["link.txt"], mkInode picture 0%Q true false false) ])
       {[ ["/"]; gallery ]}.

Lemma gallery_readable :
  readable gallery_tree (gallery ++ ["a.txt"]) picture
  /\ readable gallery_tree (gallery ++ ["link.txt"]) picture.
Proof. split; (eexists; split_and!; [vm_compute; reflexivity | reflexivity ..]). Qed.

(** C8.  The claim has the scanner record regular files that are not
    symbolic links.  The scanner of [duplicate_file_finder.py] selects
    the paths with [is_file] alone, which follows links: in a
    directory with a file and a symbolic link to it, the link is
    recorded with the size and time of the file, and the file and its
    link are returned as a group of duplicates, whatever the walk and
    completion orders.  The scanner of [duplicate_finder.py], which
    also tests [is_symlink], does not record the link. *)
Theorem symlink_scanned_as_file (walk_order : list Path -> list Path)
  (as_completed : forall A : Type, list A -> list A) :
  (forall l, walk_order l ≡ₚ l) ->
  (forall A (l : list A), as_completed A l ≡ₚ l) ->
  let result := find_duplicates walk_order as_completed gallery_tree gallery in
  is_symlink gallery_tree (gallery ++ ["link.txt"]) = true
  /\ (gallery ++ ["link.txt"], 3, 0%Q) ∈ result.2
  /\ (exists group,
        group ∈ result.1
        /\ gallery ++ ["a.txt"] ∈ group /\ gallery ++ ["link.txt"] ∈ group)
  /\ forall size mtime,
       (gallery ++ ["link.txt"], size, mtime)
         ∉ CachedFinder.all_files_for_scan_and_cache walk_order gallery_tree gallery.
Proof.
  intros Hw Hc result.
  assert (Hin : forall p, p ∈ [gallery ++ ["a.txt"]; gallery ++ ["link.txt"]] ->
                  (p, 3, 0%Q) ∈ result.2).
  { intros p Hp. unfold result, find_duplicates. cbn [snd].
    apply (ScannerClaims.elem_of_phase1 _ _ Hw Hc).
    apply elem_of_cons in Hp as [-> | Hp]; [| apply list_elem_of_singleton in Hp as ->];
      (split; [vm_compute; reflexivity |]);
      (split_and!; [vm_compute; reflexivity | vm_compute; reflexivity | done]). }
  split_and!.
  - vm_compute. reflexivity.
  - apply Hin. set_solver.
  - apply (scanned_together walk_order as_completed Hw Hc gallery_tree gallery _ _ picture).
    + exists 3, 0%Q. apply Hin. set_solver.
    + exists 3, 0%Q. apply Hin. set_solver.
    + discriminate.
    + apply gallery_readable.
    + apply gallery_readable.
  - intros size mtime Hl.
    apply (ScannerClaims.elem_of_all_files _ Hw) in Hl as (_ & Hl & _).
    vm_compute in Hl. discriminate.
Qed.

Lemma symlink_scanned_as_file_witness :
  (gallery ++ ["link.txt"], 3, 0%Q)
    ∈ (find_duplicates id (fun _ l => l) gallery_tree gallery).2
  /\ (find_duplicates id (fun _ l => l) gallery_tree gallery).1
     = [[gallery ++ ["a.txt"]; gallery ++ ["link.txt"]]].
Proof.
  split; [| vm_compute; reflexivity].
  apply (symlink_scanned_as_file id (fun _ l => l) (fun l => reflexivity l)
           (fun _ l => reflexivity l)).
Defined.

End SymlinkClaims.

(** ** The hash pipeline of [duplicate_finder.py] *)

Module HashPipelineFacts.

Import CachedFinder GroupFacts ScanFacts PipelineFacts.

Lemma two_in {A} (l : list A) (a b : A) : a ∈ l -> b ∈ l -> a <> b -> (1 < length l)%nat.
Proof.
  destruct l as [| x [| y l]]; cbn [length]; intros Ha Hb Hne; [| | lia].
  - by apply elem_of_nil in Ha.
  - apply list_elem_of_singleton in Ha, Hb. congruence.
Qed.

Lemma hexdigest_nonempty (digest : Z) : nonempty (hexdigest digest) = true.
Proof. reflexivity. Qed.

Section scan.

Variable xxh64 : bytes -> Z.
Variable walk_order : list Path -> list Path.
Variable set_order : list Path -> list Path.

Hypothesis walk_order_perm : forall l, walk_order l ≡ₚ l.
Hypothesis set_order_perm : forall l, set_order l ≡ₚ l.

(** The bytes the partial hash is taken of. *)
Definition hashed_edges (data : bytes) : bytes :=
  if (length data <? CachedFinder.CHUNK_SIZE * 2)%nat then data
  else take CachedFinder.CHUNK_SIZE data
         ++ take CachedFinder.CHUNK_SIZE (drop (length data - CachedFinder.CHUNK_SIZE) data).

Lemma get_partial_hash_readable (fs : filesystem) (p : Path) (data : bytes) :
  readable fs p data -> get_partial_hash xxh64 fs p = hexdigest (xxh64 (hashed_edges data)).
Proof.
  intros (i & Hi & Hs & Hr & <-). unfold get_partial_hash, stat, read_bytes, hashed_edges.
  rewrite Hi, Hs, Hr.
  destruct (Nat.ltb_spec (length (i_data i)) (CachedFinder.CHUNK_SIZE * 2)) as [Hlt | Hge].
  - destruct (Z.ltb_spec (Z.of_nat (length (i_data i)))
                         (Z.of_nat (CachedFinder.CHUNK_SIZE * 2))); [done | lia].
  - destruct (Z.ltb_spec (Z.of_nat (length (i_data i)))
                         (Z.of_nat (CachedFinder.CHUNK_SIZE * 2))); [lia |].
    unfold Finder.read_tail.
    destruct (Nat.ltb_spec (length (i_data i)) CachedFinder.CHUNK_SIZE) as [Hlt | _];
      [| done].
    unfold CachedFinder.CHUNK_SIZE in *. lia.
Qed.

Lemma get_full_hash_readable (fs : filesystem) (p : Path) (data : bytes) :
  readable fs p data -> get_full_hash xxh64 fs p = hexdigest (xxh64 data).
Proof. intros Hr%readable_read. unfold get_full_hash. by rewrite Hr. Qed.

(** *** The three stages *)

Lemma elem_of_partial_hash_entries (fs : filesystem) (potential : Py.dict Z (list Path))
  (key : string) (p : Path) :
  (key, p) ∈ partial_hash_entries xxh64 fs potential <->
  exists size group,
    (size, group) ∈ potential /\ p ∈ group
    /\ nonempty (get_partial_hash xxh64 fs p) = true
    /\ key = string_of_Z size +:+ ":" +:+ get_partial_hash xxh64 fs p.
Proof.
  unfold partial_hash_entries. rewrite elem_of_concat. split.
  - intros (l & Hl & Hp). apply list_elem_of_fmap in Hl as ([size group] & -> & Hsg).
    apply list_elem_of_omap in Hp as (q & Hq & Hk). cbn [fst snd] in *.
    destruct (nonempty (get_partial_hash xxh64 fs q)) eqn:Hne; [| done].
    injection Hk as <- <-. by exists size, group.
  - intros (size & group & Hsg & Hp & Hne & ->).
    eexists. split.
    + apply list_elem_of_fmap. by exists (size, group).
    + apply list_elem_of_omap. exists p. cbn [fst snd]. by rewrite Hne.
Qed.

Lemma elem_of_files_to_hash (likely : Py.dict string (list Path)) (p : Path) :
  p ∈ files_to_hash set_order likely <-> exists key group, (key, group) ∈ likely /\ p ∈ group.
Proof.
  unfold files_to_hash. rewrite set_order_perm, elem_of_elements, elem_of_list_to_set,
    elem_of_concat.
  split.
  - intros (l & Hl & Hp). apply list_elem_of_fmap in Hl as ([key group] & -> & Hkg).
    by exists key, group.
  - intros (key & group & Hkg & Hp). exists group. split; [| done].
    apply list_elem_of_fmap. by exists (key, group).
Qed.

Lemma elem_of_full_hash_entries (fs : filesystem) (to_hash : list Path) (h : string)
  (p : Path) :
  (h, p) ∈ omap (fun file =>
                   let full_hash := get_full_hash xxh64 fs file in
                   if nonempty full_hash then Some (full_hash, file) else None) to_hash
  <-> p ∈ to_hash /\ h = get_full_hash xxh64 fs p /\ nonempty h = true.
Proof.
  rewrite list_elem_of_omap. split.
  - intros (q & Hq & Hh). cbn zeta in Hh.
    destruct (nonempty (get_full_hash xxh64 fs q)) eqn:Hne; [| done].
    by injection Hh as <- <-.
  - intros (Hp & -> & Hne). exists p. cbn zeta. by rewrite Hne.
Qed.

Lemma full_hashes_of_group (fs : filesystem) (to_hash : list Path) (h : string)
  (group : list Path) :
  (h, group) ∈ full_hashes_of xxh64 fs to_hash ->
  nonempty h = true /\ forall p, p ∈ group -> get_full_hash xxh64 fs p = h.
Proof.
  unfold full_hashes_of. intros [-> Hne]%elem_of_group_by.
  set (hashed := omap _ to_hash) in *.
  assert (Hall : forall p, p ∈ keyed fst snd h hashed ->
                           get_full_hash xxh64 fs p = h /\ nonempty h = true).
  { intros p ([h' q] & Hin & Hk & Hv)%elem_of_keyed. cbn [fst snd] in *. subst.
    by apply elem_of_full_hash_entries in Hin as (_ & <- & ?). }
  split.
  - destruct (keyed fst snd h hashed) as [| p l] eqn:Hk; [done |].
    apply (Hall p). by left.
  - intros p Hp. by apply Hall.
Qed.

(** Every confirmed group has at least two members, and they all have
    the same full hash. *)
Theorem confirmed_groups_share_hash (fs : filesystem) (root_dir : Path) (group : list Path) :
  group ∈ (full_scan xxh64 walk_order set_order fs root_dir).1.1 ->
  (1 < length group)%nat
  /\ exists h, nonempty h = true /\ forall p, p ∈ group -> get_full_hash xxh64 fs p = h.
Proof.
  unfold full_scan. cbn [fst]. intros Hg.
  apply list_elem_of_fmap in Hg as ([h g] & -> & Hg). cbn [snd].
  apply elem_of_more_than_one in Hg as [Hg Hlen]. split; [done |].
  exists h. by eapply full_hashes_of_group.
Qed.

Lemma same_hashes_together (fs : filesystem) (root_dir a b : Path) (size : Z)
  (ma mb : Q) :
  (a, size, ma) ∈ all_files_for_scan_and_cache walk_order fs root_dir ->
  (b, size, mb) ∈ all_files_for_scan_and_cache walk_order fs root_dir ->
  a <> b ->
  get_partial_hash xxh64 fs a = get_partial_hash xxh64 fs b ->
  nonempty (get_partial_hash xxh64 fs a) = true ->
  get_full_hash xxh64 fs a = get_full_hash xxh64 fs b ->
  nonempty (get_full_hash xxh64 fs a) = true ->
  exists group,
    group ∈ (full_scan xxh64 walk_order set_order fs root_dir).1.1
    /\ a ∈ group /\ b ∈ group.
Proof.
  intros Hma Hmb Hne Hph Hphne Hfh Hfhne. unfold full_scan. cbn [fst].
  set (meta := all_files_for_scan_and_cache walk_order fs root_dir) in *.
  set (key := fun r : Path * Z * Q => snd (fst r)).
  set (val := fun r : Path * Z * Q => fst (fst r)).
  set (vs := keyed key val size meta).
  assert (Hav : a ∈ vs) by (apply elem_of_keyed; by exists (a, size, ma)).
  assert (Hbv : b ∈ vs) by (apply elem_of_keyed; by exists (b, size, mb)).
  set (potential := Py.more_than_one (files_by_size meta)).
  assert (Hvs : (size, vs) ∈ potential).
  { apply elem_of_more_than_one. split.
    - apply (group_by_group_of key val meta (a, size, ma) Hma).
    - by apply (two_in vs a b). }
  set (pkey := string_of_Z size +:+ ":" +:+ get_partial_hash xxh64 fs a).
  set (entries := partial_hash_entries xxh64 fs potential).
  assert (Hae : (pkey, a) ∈ entries).
  { apply elem_of_partial_hash_entries. by exists size, vs. }
  assert (Hbe : (pkey, b) ∈ entries).
  { apply elem_of_partial_hash_entries. exists size, vs. rewrite <- Hph. by split_and!. }
  set (ws := keyed fst snd pkey entries).
  assert (Haw : a ∈ ws) by (apply elem_of_keyed; by exists (pkey, a)).
  assert (Hbw : b ∈ ws) by (apply elem_of_keyed; by exists (pkey, b)).
  set (likely := Py.more_than_one (potential_duplicates_by_partial_hash xxh64 fs potential)).
  assert (Hws : (pkey, ws) ∈ likely).
  { apply elem_of_more_than_one. split.
    - apply (group_by_group_of fst snd entries (pkey, a) Hae).
    - by apply (two_in ws a b). }
  set (to_hash := files_to_hash set_order likely).
  assert (Hat : a ∈ to_hash) by (apply elem_of_files_to_hash; by exists pkey, ws).
  assert (Hbt : b ∈ to_hash) by (apply elem_of_files_to_hash; by exists pkey, ws).
  set (h := get_full_hash xxh64 fs a) in *.
  set (hashed := omap (fun file =>
                         let full_hash := get_full_hash xxh64 fs file in
                         if nonempty full_hash then Some (full_hash, file) else None)
                      to_hash).
  assert (Hah : (h, a) ∈ hashed) by (by apply elem_of_full_hash_entries).
  assert (Hbh : (h, b) ∈ hashed) by (by apply elem_of_full_hash_entries).
  set (hs := keyed fst snd h hashed).
  exists hs. split_and!.
  - apply list_elem_of_fmap. exists (h, hs). split; [done |].
    apply elem_of_more_than_one. split.
    + apply (group_by_group_of fst snd hashed (h, a) Hah).
    + apply (two_in hs a b); [| | done]; apply elem_of_keyed.
      * by exists (h, a).
      * by exists (h, b).
  - apply elem_of_keyed. by exists (h, a).
  - apply elem_of_keyed. by exists (h, b).
Qed.

(** Two different files that the scanner records with the same size,
    the same partial hash and the same full hash end in one confirmed
    group: nothing but the size and the two hashes is compared. *)
Theorem same_hashes_grouped (fs : filesystem) (root_dir a b : Path) (size : Z)
  (ma mb : Q) :
  (a, size, ma) ∈ all_files_for_scan_and_cache walk_order fs root_dir ->
  (b, size, mb) ∈ all_files_for_scan_and_cache walk_order fs root_dir ->
  a <> b ->
  get_partial_hash xxh64 fs a = get_partial_hash xxh64 fs b ->
  nonempty (get_partial_hash xxh64 fs a) = true ->
  get_full_hash xxh64 fs a = get_full_hash xxh64 fs b ->
  nonempty (get_full_hash xxh64 fs a) = true ->
  exists group,
    group ∈ (full_scan xxh64 walk_order set_order fs root_dir).1.1
    /\ a ∈ group /\ b ∈ group.
Proof. apply same_hashes_together. Qed.

(** What the scanner has recorded for a path is what [stat] gave. *)
Lemma all_files_stat (fs : filesystem) (root_dir p : Path) (size : Z) (mtime : Q) :
  (p, size, mtime) ∈ all_files_for_scan_and_cache walk_order fs root_dir ->
  stat fs p = Ok (size, mtime) /\ 0 < size.
Proof.
  unfold all_files_for_scan_and_cache. intros (q & _ & Hs)%list_elem_of_omap.
  rewrite ScanFacts.scan_file_eq in Hs.
  by apply ScanFacts.get_file_stats_Some in Hs as (s & m & [= <- <- <-] & Hs & Hpos).
Qed.

(** In particular two different files that the scanner has recorded
    (they are in the metadata list of the scan), that can be read and
    hold the same bytes are confirmed duplicates of each other. *)
Theorem identical_files_share_group (fs : filesystem) (root_dir a b : Path) (data : bytes) :
  let result := full_scan xxh64 walk_order set_order fs root_dir in
  scanned result.1.2 a -> scanned result.1.2 b -> a <> b ->
  readable fs a data -> readable fs b data ->
  exists group, group ∈ result.1.1 /\ a ∈ group /\ b ∈ group.
Proof.
  intros result (sa & ma & Hma) (sb & mb & Hmb) Hne Ha Hb.
  unfold result, full_scan in Hma, Hmb. cbn [fst snd] in Hma, Hmb.
  assert (Hsize : forall p size mtime,
            (p, size, mtime) ∈ all_files_for_scan_and_cache walk_order fs root_dir ->
            readable fs p data -> size = Z.of_nat (length data)).
  { intros p size mtime [Hstat _]%all_files_stat (i & Hi & Hs & _ & <-).
    unfold stat in Hstat. rewrite Hi, Hs in Hstat. by injection Hstat as <- _. }
  rewrite (Hsize a sa ma Hma Ha) in Hma. rewrite (Hsize b sb mb Hmb Hb) in Hmb.
  apply (same_hashes_together fs root_dir a b (Z.of_nat (length data)) ma mb).
  - done.
  - done.
  - done.
  - by rewrite (get_partial_hash_readable fs a data), (get_partial_hash_readable fs b data).
  - rewrite (get_partial_hash_readable fs a data) by done. apply hexdigest_nonempty.
  - by rewrite (get_full_hash_readable fs a data), (get_full_hash_readable fs b data).
  - rewrite (get_full_hash_readable fs a data) by done. apply hexdigest_nonempty.
Qed.

End scan.

End HashPipelineFacts.

Module HashPipelineRuns.

Import CachedFinder HashPipelineFacts PipelineFacts VerifyFacts.

(** Two files of 64 bytes that differ in the first lane of both
    stripes and have the same XXH64 digest. *)
Definition zeros (n : nat) : bytes := replicate n Byte.x00.

Definition block_a : bytes := zeros 64.

Definition block_b : bytes :=
  [Byte.x01] ++ zeros 31
  ++ [Byte.x72; Byte.x46; Byte.x9d; Byte.x28; Byte.xe1; Byte.xc2; Byte.xde; Byte.x20]
  ++ zeros 24.

Definition vault : Path := ["/"; "vault"].

Definition vault_tree : filesystem :=
  mkFs (list_to_map
          [ (vault ++ ["a.bin"], regular block_a 0%Q);
            (vault ++ ["b.bin"], regular block_b 0%Q) ])
       {[ ["/"]; vault ]}.

Lemma blocks_collide :
  block_a <> block_b
  /\ hexdigest (XXH64.xxh64 block_a) = "257b09a147b82a19"
  /\ hexdigest (XXH64.xxh64 block_b) = "257b09a147b82a19".
Proof. split_and!; [discriminate | vm_compute; reflexivity ..]. Qed.

(** C1.  The claim has no confirmed group hold two files of different
    content.  The full scan of [duplicate_finder.py] confirms a group
    on the equality of sizes and hashes alone, without comparing the
    bytes: the two different files of the vault, of 64 bytes each and
    with the same XXH64 digest, are returned together in one confirmed
    group, whatever the walk order and the iteration order of the set
    of files to hash. *)
Theorem colliding_files_confirmed (walk_order set_order : list Path -> list Path) :
  (forall l, walk_order l ≡ₚ l) ->
  (forall l, set_order l ≡ₚ l) ->
  read_bytes vault_tree (vault ++ ["a.bin"]) = Ok block_a
  /\ read_bytes vault_tree (vault ++ ["b.bin"]) = Ok block_b
  /\ block_a <> block_b
  /\ exists group,
       group ∈ (full_scan XXH64.xxh64 walk_order set_order vault_tree vault).1.1
       /\ vault ++ ["a.bin"] ∈ group /\ vault ++ ["b.bin"] ∈ group.
Proof.
  intros Hw Hs. split_and!; [vm_compute; reflexivity .. | discriminate |].
  assert (Hin : forall p : Path, p ∈ [vault ++ ["a.bin"]; vault ++ ["b.bin"]]
                  -> (p, 64, 0%Q) ∈ all_files_for_scan_and_cache walk_order vault_tree vault).
  { intros p Hp. apply (ScannerClaims.elem_of_all_files _ Hw).
    apply elem_of_cons in Hp as [-> | Hp]; [| apply list_elem_of_singleton in Hp as ->];
      (split_and!; [vm_compute; reflexivity | vm_compute; reflexivity |]);
      (split_and!; [vm_compute; reflexivity | vm_compute; reflexivity | done]). }
  apply (same_hashes_together XXH64.xxh64 walk_order set_order Hs vault_tree vault
           (vault ++ ["a.bin"]) (vault ++ ["b.bin"]) 64 0%Q 0%Q).
  - apply Hin. set_solver.
  - apply Hin. set_solver.
  - discriminate.
  - vm_compute. reflexivity.
  - vm_compute. reflexivity.
  - vm_compute. reflexivity.
  - vm_compute. reflexivity.
Qed.

Lemma colliding_files_confirmed_witness :
  (exists group,
     group ∈ (full_scan XXH64.xxh64 id id vault_tree vault).1.1
     /\ vault ++ ["a.bin"] ∈ group /\ vault ++ ["b.bin"] ∈ group)
  /\ (full_scan XXH64.xxh64 id id vault_tree vault).1.1
     = [[vault ++ ["b.bin"]; vault ++ ["a.bin"]]]
  /\ (Finder.find_duplicates id (fun _ l => l) vault_tree vault).1 = [].
Proof.
  split; [| split; vm_compute; reflexivity].
  apply (colliding_files_confirmed id id (fun l => reflexivity l) (fun l => reflexivity l)).
Defined.

Lemma same_hashes_grouped_witness :
  read_bytes vault_tree (vault ++ ["a.bin"]) <> read_bytes vault_tree (vault ++ ["b.bin"])
  /\ exists group,
       group ∈ (full_scan XXH64.xxh64 id id vault_tree vault).1.1
       /\ vault ++ ["a.bin"] ∈ group /\ vault ++ ["b.bin"] ∈ group.
Proof.
  split; [vm_compute; discriminate |].
  apply (same_hashes_grouped XXH64.xxh64 id id (fun l => reflexivity l) vault_tree vault
           (vault ++ ["a.bin"]) (vault ++ ["b.bin"]) 64 0%Q 0%Q).
  - apply list_elem_of_In. vm_compute. tauto.
  - apply list_elem_of_In. vm_compute. tauto.
  - discriminate.
  - vm_compute. reflexivity.
  - vm_compute. reflexivity.
  - vm_compute. reflexivity.
  - vm_compute. reflexivity.
Defined.

Lemma confirmed_groups_share_hash_witness :
  (1 < length [album_root ++ ["a.jpg"]; album_root ++ ["old"; "a (copy).jpg"]])%nat
  /\ exists h,
       nonempty h = true
       /\ forall p, p ∈ [album_root ++ ["a.jpg"]; album_root ++ ["old"; "a (copy).jpg"]] ->
                    get_full_hash XXH64.xxh64 album_tree p = h.
Proof.
  apply (confirmed_groups_share_hash XXH64.xxh64 id id album_tree album_root).
  apply list_elem_of_In. vm_compute. tauto.
Defined.

Lemma identical_files_share_group_witness :
  exists group,
    group ∈ (full_scan XXH64.xxh64 id id album_tree album_root).1.1
    /\ album_root ++ ["a.jpg"] ∈ group
    /\ album_root ++ ["old"; "a (copy).jpg"] ∈ group.
Proof.
  apply (identical_files_share_group XXH64.xxh64 id id (fun l => reflexivity l)
           album_tree album_root _ _ jpeg_bytes).
  - eexists _, _. apply list_elem_of_In. vm_compute.
    repeat (first [left; reflexivity | right]).
  - eexists _, _. apply list_elem_of_In. vm_compute.
    repeat (first [left; reflexivity | right]).
  - discriminate.
  - eexists. split_and!; [vm_compute; reflexivity | reflexivity ..].
  - eexists. split_and!; [vm_compute; reflexivity | reflexivity ..].
Defined.

End HashPipelineRuns.

(** ** Reuse and renewal of the cache *)

Module CacheReuse.

Import CachedFinder CacheFacts CacheCheckFacts GroupFacts HashPipelineFacts PipelineFacts.

(** A cached entry that the verification loop accepts: [stat] gives the
    cached size and a modification time whose floating-point difference
    from the cached one is at most one second. *)
Definition unchanged (fs : filesystem) (e : Path * Z * Q) : Prop :=
  exists st_mtime,
    stat fs e.1.1 = Ok (e.1.2, st_mtime)
    /\ (Qabs (Float.float_sub st_mtime e.2) <= 1)%Q.

Lemma float_sub_diag (m : Q) : Float.float_sub m m = 0%Q.
Proof.
  unfold Float.float_sub, Float.round_double.
  assert (H : Qnum (m - m) = 0).
  { destruct m as [a b]. cbn. lia. }
  by rewrite H.
Qed.

Lemma entry_changed_false (fs : filesystem) (e : Path * Z * Q) :
  entry_changed fs e = false <-> unchanged fs e.
Proof.
  destruct e as [[file_path cached_size] cached_mtime].
  rewrite <- not_true_iff_false, entry_changed_spec. unfold unchanged. cbn [fst snd].
  destruct (stat fs file_path) as [[st_size st_mtime] | err].
  - split.
    + intros Hno. exists st_mtime.
      destruct (decide (st_size = cached_size)) as [-> | Hsz].
      * split; [done |].
        destruct (Qlt_le_dec 1 (Qabs (Float.float_sub st_mtime cached_mtime)))
          as [Hlt | Hle]; [| done].
        exfalso. apply Hno. right. eexists _, _. split; [done |]. right.
        by apply Qlt_not_le.
      * exfalso. apply Hno. right. eexists _, _. split; [done |]. by left.
    + intros (m & [= -> ->] & Hle) [(err & ?) | (sz & mt & [= <- <-] & [? | ?])]; done.
  - split.
    + intros Hno. exfalso. apply Hno. left. by exists err.
    + by intros (m & ? & _).
Qed.

Lemma is_consistent_unchanged (fs : filesystem) (sample : list (Path * Z * Q)) :
  is_consistent fs sample = true <-> forall e, e ∈ sample -> unchanged fs e.
Proof.
  rewrite is_consistent_spec, Forall_forall.
  split; intros H e He; by apply entry_changed_false, H.
Qed.

Lemma load_saved (dups : list (list Path)) (meta : list (Path * Z * Q))
  (hashes : Py.dict string (list Path)) :
  Forall (Forall wf_path) dups ->
  Forall (fun e => wf_path e.1.1) meta ->
  Forall (fun hf => Forall wf_path hf.2) hashes ->
  NoDup (hashes.*1) ->
  load_cache (Document (save_cache dups meta hashes)) = Ok (dups, meta, hashes).
Proof.
  intros Hd Hm Hh Hnd. unfold load_cache, save_cache.
  match goal with |- context [json_get _ (JObj [(_, ?a); (_, ?b); (_, ?c)])] =>
    destruct (json_get_saved a b c) as (-> & -> & ->) end.
  cbn [rbind py_iter]. rewrite load_groups_saved by done. cbn [rbind py_iter].
  rewrite load_metadata_saved by done. cbn [rbind].
  by rewrite (load_hashes_map_saved hashes []).
Qed.

Section reuse.

Variable xxh64 : bytes -> Z.
Variable walk_order : list Path -> list Path.
Variable set_order : list Path -> list Path.
Variable pick : nat -> nat -> list nat.

Hypothesis pick_valid : valid_pick pick.

Local Abbreviation find_duplicates := (find_duplicates xxh64 walk_order set_order pick).

Lemma cache_check_outcome (fs : filesystem) (cache : cache_file) (root_dir : Path)
  (dups : list (list Path)) (meta : list (Path * Z * Q))
  (hashes : Py.dict string (list Path)) :
  is_dir fs root_dir = true ->
  load_cache cache = Ok (dups, meta, hashes) ->
  meta <> [] ->
  exists sample,
    random_sample pick meta (num_to_check (length meta)) = Ok sample
    /\ length sample = Nat.max 1 (length meta / 10)
    /\ sample ⊆ meta
    /\ ((forall e, e ∈ sample -> unchanged fs e) ->
        find_duplicates fs (Some cache) root_dir false
        = (Ok (dups, (fun e : Path * Z * Q => e.1.1) <$> meta, hashes), Some cache))
    /\ (~ (forall e, e ∈ sample -> unchanged fs e) ->
        find_duplicates fs (Some cache) root_dir false
        = find_duplicates fs None root_dir false).
Proof.
  intros Hdir Hload Hne.
  destruct (try_cache_nonempty pick fs cache dups meta hashes pick_valid Hload Hne)
    as (sample & Hs & Hlen & Hsub & Htry).
  exists sample. split_and!; [done | done | done | |].
  - intros Hok%is_consistent_unchanged.
    unfold CachedFinder.find_duplicates. rewrite Hdir. cbn [negb]. by rewrite Htry, Hok.
  - intros Hbad. rewrite <- is_consistent_unchanged in Hbad.
    apply not_true_is_false in Hbad.
    unfold CachedFinder.find_duplicates. rewrite Hdir. cbn [negb]. by rewrite Htry, Hbad.
Qed.


(** A cache that [json.load] rejects is treated like a missing one. *)
Lemma unparsable_cache_rescans (fs : filesystem) (root_dir : Path) :
  is_dir fs root_dir = true ->
  find_duplicates fs (Some Unparsable) root_dir false = find_duplicates fs None root_dir false.
Proof. intros Hdir. unfold CachedFinder.find_duplicates. by rewrite Hdir. Qed.

Hypothesis walk_order_perm : forall l, walk_order l ≡ₚ l.
Hypothesis set_order_perm : forall l, set_order l ≡ₚ l.

(** Every file that reaches the full-hash map is one of the recorded
    files. *)
Lemma hashed_files_recorded (fs : filesystem) (root_dir : Path) (h : string)
  (group : list Path) (p : Path) :
  (h, group) ∈ (full_scan xxh64 walk_order set_order fs root_dir).2 -> p ∈ group ->
  exists size mtime, (p, size, mtime) ∈ all_files_for_scan_and_cache walk_order fs root_dir.
Proof.
  unfold full_scan. cbn [snd]. unfold full_hashes_of.
  intros [-> _]%elem_of_group_by ([h' q] & Hq & _ & Hp)%elem_of_keyed. cbn [snd] in Hp. subst q.
  apply (elem_of_full_hash_entries xxh64) in Hq as (Hq & _).
  apply (elem_of_files_to_hash _ set_order_perm) in Hq as (pkey & ws & Hws & Hp).
  apply elem_of_more_than_one in Hws as [Hws _].
  unfold potential_duplicates_by_partial_hash in Hws.
  apply elem_of_group_by in Hws as [-> _].
  apply elem_of_keyed in Hp as ([k q] & Hq & _ & Hp). cbn [snd] in Hp. subst q.
  apply elem_of_partial_hash_entries in Hq as (size & vs & Hvs & Hp & _).
  apply elem_of_more_than_one in Hvs as [Hvs _].
  unfold files_by_size in Hvs. apply elem_of_group_by in Hvs as [-> _].
  apply elem_of_keyed in Hp as ([[q sz] mt] & Hq & _ & Hp). cbn [fst] in Hp. subst q.
  by exists sz, mt.
Qed.

(** A call that finds the cache written by an earlier scan is answered
    from that cache, without a new scan, as long as [stat] still gives
    the recorded size and a modification time within the tolerance for
    the recorded files: it returns the groups, paths and hashes of the
    earlier scan of [fs], whatever the files of [fs'] hold and whichever
    files have been added since, and leaves the cache file as it is.
    The file system [fs] itself passes the check.  (The earlier scan
    has to have recorded at least one file.) *)
Theorem second_scan_uses_cache (fs fs' : filesystem) (root_dir : Path) :
  let recorded_files := all_files_for_scan_and_cache walk_order fs root_dir in
  let first := outputs (full_scan xxh64 walk_order set_order fs root_dir) in
  is_dir fs root_dir = true ->
  is_dir fs' root_dir = true ->
  recorded_files <> [] ->
  Forall (fun e => wf_path e.1.1) recorded_files ->
  (forall e, e ∈ recorded_files -> unchanged fs' e) ->
  (forall e, e ∈ recorded_files -> unchanged fs e)
  /\ exists cache,
       find_duplicates fs None root_dir false = (Ok first, Some cache)
       /\ find_duplicates fs' (Some cache) root_dir false = (Ok first, Some cache).
Proof.
  intros recorded_files first Hdir Hdir' Hne Hwf Hsame. split.
  { intros [[p size] mtime] He.
    apply (all_files_stat walk_order) in He as [Hstat _].
    exists mtime. split; [done |]. cbn [snd]. by rewrite float_sub_diag. }
  assert (Hfirst : find_duplicates fs None root_dir false
                   = (Ok (outputs (full_scan xxh64 walk_order set_order fs root_dir)),
                      Some (Document (save_cache
                                        (full_scan xxh64 walk_order set_order fs root_dir).1.1
                                        (full_scan xxh64 walk_order set_order fs root_dir).1.2
                                        (full_scan xxh64 walk_order set_order fs root_dir).2)))).
  { unfold CachedFinder.find_duplicates. rewrite Hdir. cbn [negb].
    by destruct (full_scan xxh64 walk_order set_order fs root_dir) as [[d m] hm]. }
  rewrite Hfirst. eexists. split; [done |].
  set (scan := full_scan xxh64 walk_order set_order fs root_dir) in *.
  assert (Hmeta : scan.1.2 = all_files_for_scan_and_cache walk_order fs root_dir) by done.
  assert (Hpaths : forall h group p, (h, group) ∈ scan.2 -> p ∈ group -> wf_path p).
  { intros h group p Hg Hp.
    destruct (hashed_files_recorded fs root_dir h group p Hg Hp) as (sz & mt & Hin).
    rewrite Forall_forall in Hwf. apply (Hwf _ Hin). }
  assert (Hload : load_cache (Document (save_cache scan.1.1 scan.1.2 scan.2))
                  = Ok (scan.1.1, scan.1.2, scan.2)).
  { apply load_saved.
    - apply Forall_forall. intros group Hg. apply Forall_forall. intros p Hp.
      unfold scan, full_scan in Hg. cbn [fst] in Hg.
      apply list_elem_of_fmap in Hg as ([h g] & -> & Hg).
      apply elem_of_more_than_one in Hg as [Hg _]. by apply (Hpaths h g p).
    - by rewrite Hmeta.
    - apply Forall_forall. intros [h group] Hg. apply Forall_forall. intros p Hp.
      by apply (Hpaths h group p).
    - apply group_by_NoDup_keys. }
  destruct (cache_check_outcome fs' _ root_dir _ _ _ Hdir' Hload)
    as (sample & _ & _ & Hsub & Huse & _); [by rewrite Hmeta |].
  rewrite Huse.
  - unfold first, outputs. by destruct scan as [[d m] hm].
  - intros e He. apply Hsub in He. rewrite Hmeta in He. by apply Hsame.
Qed.

End reuse.

End CacheReuse.

Module CacheReuseRuns.

Import CachedFinder CacheReuse VerifyFacts.

(** A generator that always draws the first positions. *)
Definition first_positions (n k : nat) : list nat := seq 0 k.

Lemma first_positions_valid : valid_pick first_positions.
Proof.
  intros n k Hk. unfold first_positions. split_and!.
  - apply length_seq.
  - apply NoDup_seq.
  - apply Forall_forall. intros i Hi%elem_of_seq. lia.
Qed.

Definition wf_nameb (n : string) : bool :=
  negb (String.eqb n "") && negb (String.eqb n ".")
  && forallb (fun c => negb (Ascii.eqb c "/")) (list_ascii_of_string n).

Definition wf_pathb (p : Path) : bool :=
  match p with
  | [] => true
  | a :: rest => (String.eqb a "/" || String.eqb a "//" || wf_nameb a) && forallb wf_nameb rest
  end.

Lemma wf_pathb_true (p : Path) : wf_pathb p = true -> wf_path p.
Proof.
  destruct p as [| a rest]; [done |]. cbn [wf_pathb wf_path].
  intros [Ha Hrest]%andb_true_iff. split.
  - apply orb_true_iff in Ha as [[Ha | Ha]%orb_true_iff | Ha].
    + left. by apply String.eqb_eq.
    + right. left. by apply String.eqb_eq.
    + right. right. by apply CacheClaims.wf_name_dec_true.
  - apply Forall_forall. intros n Hn. apply CacheClaims.wf_name_dec_true.
    rewrite forallb_forall in Hrest. by apply Hrest, list_elem_of_In.
Qed.

Lemma Forall_wf_pathb {A} (f : A -> Path) (l : list A) :
  forallb (fun x => wf_pathb (f x)) l = true -> Forall (fun x => wf_path (f x)) l.
Proof.
  rewrite forallb_forall, Forall_forall. intros H x Hx.
  by apply wf_pathb_true, H, list_elem_of_In.
Qed.



(** The album after [a.jpg] was overwritten with other bytes of the
    same length and given its old modification time back, and a new
    copy of [b.jpg] was added. *)
Definition album_later : filesystem :=
  mkFs (<[album_root ++ ["a.jpg"] := regular other_bytes 0%Q]>
          (<[album_root ++ ["b (2).jpg"] := regular other_bytes 7%Q]> (files album_tree)))
       (dirs album_tree).

Lemma second_scan_uses_cache_witness :
  exists cache,
    find_duplicates XXH64.xxh64 id id first_positions album_tree None album_root false
    = (Ok (outputs (full_scan XXH64.xxh64 id id album_tree album_root)), Some cache)
    /\ find_duplicates XXH64.xxh64 id id first_positions album_later (Some cache)
                       album_root false
       = (Ok (outputs (full_scan XXH64.xxh64 id id album_tree album_root)), Some cache).
Proof.
  apply (second_scan_uses_cache XXH64.xxh64 id id first_positions first_positions_valid
           (fun l => reflexivity l) album_tree album_later album_root).
  - vm_compute. reflexivity.
  - vm_compute. reflexivity.
  - vm_compute. discriminate.
  - apply (Forall_wf_pathb (fun e : Path * Z * Q => e.1.1)). vm_compute. reflexivity.
  - apply is_consistent_unchanged. vm_compute. reflexivity.
Defined.

(** On the later album the groups of the cache are not those of a scan:
    [a.jpg] no longer has the bytes of its former copy. *)
Lemma stale_cache_differs_from_scan :
  (full_scan XXH64.xxh64 id id album_later album_root).1.1
  <> (full_scan XXH64.xxh64 id id album_tree album_root).1.1.
Proof. vm_compute. discriminate. Qed.

End CacheReuseRuns.

(** ** The JSON reader of the cleanup script *)

Module ReaderFacts.

Import CachedFinder Reader.

(** [root_dir / f] for a string [f]. *)
Definition joined (root_dir : Path) (f : string) : Path := joinpath root_dir (path_of_str f).

(** *** The deletion loop *)

Lemma delete_tasks_strings (fs : filesystem) (root_dir : Path) (k idx : Z)
  (files : list string) :
  exists tasks,
    delete_tasks fs root_dir (JInt k) idx (List.map JStr files) = Ok tasks
    /\ forall t, t ∈ tasks <->
         exists i f, files !! i = Some f /\ idx + Z.of_nat i <> k
                     /\ exists_ fs (joined root_dir f) = true
                     /\ t = Delete (joined root_dir f).
Proof.
  revert idx. induction files as [| f rest IH]; intros idx; cbn [List.map delete_tasks].
  - exists []. split; [done |]. intros t. split; [by intros ?%elem_of_nil |].
    by intros (i & f & ? & _).
  - destruct (IH (idx + 1)) as (tasks & -> & Htasks). cbn [eq_int truediv rbind].
    fold (joined root_dir f).
    assert (Hshift : forall t,
              (exists i f', rest !! i = Some f' /\ idx + 1 + Z.of_nat i <> k
                            /\ exists_ fs (joined root_dir f') = true
                            /\ t = Delete (joined root_dir f'))
              <-> exists i f', (f :: rest) !! S i = Some f' /\ idx + Z.of_nat (S i) <> k
                               /\ exists_ fs (joined root_dir f') = true
                               /\ t = Delete (joined root_dir f')).
    { intros t. split; intros (i & f' & Hi & Hk & He & Ht); exists i, f';
        (split_and!; [done | lia | done | done]). }
    destruct (Z.eqb_spec idx k) as [-> | Hne].
    + exists tasks. split; [done |]. intros t. rewrite Htasks, Hshift. split.
      * intros (i & f' & H). by exists (S i), f'.
      * intros ([| i] & f' & Hi & Hk & He & Ht); [lia |]. by exists i, f'.
    + destruct (exists_ fs (joined root_dir f)) eqn:Hex.
      * eexists. split; [done |]. intros t. rewrite elem_of_cons, Htasks, Hshift. split.
        -- intros [-> | (i & f' & H)]; [| by exists (S i), f'].
           exists 0%nat, f. split_and!; [done | lia | done | done].
        -- intros ([| i] & f' & Hi & Hk & He & Ht).
           ++ left. injection Hi as <-. done.
           ++ right. by exists i, f'.
      * exists tasks. split; [done |]. intros t. rewrite Htasks, Hshift. split.
        -- intros (i & f' & H). by exists (S i), f'.
        -- intros ([| i] & f' & Hi & Hk & He & Ht); [| by exists i, f'].
           injection Hi as <-. congruence.
Qed.

(** *** One record of the report *)

(** The index of a record is one that [files[keep_index]] accepts. *)
Definition index_ok (item : Finder.report_item) : Prop :=
  match item with
  | Finder.duplicate_group _ files keep_index =>
      - Z.of_nat (length files) <= keep_index < Z.of_nat (length files)
  | Finder.unique_file _ _ => True
  end.

Lemma py_item_strings (files : list string) (k : Z) :
  Finder.py_item (List.map JStr files) k
  = if bool_decide (- Z.of_nat (length files) <= k < Z.of_nat (length files))
    then Ok (JStr (default "" (files !! Z.to_nat (if k <? 0 then k + Z.of_nat (length files)
                                                   else k))))
    else Raise IndexError.
Proof.
  unfold Finder.py_item. rewrite length_map.
  set (n := Z.of_nat (length files)).
  set (j := if k <? 0 then k + n else k).
  destruct (Z.ltb_spec j 0) as [Hj | Hj].
  - rewrite bool_decide_false; [done |]. subst j. destruct (Z.ltb_spec k 0); lia.
  - change (List.map JStr files) with (JStr <$> files). rewrite list_lookup_fmap.
    destruct (files !! Z.to_nat j) as [f |] eqn:Hf; cbn [fmap option_fmap option_map].
    + rewrite bool_decide_true; [done |]. apply lookup_lt_Some in Hf.
      subst j n. destruct (Z.ltb_spec k 0); lia.
    + rewrite bool_decide_false; [done |]. apply lookup_ge_None in Hf.
      subst j n. destruct (Z.ltb_spec k 0); lia.
Qed.

Lemma read_group_delete (fs : filesystem) (root_dir : Path) (size : Z)
  (files : list string) (k : Z) :
  read_item fs root_dir None (item_data (Finder.duplicate_group size files k))
  = if bool_decide (- Z.of_nat (length files) <= k < Z.of_nat (length files))
    then delete_tasks fs root_dir (JInt k) 0 (List.map JStr files)
    else Raise IndexError.
Proof.
  unfold read_item, item_data.
  change (py_get "type" JNull _) with (@Ok json (JStr "duplicate_group")).
  cbn [rbind]. change (eq_str _ "duplicate_group") with true. cbn match.
  change (json_get "keep_index" _) with (@Ok json (JInt k)). cbn [rbind].
  change (json_get "files" _) with (@Ok json (JArr (List.map JStr files))). cbn [rbind].
  cbn [py_subscript]. rewrite py_item_strings. case_bool_decide; [| done].
  cbn [rbind truediv py_iter]. done.
Qed.

Lemma read_group_copy (fs : filesystem) (root_dir destination : Path) (size : Z)
  (files : list string) (k : Z) :
  read_item fs root_dir (Some destination) (item_data (Finder.duplicate_group size files k))
  = if bool_decide (- Z.of_nat (length files) <= k < Z.of_nat (length files))
    then
      let kept := default "" (files !! Z.to_nat (if k <? 0 then k + Z.of_nat (length files)
                                                  else k)) in
      Ok (if exists_ fs (joined root_dir kept)
          then [Copy (joined root_dir kept) (joined destination kept)] else [])
    else Raise IndexError.
Proof.
  unfold read_item, item_data.
  change (py_get "type" JNull _) with (@Ok json (JStr "duplicate_group")).
  cbn [rbind]. change (eq_str _ "duplicate_group") with true. cbn match.
  change (json_get "keep_index" _) with (@Ok json (JInt k)). cbn [rbind].
  change (json_get "files" _) with (@Ok json (JArr (List.map JStr files))). cbn [rbind].
  cbn [py_subscript]. rewrite py_item_strings. case_bool_decide; [| done].
  cbn [rbind truediv]. unfold joined, copy_task. cbn zeta.
  destruct (exists_ fs _); done.
Qed.

Lemma read_unique (fs : filesystem) (root_dir : Path) (copy_destination : option Path)
  (size : Z) (file : string) :
  read_item fs root_dir copy_destination (item_data (Finder.unique_file size file))
  = Ok match copy_destination with
       | Some destination =>
           if exists_ fs (joined root_dir file)
           then [Copy (joined root_dir file) (joined destination file)] else []
       | None => []
       end.
Proof.
  unfold read_item, item_data.
  change (py_get "type" JNull _) with (@Ok json (JStr "unique_file")).
  cbn [rbind]. change (eq_str _ "duplicate_group") with false.
  change (eq_str _ "unique_file") with true. cbn match.
  destruct copy_destination as [destination |]; [| done].
  change (json_get "file" _) with (@Ok json (JStr file)).
  cbn [rbind truediv]. unfold joined, copy_task. destruct (exists_ fs _); done.
Qed.

End ReaderFacts.

Module ReaderProperties.

Import CachedFinder Reader ReaderFacts.






(** *** The whole report *)

Lemma read_item_data (fs : filesystem) (root_dir : Path) (copy_destination : option Path)
  (item : Finder.report_item) :
  (index_ok item
   /\ exists tasks, read_item fs root_dir copy_destination (item_data item) = Ok tasks)
  \/ (~ index_ok item
      /\ read_item fs root_dir copy_destination (item_data item) = Raise IndexError).
Proof.
  destruct item as [size files k | size file].
  - destruct copy_destination as [destination |].
    + rewrite read_group_copy. cbn [index_ok]. case_bool_decide; [left | right]; eauto.
    + rewrite read_group_delete. cbn [index_ok]. case_bool_decide; [left | by right].
      split; [done |].
      destruct (delete_tasks_strings fs root_dir k 0 files) as (tasks & -> & _). eauto.
  - left. rewrite read_unique. cbn [index_ok]. eauto.
Qed.

Lemma read_items_data (fs : filesystem) (root_dir : Path) (copy_destination : option Path)
  (items : list Finder.report_item) :
  (Forall index_ok items
   /\ exists tasks,
        read_items fs root_dir copy_destination (List.map item_data items) = Ok tasks
        /\ forall t, t ∈ tasks <->
             exists item ts, item ∈ items
               /\ read_item fs root_dir copy_destination (item_data item) = Ok ts
               /\ t ∈ ts)
  \/ (~ Forall index_ok items
      /\ read_items fs root_dir copy_destination (List.map item_data items)
         = Raise IndexError).
Proof.
  induction items as [| item items IH]; cbn [List.map read_items].
  - left. split; [done |]. exists []. split; [done |]. intros t.
    split; [by intros ?%elem_of_nil |]. by intros (? & ? & ?%elem_of_nil & _).
  - destruct (read_item_data fs root_dir copy_destination item)
      as [[Hok (ts & Hts)] | [Hbad Hraise]].
    + rewrite Hts. cbn [rbind].
      destruct IH as [[Hall (tasks & -> & Htasks)] | [Hnot ->]]; cbn [rbind].
      * left. split; [by constructor |]. eexists. split; [done |]. intros t.
        rewrite elem_of_app, Htasks. split.
        -- intros [Ht | (it & ts' & Hit & Hr & Ht)].
           ++ exists item, ts. split_and!; [by left | done | done].
           ++ exists it, ts'. split_and!; [by right | done | done].
        -- intros (it & ts' & [-> | Hit]%elem_of_cons & Hr & Ht).
           ++ left. congruence.
           ++ right. by exists it, ts'.
      * right. split; [| done]. by intros [_ ?]%Forall_cons.
    + rewrite Hraise. cbn [rbind]. right. split; [| done]. by intros [? _]%Forall_cons.
Qed.

(** The summary as [create_json_report] writes it. *)
Definition summary_data (summary : Finder.report_summary) (total_size_to_keep_gb : string)
  : json :=
  JObj [("total_files_to_keep", JInt (Z.of_nat (Finder.total_files_to_keep summary)));
        ("total_size_to_keep_bytes", JInt (Finder.total_size_to_keep_bytes summary));
        ("total_size_to_keep_gb", JStr total_size_to_keep_gb)].

Lemma read_report_data (fs : filesystem) (root_dir : Path) (copy_destination : option Path)
  (items : list Finder.report_item) (summary : Finder.report_summary) (gb : string) :
  _read_tasks_from_json fs (report_data items summary gb) root_dir copy_destination
  = (tasks <-- read_items fs root_dir copy_destination (List.map item_data items) ;;
     Ok (tasks, summary_data summary gb)).
Proof. reflexivity. Qed.


End ReaderProperties.

(** ** From the report to the delete tasks *)

Module ReportFacts.

Import CachedFinder Reader ReaderFacts KeeperFacts CacheFacts.

(** *** What [create_json_report] writes *)

Definition item_size (item : Finder.report_item) : Z :=
  match item with
  | Finder.duplicate_group size _ _ => size
  | Finder.unique_file size _ => size
  end.

(** A record of a duplicate group lists the members of one confirmed
    group, relative to the root and in the order of the group, and its
    index is the position that [guess_keeper] chose. *)
Definition written_for (dups : list (list Path)) (root_dir : Path)
  (item : Finder.report_item) : Prop :=
  match item with
  | Finder.duplicate_group _ files keep_index =>
      exists group k,
        group ∈ dups
        /\ Finder.guess_keeper group = Ok k /\ (1 <= k <= length group)%nat
        /\ keep_index = Z.of_nat (k - 1)
        /\ Forall (fun p => root_dir `prefix_of` p) group
        /\ files = (fun p => path_str (drop (length root_dir) p)) <$> group
  | Finder.unique_file _ _ => True
  end.

Lemma mapM_relative_to (root_dir : Path) (group rels : list Path) :
  Finder.mapM (fun p => relative_to p root_dir) group = Ok rels ->
  Forall (fun p => root_dir `prefix_of` p) group
  /\ rels = drop (length root_dir) <$> group.
Proof.
  revert rels. induction group as [| p group IH]; intros rels; cbn [Finder.mapM].
  - by intros [= <-].
  - unfold relative_to at 1. case_bool_decide as Hp; cbn [rbind]; [| done].
    destruct (Finder.mapM _ group) as [rs |]; cbn [rbind]; [| done].
    destruct (IH rs eq_refl) as [Hall ->]. intros [= <-]. split; [by constructor | done].
Qed.

(** The loop keeps one kept file per record, with the size of the
    record, and every record of a group comes from that group. *)
Definition report_inv (dups : list (list Path)) (root_dir : Path)
  (st : Finder.report_state) : Prop :=
  Forall (written_for dups root_dir) st.1.1
  /\ item_size <$> st.1.1 = snd <$> st.1.2.

Lemma report_step_inv (dups : list (list Path)) (root_dir : Path)
  (st st' : Finder.report_state) (entry : Path * Z * Q) :
  Finder.report_step dups root_dir st entry = Ok st' ->
  report_inv dups root_dir st -> report_inv dups root_dir st'.
Proof.
  destruct st as [[items kept] processed], entry as [[file_path size] mtime].
  unfold Finder.report_step, report_inv. cbn [fst snd]. case_bool_decide.
  - destruct (Py.dict_get file_path _) as [gi |]; cbn [rbind]; [| done].
    destruct (dups !! gi) as [group |] eqn:Hgi; cbn [rbind]; [| done].
    case_bool_decide; [by intros [= <-] |].
    destruct group as [| p0 rest]; [by cbn |].
    destruct (guess_keeper_spec (p0 :: rest)) as (k & best & Hgk & Hk & Hb & _);
      [congruence |].
    rewrite Hgk. cbn [rbind]. destruct (Finder.py_item _ _); cbn [rbind]; [| done].
    destruct (Finder.mapM _ _) as [rels |] eqn:Hrels; cbn [rbind]; [| done].
    apply mapM_relative_to in Hrels as [Hpre ->].
    intros [= <-] [Hitems Hsizes]. cbn [fst snd]. split.
    + apply Forall_app. split; [done |]. apply Forall_singleton. cbn [written_for].
      exists (p0 :: rest), k.
      split; [by eapply list_elem_of_lookup_2 |]. split; [done |]. split; [done |].
      split; [lia |]. split; [done |].
      change (List.map path_str ?l) with (path_str <$> l).
      by rewrite <- list_fmap_compose.
    + by rewrite !fmap_app, Hsizes.
  - destruct (relative_to file_path root_dir); cbn [rbind]; [| done].
    intros [= <-] [Hitems Hsizes]. cbn [fst snd]. split.
    + apply Forall_app. split; [done |]. by apply Forall_singleton.
    + by rewrite !fmap_app, Hsizes.
Qed.

Lemma report_loop_inv (dups : list (list Path)) (root_dir : Path)
  (meta : list (Path * Z * Q)) (st st' : Finder.report_state) :
  Finder.report_loop dups root_dir st meta = Ok st' ->
  report_inv dups root_dir st -> report_inv dups root_dir st'.
Proof.
  revert st. induction meta as [| entry meta IH]; intros st; cbn [Finder.report_loop].
  - by intros [= <-].
  - destruct (Finder.report_step dups root_dir st entry) as [st1 |] eqn:Hstep;
      cbn [rbind]; [| done].
    intros Hloop Hinv. apply (IH st1 Hloop). by eapply report_step_inv.
Qed.

Lemma create_json_report_inv (meta : list (Path * Z * Q)) (dups : list (list Path))
  (root_dir : Path) (items : list Finder.report_item) (summary : Finder.report_summary) :
  Finder.create_json_report meta dups root_dir = Ok (items, summary) ->
  Forall (written_for dups root_dir) items
  /\ Finder.total_files_to_keep summary = length items
  /\ Finder.total_size_to_keep_bytes summary = foldr Z.add 0 (item_size <$> items).
Proof.
  unfold Finder.create_json_report.
  destruct (Finder.report_loop _ _ _ _) as [[[its kept] pr] |] eqn:Hloop; cbn [rbind];
    [| done].
  intros [= <- <-]. cbn [Finder.total_files_to_keep Finder.total_size_to_keep_bytes].
  destruct (report_loop_inv _ _ _ _ _ Hloop) as [Hwritten Hsizes]; [by split |].
  cbn [fst snd] in *. split_and!; [done | |].
  - apply (f_equal length) in Hsizes. by rewrite !length_fmap in Hsizes.
  - change (List.map snd kept) with (snd <$> kept). by rewrite Hsizes.
Qed.

(** The summary counts one kept file for every record of the report,
    and its total is the sum of the sizes of the records. *)
Theorem report_summary_consistent (meta : list (Path * Z * Q)) (dups : list (list Path))
  (root_dir : Path) (items : list Finder.report_item) (summary : Finder.report_summary) :
  Finder.create_json_report meta dups root_dir = Ok (items, summary) ->
  Finder.total_files_to_keep summary = length items
  /\ Finder.total_size_to_keep_bytes summary = foldr Z.add 0 (item_size <$> items).
Proof. intros H. by destruct (create_json_report_inv _ _ _ _ _ H) as (_ & ? & ?). Qed.

Lemma create_json_report_written (meta : list (Path * Z * Q)) (dups : list (list Path))
  (root_dir : Path) (items : list Finder.report_item) (summary : Finder.report_summary) :
  Finder.create_json_report meta dups root_dir = Ok (items, summary) ->
  Forall (written_for dups root_dir) items.
Proof. intros H. by destruct (create_json_report_inv _ _ _ _ _ H) as (? & _). Qed.

(** *** Relative paths come back *)

Lemma wf_name_not_anchor (n : string) : wf_name n -> is_anchor n = false.
Proof.
  intros (_ & _ & Hslash). destruct n as [| c n]; [done |]. cbn [is_anchor].
  apply Ascii.eqb_neq. unfold no_slash in Hslash. cbn in Hslash.
  by apply Forall_cons in Hslash as [? _].
Qed.

Lemma wf_names_path (l : list string) : Forall wf_name l -> wf_path l /\ has_anchor l = false.
Proof.
  destruct l as [| n l]; [done |]. intros [Hn Hl]%Forall_cons. split.
  - split; [by auto | done].
  - by apply wf_name_not_anchor.
Qed.

Lemma join_relative (root_dir p : Path) :
  wf_path p -> root_dir `prefix_of` p ->
  joined root_dir (path_str (drop (length root_dir) p)) = p.
Proof.
  intros Hwf [k ->]. rewrite drop_app_length. unfold joined.
  destruct root_dir as [| a root_dir].
  - cbn [app] in *. rewrite path_of_str_path_str by done. unfold joinpath.
    by destruct (has_anchor k).
  - cbn [app] in Hwf. destruct Hwf as [_ Hrest]. apply Forall_app in Hrest as [_ Hk].
    destruct (wf_names_path k Hk) as [Hwfk Hanchor].
    rewrite path_of_str_path_str by done. unfold joinpath. by rewrite Hanchor.
Qed.

End ReportFacts.

Module ReportProperties.

Import CachedFinder Reader ReaderFacts ReaderProperties ReportFacts KeeperFacts VerifyFacts.

Lemma valid_items_index_ok (items : list Finder.report_item) :
  Forall valid_item items -> Forall index_ok items.
Proof.
  intros H. eapply Forall_impl; [exact H |].
  intros [size files k | size file]; cbn [valid_item index_ok]; [lia | done].
Qed.

Lemma read_items_copy_length (fs : filesystem) (root_dir destination : Path)
  (items : list Finder.report_item) (tasks : list task) :
  read_items fs root_dir (Some destination) (List.map item_data items) = Ok tasks ->
  (length tasks <= length items)%nat
  /\ forall t, t ∈ tasks ->
       exists f, t = Copy (joined root_dir f) (joined destination f)
                 /\ exists_ fs (joined root_dir f) = true.
Proof.
  revert tasks. induction items as [| item items IH]; intros tasks;
    cbn [List.map read_items].
  - intros [= <-]. split; [done |]. by intros t ?%elem_of_nil.
  - destruct (read_item fs root_dir (Some destination) (item_data item)) as [ts |] eqn:Hts;
      cbn [rbind]; [| done].
    destruct (read_items _ _ _ _) as [more |]; cbn [rbind]; [| done].
    destruct (IH more eq_refl) as [Hlen Hmore]. intros [= <-].
    assert (Hone : (length ts <= 1)%nat
                   /\ forall t, t ∈ ts ->
                        exists f, t = Copy (joined root_dir f) (joined destination f)
                                  /\ exists_ fs (joined root_dir f) = true).
    { destruct item as [size files k | size file].
      - rewrite read_group_copy in Hts. case_bool_decide; [| done]. cbn zeta in Hts.
        destruct (exists_ fs _) eqn:Hex; injection Hts as <-.
        + split; [done |]. intros t ->%list_elem_of_singleton. eauto.
        + split; [cbn; lia |]. by intros t ?%elem_of_nil.
      - rewrite read_unique in Hts.
        destruct (exists_ fs _) eqn:Hex; injection Hts as <-.
        + split; [done |]. intros t ->%list_elem_of_singleton. eauto.
        + split; [cbn; lia |]. by intros t ?%elem_of_nil. }
    destruct Hone as [Hts1 Hts2]. split.
    + rewrite length_app. cbn [length]. lia.
    + intros t [Ht | Ht]%elem_of_app; auto.
Qed.

(** Every report that [create_json_report] writes is read without an
    exception, in copy mode and in deletion mode, and the summary comes
    back; in copy mode there are at most [total_files_to_keep] tasks,
    each the copy of an existing file [root_dir / f] to
    [destination / f]. *)
Theorem written_report_is_read (fs : filesystem) (meta : list (Path * Z * Q))
  (dups : list (list Path)) (root_dir : Path) (copy_destination : option Path)
  (items : list Finder.report_item) (summary : Finder.report_summary) (gb : string) :
  Finder.create_json_report meta dups root_dir = Ok (items, summary) ->
  exists tasks,
    _read_tasks_from_json fs (report_data items summary gb) root_dir copy_destination
    = Ok (tasks, summary_data summary gb)
    /\ forall destination, copy_destination = Some destination ->
         (length tasks <= Finder.total_files_to_keep summary)%nat
         /\ forall t, t ∈ tasks ->
              exists f, t = Copy (joined root_dir f) (joined destination f)
                        /\ exists_ fs (joined root_dir f) = true.
Proof.
  intros Hreport. rewrite read_report_data.
  pose proof (valid_items_index_ok _ (create_json_report_valid _ _ _ _ _ Hreport)) as Hok.
  destruct (read_items_data fs root_dir copy_destination items)
    as [[_ (tasks & Htasks & _)] | [Hbad _]]; [| done].
  rewrite Htasks. cbn [rbind]. exists tasks. split; [done |].
  intros destination ->.
  destruct (create_json_report_inv _ _ _ _ _ Hreport) as (_ & -> & _).
  by apply read_items_copy_length.
Qed.

(** From the groups to the delete tasks: when the report that
    [create_json_report] wrote for the groups [dups] is read in
    deletion mode, every file to delete exists and is a member of one
    of the groups other than the member at the position that
    [guess_keeper] chose for that group. *)
Theorem written_report_spares_keepers (fs : filesystem) (meta : list (Path * Z * Q))
  (dups : list (list Path)) (root_dir : Path)
  (items : list Finder.report_item) (summary : Finder.report_summary) (gb : string) :
  Finder.create_json_report meta dups root_dir = Ok (items, summary) ->
  Forall (Forall wf_path) dups ->
  Forall NoDup dups ->
  exists tasks,
    _read_tasks_from_json fs (report_data items summary gb) root_dir None
    = Ok (tasks, summary_data summary gb)
    /\ forall t, t ∈ tasks ->
         exists group k p,
           group ∈ dups /\ Finder.guess_keeper group = Ok k
           /\ p ∈ group /\ group !! (k - 1)%nat <> Some p
           /\ exists_ fs p = true /\ t = Delete p.
Proof.
  intros Hreport Hwf Hnodup. rewrite read_report_data.
  pose proof (valid_items_index_ok _ (create_json_report_valid _ _ _ _ _ Hreport)) as Hok.
  pose proof (create_json_report_written _ _ _ _ _ Hreport) as Hwritten.
  destruct (read_items_data fs root_dir None items)
    as [[_ (tasks & Htasks & Hchar)] | [Hbad _]]; [| done].
  rewrite Htasks. cbn [rbind]. exists tasks. split; [done |].
  intros t (item & ts & Hitem & Hread & Ht)%Hchar.
  rewrite Forall_forall in Hwritten, Hok.
  specialize (Hwritten item Hitem). specialize (Hok item Hitem).
  destruct item as [size files ki | size file].
  - cbn [written_for index_ok] in *.
    destruct Hwritten as (group & k & Hgroup & Hk & Hrange & -> & Hpre & ->).
    rewrite read_group_delete in Hread. rewrite bool_decide_true in Hread by done.
    destruct (delete_tasks_strings fs root_dir (Z.of_nat (k - 1)) 0
                ((fun p => path_str (drop (length root_dir) p)) <$> group))
      as (ts' & Hts' & Hdel).
    rewrite Hts' in Hread. injection Hread as <-.
    apply Hdel in Ht as (i & f & Hi & Hne & Hex & ->).
    apply list_lookup_fmap_Some in Hi as (p & -> & Hp).
    rewrite Forall_forall in Hwf. rewrite Forall_forall in Hnodup.
    rewrite Forall_forall in Hpre.
    assert (Hin : p ∈ group) by (by eapply list_elem_of_lookup_2).
    assert (Hwfp : wf_path p).
    { specialize (Hwf group Hgroup). rewrite Forall_forall in Hwf. by apply Hwf. }
    rewrite (join_relative root_dir p Hwfp (Hpre p Hin)) in *.
    exists group, k, p. split_and!; try done.
    intros Hkeeper. apply Hne.
    rewrite (NoDup_lookup group i (k - 1) p); [lia | by apply Hnodup | done | done].
  - rewrite read_unique in Hread. injection Hread as <-. by apply elem_of_nil in Ht.
Qed.

(** *** The report of the album *)

Definition album_groups : list (list Path) :=
  [[album_root ++ ["a.jpg"]; album_root ++ ["old"; "a (copy).jpg"]]].

Definition album_metadata : list (Path * Z * Q) :=
  [(album_root ++ ["b.jpg"], 4, 0%Q); (album_root ++ ["a.jpg"], 4, 0%Q);
   (album_root ++ ["old"; "a (copy).jpg"], 4, 1%Q)].

Definition album_items : list Finder.report_item :=
  [Finder.unique_file 4 "b.jpg";
   Finder.duplicate_group 4 ["a.jpg"; "old/a (copy).jpg"] 0].

Definition album_summary : Finder.report_summary := Finder.mkSummary 2 8.

Lemma album_report :
  Finder.create_json_report album_metadata album_groups album_root
  = Ok (album_items, album_summary).
Proof. vm_compute. reflexivity. Qed.

Lemma report_summary_consistent_witness :
  Finder.total_files_to_keep album_summary = length album_items
  /\ Finder.total_size_to_keep_bytes album_summary = foldr Z.add 0 (item_size <$> album_items).
Proof.
  apply (report_summary_consistent album_metadata album_groups album_root).
  vm_compute. reflexivity.
Defined.

Lemma written_report_is_read_witness :
  exists tasks,
    _read_tasks_from_json album_tree (report_data album_items album_summary "0.00")
                          album_root (Some ["/"; "backup"])
    = Ok (tasks, summary_data album_summary "0.00")
    /\ forall destination, Some ["/"; "backup"] = Some destination ->
         (length tasks <= Finder.total_files_to_keep album_summary)%nat
         /\ forall t, t ∈ tasks ->
              exists f, t = Copy (joined album_root f) (joined destination f)
                        /\ exists_ album_tree (joined album_root f) = true.
Proof.
  apply (written_report_is_read album_tree album_metadata album_groups).
  vm_compute. reflexivity.
Defined.

Lemma written_report_spares_keepers_witness :
  exists tasks,
    _read_tasks_from_json album_tree (report_data album_items album_summary "0.00")
                          album_root None
    = Ok (tasks, summary_data album_summary "0.00")
    /\ forall t, t ∈ tasks ->
         exists group k p,
           group ∈ album_groups /\ Finder.guess_keeper group = Ok k
           /\ p ∈ group /\ group !! (k - 1)%nat <> Some p
           /\ exists_ album_tree p = true /\ t = Delete p.
Proof.
  apply (written_report_spares_keepers album_tree album_metadata album_groups).
  - vm_compute. reflexivity.
  - apply Forall_singleton.
    apply (CacheReuseRuns.Forall_wf_pathb (fun p : Path => p)). vm_compute. reflexivity.
  - apply Forall_singleton. apply NoDup_cons. split; [| apply NoDup_singleton].
    by intros [=]%list_elem_of_singleton.
Defined.




End ReportProperties.

(** ** The shape of the confirmed sets *)

Module Phase3Shape.

Import Finder VerifyFacts Phase3Facts PipelineFacts.

(** The files of all the sets, set after set. *)
Definition members (conf : list (gset Path)) : list Path := concat (elements <$> conf).

Lemma elem_of_members (conf : list (gset Path)) (z : Path) :
  z ∈ members conf <-> exists s, s ∈ conf /\ z ∈ s.
Proof.
  unfold members. rewrite elem_of_concat. split.
  - intros (l & (s & -> & Hs)%list_elem_of_fmap & Hz). exists s.
    by rewrite <- elem_of_elements.
  - intros (s & Hs & Hz). exists (elements s). split.
    + by apply list_elem_of_fmap_2.
    + by apply elem_of_elements.
Qed.

Lemma members_app (c1 c2 : list (gset Path)) : members (c1 ++ c2) = members c1 ++ members c2.
Proof. unfold members. by rewrite fmap_app, concat_app. Qed.

Lemma members_cons (s : gset Path) (conf : list (gset Path)) :
  members (s :: conf) = elements s ++ members conf.
Proof. done. Qed.

(** In a list of sets without a common file, a file tells its set. *)
Lemma apart_same_set (conf : list (gset Path)) (s s' : gset Path) (z : Path) :
  NoDup (members conf) -> s ∈ conf -> s' ∈ conf -> z ∈ s -> z ∈ s' -> s = s'.
Proof.
  induction conf as [| s0 conf IH]; [by intros _ ?%elem_of_nil |].
  rewrite members_cons. intros (Hs0 & Hdisj & Hrest)%NoDup_app Hs Hs' Hz Hz'.
  apply elem_of_cons in Hs as [-> | Hs], Hs' as [-> | Hs'].
  - done.
  - destruct (Hdisj z); [by apply elem_of_elements |].
    apply elem_of_members. by exists s'.
  - destruct (Hdisj z); [by apply elem_of_elements |].
    apply elem_of_members. by exists s.
  - by apply IH.
Qed.

Lemma add_to_found_set_Some_inv (f1 f2 : Path) (conf conf' : list (gset Path)) :
  add_to_found_set f1 f2 conf = Some conf' ->
  exists pre s post,
    conf = pre ++ s :: post /\ conf' = pre ++ ({[ f1; f2 ]} ∪ s) :: post
    /\ (f1 ∈ s \/ f2 ∈ s).
Proof.
  revert conf'. induction conf as [| s0 conf IH]; intros conf'; cbn [add_to_found_set];
    [done |].
  destruct (bool_decide (f1 ∈ s0) || bool_decide (f2 ∈ s0)) eqn:Hin.
  - intros [= <-]. exists [], s0, conf. split_and!; [done | done |].
    apply orb_true_iff in Hin as [?%bool_decide_eq_true | ?%bool_decide_eq_true]; auto.
  - destruct (add_to_found_set f1 f2 conf) as [rest |]; [| done].
    destruct (IH rest eq_refl) as (pre & s & post & -> & -> & Hs). intros [= <-].
    by exists (s0 :: pre), s, post.
Qed.

Lemma add_to_found_set_None_inv (f1 f2 : Path) (conf : list (gset Path)) :
  add_to_found_set f1 f2 conf = None -> forall s, s ∈ conf -> (f1 ∉ s) /\ (f2 ∉ s).
Proof.
  induction conf as [| s0 conf IH]; cbn [add_to_found_set]; [by intros _ s ?%elem_of_nil |].
  destruct (bool_decide (f1 ∈ s0) || bool_decide (f2 ∈ s0)) eqn:Hin; [done |].
  destruct (add_to_found_set f1 f2 conf) as [rest |]; [done |].
  intros _ s [-> | Hs]%elem_of_cons; [| by apply IH].
  apply orb_false_iff in Hin as [?%bool_decide_eq_false ?%bool_decide_eq_false]. done.
Qed.

Section shape.

Variable fs : filesystem.

(** The state while the pairs of [group] are visited: the files of the
    group that are in a set are checked, no file is in two sets, and
    every set has two different members. *)
Record shaped (group : list Path) (st : list (gset Path) * gset Path) : Prop := {
  in_checked : forall s z, s ∈ st.1 -> z ∈ s -> z ∈ group -> z ∈ st.2;
  apart : NoDup (members st.1);
  paired : forall s, s ∈ st.1 -> exists a b, a <> b /\ a ∈ s /\ b ∈ s
}.

Lemma verify_pair_shaped (group : list Path) (st : list (gset Path) * gset Path)
  (f1 f2 : Path) :
  f1 ∈ group -> f2 ∈ group -> f1 <> f2 ->
  shaped group st -> shaped group (verify_pair fs st (f1, f2)).
Proof.
  intros Hf1 Hf2 Hne [Hchk Hapart Hpair]. destruct st as [conf chk]. cbn [fst snd] in *.
  cbn [verify_pair].
  destruct (bool_decide (f1 ∈ chk) && bool_decide (f2 ∈ chk)) eqn:Hboth; [by split |].
  destruct (files_are_identical fs f1 f2); [| by split].
  assert (Hnot : ~ (f1 ∈ chk /\ f2 ∈ chk)).
  { intros [H1 H2]. by rewrite !bool_decide_true in Hboth. }
  assert (Hfree : forall z, z ∈ group -> z ∉ chk -> z ∉ members conf).
  { intros z Hz Hzc (s & Hs & Hzs)%elem_of_members. apply Hzc. by eapply Hchk. }
  destruct (add_to_found_set f1 f2 conf) as [c |] eqn:Hadd.
  - apply add_to_found_set_Some_inv in Hadd as (pre & s & post & -> & -> & Hs).
    assert (Hsin : s ∈ pre ++ s :: post) by (apply elem_of_app; right; by left).
    assert (Hcase : exists u, (u = f1 \/ u = f2) /\ (u ∉ members (pre ++ s :: post))
                              /\ {[ f1; f2 ]} ∪ s = {[ u ]} ∪ s).
    { destruct Hs as [H1 | H2].
      - exists f2. split; [by right |]. split; [| set_solver].
        apply Hfree; [done |]. intros H2. apply Hnot. split; [| done]. by eapply Hchk.
      - exists f1. split; [by left |]. split; [| set_solver].
        apply Hfree; [done |]. intros H1. apply Hnot. split; [done |]. by eapply Hchk. }
    destruct Hcase as (u & Hu & Hfresh & Heq).
    split; cbn [fst snd].
    + intros s0 z Hs0 Hz Hzg. apply elem_of_app in Hs0 as [Hs0 | [-> | Hs0]%elem_of_cons].
      * apply elem_of_union. right. apply (Hchk s0 z); [| done | done].
        apply elem_of_app. by left.
      * apply elem_of_union in Hz as [Hz | Hz]; [set_solver |].
        apply elem_of_union. right. by apply (Hchk s z).
      * apply elem_of_union. right. apply (Hchk s0 z); [| done | done].
        apply elem_of_app. right. by right.
    + rewrite Heq. rewrite members_app, members_cons in *.
      assert (Hus : u ∉ s).
      { intros Hus. apply Hfresh. apply elem_of_app. right. apply elem_of_app. left.
        by apply elem_of_elements. }
      rewrite (elements_union_singleton s u Hus). rewrite <- app_comm_cons.
      rewrite <- Permutation_middle. apply NoDup_cons. split; [| done].
      intros [H | [H | H]%elem_of_app]%elem_of_app; apply Hfresh.
      * apply elem_of_app. by left.
      * apply elem_of_app. right. apply elem_of_app. by left.
      * apply elem_of_app. right. apply elem_of_app. by right.
    + intros s0 [Hs0 | [-> | Hs0]%elem_of_cons]%elem_of_app.
      * apply Hpair. apply elem_of_app. by left.
      * exists f1, f2. split; [done |]. set_solver.
      * apply Hpair. apply elem_of_app. right. by right.
  - pose proof (add_to_found_set_None_inv f1 f2 conf Hadd) as Hnone.
    split; cbn [fst snd].
    + intros s0 z [Hs0 | ->%list_elem_of_singleton]%elem_of_app Hz Hzg.
      * apply elem_of_union. right. by apply (Hchk s0 z).
      * apply elem_of_union. by left.
    + rewrite members_app. unfold members at 2. cbn [fmap list_fmap concat].
      rewrite app_nil_r.
      assert (Hel : elements ({[ f1; f2 ]} : gset Path) ≡ₚ [f1; f2]).
      { rewrite elements_union_singleton by set_solver. by rewrite elements_singleton. }
      rewrite Hel. apply NoDup_app. split_and!; [done | |].
      * intros z (s & Hs & Hz)%elem_of_members Hz12. destruct (Hnone s Hs) as [H1 H2].
        apply elem_of_cons in Hz12 as [-> | ->%list_elem_of_singleton]; done.
      * apply NoDup_cons. split; [| apply NoDup_singleton].
        by intros ?%list_elem_of_singleton.
    + intros s0 [Hs0 | ->%list_elem_of_singleton]%elem_of_app; [by apply Hpair |].
      exists f1, f2. split; [done |]. set_solver.
Qed.

Lemma verify_group_shaped (conf : list (gset Path)) (group : list Path) :
  NoDup group ->
  (forall s z, s ∈ conf -> z ∈ s -> z ∉ group) ->
  NoDup (members conf) ->
  (forall s, s ∈ conf -> exists a b, a <> b /\ a ∈ s /\ b ∈ s) ->
  NoDup (members (verify_group fs conf group))
  /\ forall s, s ∈ verify_group fs conf group -> exists a b, a <> b /\ a ∈ s /\ b ∈ s.
Proof.
  intros Hnodup Hout Hapart Hpair. unfold verify_group.
  assert (Hstart : shaped group (conf, ∅)).
  { split; cbn [fst snd]; [| done | done]. intros s z Hs Hz Hzg. by destruct (Hout s z). }
  assert (Hpairs : forall pr, pr ∈ Py.combinations2 group ->
                              pr.1 ∈ group /\ pr.2 ∈ group /\ pr.1 <> pr.2).
  { intros [a b] Hpr. cbn [fst snd].
    destruct (FolderFacts.combinations2_in group a b Hpr) as [Ha Hb].
    split_and!; [done | done |]. by apply (FolderFacts.combinations2_neq group). }
  revert Hstart Hpairs. generalize (Py.combinations2 group) as pairs.
  generalize (conf, (∅ : gset Path)) as st.
  intros st pairs. revert st. induction pairs as [| [a b] pairs IH]; intros st Hst Hpairs.
  - cbn [foldl]. by destruct Hst.
  - cbn [foldl]. apply IH.
    + destruct (Hpairs (a, b)) as (Ha & Hb & Hab); [by left |].
      by apply verify_pair_shaped.
    + intros pr Hpr. apply Hpairs. by right.
Qed.

Lemma phase3_shaped (likely_dupes : list (list Path)) :
  NoDup (concat likely_dupes) ->
  NoDup (members (phase3 fs likely_dupes))
  /\ (forall s, s ∈ phase3 fs likely_dupes -> exists a b, a <> b /\ a ∈ s /\ b ∈ s)
  /\ (forall s z, s ∈ phase3 fs likely_dupes -> z ∈ s -> z ∈ concat likely_dupes).
Proof.
  unfold phase3. intros Hnodup.
  assert (Hstart : NoDup (members []) /\
                   (forall s, s ∈ @nil (gset Path) -> exists a b, a <> b /\ a ∈ s /\ b ∈ s) /\
                   (forall s z, s ∈ @nil (gset Path) -> z ∈ s -> False)).
  { split_and!; [constructor | by intros s ?%elem_of_nil | by intros s z ?%elem_of_nil]. }
  revert Hstart.
  cut (forall conf done,
         NoDup (concat likely_dupes) ->
         (forall z, z ∈ done -> z ∉ concat likely_dupes) ->
         NoDup (members conf)
         /\ (forall s, s ∈ conf -> exists a b, a <> b /\ a ∈ s /\ b ∈ s)
         /\ (forall s z, s ∈ conf -> z ∈ s -> z ∈ done) ->
         NoDup (members (foldl (verify_group fs) conf likely_dupes))
         /\ (forall s, s ∈ foldl (verify_group fs) conf likely_dupes ->
                       exists a b, a <> b /\ a ∈ s /\ b ∈ s)
         /\ (forall s z, s ∈ foldl (verify_group fs) conf likely_dupes -> z ∈ s ->
                         z ∈ done ++ concat likely_dupes)).
  { intros Hgen (H1 & H2 & H3). apply (Hgen [] []); [done | by intros z ?%elem_of_nil |].
    split_and!; [done | done |]. intros s z Hs Hz. by destruct (H3 s z). }
  clear Hnodup. induction likely_dupes as [| g rest IH]; intros conf done Hnodup Hdone Hinv.
  - cbn [foldl concat]. rewrite app_nil_r. done.
  - cbn [foldl concat] in *. destruct Hinv as (Hapart & Hpair & Hprov).
    apply NoDup_app in Hnodup as (Hg & Hdisj & Hrest).
    destruct (verify_group_shaped conf g) as [Hapart' Hpair']; [done | | done | done |].
    { intros s z Hs Hz Hzg. apply (Hdone z (Hprov s z Hs Hz)). apply elem_of_app. by left. }
    destruct (verify_group_grows fs conf g) as [_ Hmem].
    destruct (IH (verify_group fs conf g) (done ++ g)) as (R1 & R2 & R3).
    + done.
    + intros z [Hz | Hz]%elem_of_app.
      * intros Hzr. apply (Hdone z Hz). apply elem_of_app. by right.
      * by apply Hdisj.
    + split_and!; [done | done |]. intros s z Hs Hz.
      destruct (Hmem s z Hs Hz) as [Hzg | (s0 & Hs0 & Hz0)].
      * apply elem_of_app. by right.
      * apply elem_of_app. left. by eapply Hprov.
    + split_and!; [done | done |]. intros s z Hs Hz.
      rewrite (assoc_L (++)). by eapply R3.
Qed.

End shape.

End Phase3Shape.

(** ** The groups of [duplicate_file_finder.find_duplicates] are the
    classes of equal content *)

Module GroupClasses.

Import Finder VerifyFacts GroupFacts ScanFacts PipelineFacts Phase3Facts Phase3Shape.

(** [q] is one of the recorded files [meta] and holds the bytes of
    [p]. *)
Definition same_class (fs : filesystem) (meta : list (Path * Z * Q)) (p q : Path) : Prop :=
  scanned meta q
  /\ exists data, read_bytes fs p = Ok data /\ read_bytes fs q = Ok data.

Lemma stat_read_readable (fs : filesystem) (p : Path) (size : Z) (mtime : Q) (data : bytes) :
  stat fs p = Ok (size, mtime) -> 0 < size -> read_bytes fs p = Ok data ->
  readable fs p data /\ data <> [] /\ size = Z.of_nat (length data).
Proof.
  intros Hstat Hpos. unfold read_bytes, stat in *.
  destruct (files fs !! p) as [i |] eqn:Hi; [| done].
  destruct (i_stat_fails i) eqn:Hs; [done |]. injection Hstat as <- _.
  destruct (i_read_fails i) eqn:Hr; [done |]. intros [= <-]. split_and!.
  - by exists i.
  - intros Hnil. rewrite Hnil in Hpos. cbn in Hpos. lia.
  - done.
Qed.

Section classes.

Variable walk_order : list Path -> list Path.
Variable as_completed : forall A : Type, list A -> list A.

Hypothesis walk_order_perm : forall l, walk_order l ≡ₚ l.
Hypothesis as_completed_perm : forall A (l : list A), as_completed A l ≡ₚ l.

Local Abbreviation recorded_files fs root_dir :=
  (phase1 walk_order as_completed fs root_dir).

Local Abbreviation likely fs root_dir :=
  (phase2 as_completed fs (Py.more_than_one (files_by_size (recorded_files fs root_dir)))).

Lemma phase2_submseteq (fs : filesystem) (root_dir : Path) :
  concat (likely fs root_dir)
  ⊆+ (fun r : Path * Z * Q => r.1.1) <$> recorded_files fs root_dir.
Proof.
  rewrite (phase2_eq as_completed), concat_concat_fmap, <- list_fmap_compose.
  etrans.
  - apply (concat_fmap_submseteq _ snd). intros sf _.
    apply (edge_groups_submseteq as_completed as_completed_perm).
  - etrans; [apply more_than_one_submseteq |].
    unfold files_by_size. by rewrite group_by_concat.
Qed.

Lemma likely_scanned (fs : filesystem) (root_dir z : Path) :
  z ∈ concat (likely fs root_dir) -> scanned (recorded_files fs root_dir) z.
Proof.
  intros Hz. pose proof (elem_of_submseteq _ _ _ Hz (phase2_submseteq fs root_dir)) as Hin.
  apply list_elem_of_fmap in Hin as ([[q size] mtime] & -> & Hin). cbn [fst].
  by exists size, mtime.
Qed.

(** A confirmed set is the class of each of its members. *)
Lemma set_is_class (fs : filesystem) (root_dir : Path) (s : gset Path) (p : Path) :
  s ∈ phase3 fs (likely fs root_dir) -> p ∈ s ->
  forall q, q ∈ s <-> same_class fs (recorded_files fs root_dir) p q.
Proof.
  intros Hs Hp q.
  pose proof (phase2_NoDup walk_order as_completed walk_order_perm as_completed_perm
                fs root_dir) as Hnodup. cbn zeta in Hnodup.
  destruct (phase3_shaped fs _ Hnodup) as (Hapart & _ & Hprov).
  pose proof (phase3_same_content fs (likely fs root_dir)) as Hsame.
  rewrite Forall_forall in Hsame. destruct (Hsame s Hs) as (d & Hd).
  assert (Hrec : forall z, z ∈ s -> scanned (recorded_files fs root_dir) z).
  { intros z Hz. apply likely_scanned. by eapply Hprov. }
  split.
  - intros Hq. split; [by apply Hrec |]. exists d. split; by apply Hd.
  - intros ((size & mtime & Hr) & data & Hpd & Hqd).
    destruct (decide (q = p)) as [-> | Hne]; [done |].
    destruct (Hrec p Hp) as (sp & mp & Hrp).
    destruct (phase1_stat walk_order as_completed fs root_dir p sp mp Hrp) as [Hsp Hpp].
    destruct (phase1_stat walk_order as_completed fs root_dir q size mtime Hr) as [Hsq Hpq].
    destruct (stat_read_readable fs p sp mp data Hsp Hpp Hpd) as (Hreadp & Hdata & ->).
    destruct (stat_read_readable fs q size mtime data Hsq Hpq Hqd) as (Hreadq & _ & ->).
    destruct (phase2_together walk_order as_completed walk_order_perm as_completed_perm
                fs root_dir p q data mp mtime) as (g & Hg & Hpg & Hqg); try done.
    destruct (Phase3Rows.phase3_complete fs _ g p q Hnodup Hg Hpg Hqg) as (s' & Hs' & Hps' & Hqs').
    { done. }
    { apply files_are_identical_iff. by exists data. }
    by rewrite (apart_same_set _ s s' p Hapart Hs Hs' Hp Hps').
Qed.

Lemma groups_of_sets (fs : filesystem) (root_dir : Path) (group : list Path) :
  group ∈ (find_duplicates walk_order as_completed fs root_dir).1 <->
  exists s, s ∈ phase3 fs (likely fs root_dir) /\ group = Py.sort path_ltb (elements s).
Proof.
  unfold find_duplicates. cbn [fst]. rewrite list_elem_of_fmap. split.
  - intros (s & -> & Hs). by exists s.
  - intros (s & Hs & ->). by exists s.
Qed.

Lemma elem_of_sorted (s : gset Path) (z : Path) :
  z ∈ Py.sort path_ltb (elements s) <-> z ∈ s.
Proof.
  change path_ltb with (OrderFacts.ltb path_compare).
  by rewrite OrderFacts.sort_perm, elem_of_elements.
Qed.

Lemma sorted_members (conf : list (gset Path)) :
  concat (List.map (fun s => Py.sort path_ltb (elements s)) conf) ≡ₚ members conf.
Proof.
  unfold members. induction conf as [| s conf IH];
    cbn [List.map fmap list_fmap concat]; [done |].
  change path_ltb with (OrderFacts.ltb path_compare).
  by rewrite OrderFacts.sort_perm, IH.
Qed.

(** Each returned group is exactly a class of equal content among the
    files the scan has recorded: with one member [p], its members are
    the files of the returned metadata list that can be read and hold
    the bytes of [p]. *)
Theorem groups_are_content_classes (fs : filesystem) (root_dir : Path) (group : list Path)
  (p : Path) :
  let result := find_duplicates walk_order as_completed fs root_dir in
  group ∈ result.1 -> p ∈ group ->
  forall q, q ∈ group <->
    scanned result.2 q
    /\ exists data, read_bytes fs p = Ok data /\ read_bytes fs q = Ok data.
Proof.
  intros result (s & Hs & ->)%groups_of_sets Hp%elem_of_sorted q.
  rewrite elem_of_sorted. by apply set_is_class.
Qed.

(** No file is reported twice, in two groups or twice in one, and
    every group has at least two members. *)
Theorem groups_are_disjoint_pairs (fs : filesystem) (root_dir : Path) :
  NoDup (concat (find_duplicates walk_order as_completed fs root_dir).1)
  /\ forall group, group ∈ (find_duplicates walk_order as_completed fs root_dir).1 ->
                   (2 <= length group)%nat.
Proof.
  pose proof (phase2_NoDup walk_order as_completed walk_order_perm as_completed_perm
                fs root_dir) as Hnodup. cbn zeta in Hnodup.
  destruct (phase3_shaped fs _ Hnodup) as (Hapart & Hpair & _). split.
  - unfold find_duplicates. cbn [fst]. fold (likely fs root_dir).
    by rewrite sorted_members.
  - intros group (s & Hs & ->)%groups_of_sets.
    destruct (Hpair s Hs) as (a & b & Hne & Ha & Hb).
    apply (HashPipelineFacts.two_in _ a b); [by apply elem_of_sorted .. | done].
Qed.

End classes.

(** The groups do not depend on the order in which the operating
    system lists the tree or in which the futures complete: a group of
    one run is a group of any other run on the same file system. *)
Theorem groups_order_independent (walk_order walk_order' : list Path -> list Path)
  (as_completed as_completed' : forall A : Type, list A -> list A)
  (fs : filesystem) (root_dir : Path) (group : list Path) :
  (forall l, walk_order l ≡ₚ l) -> (forall l, walk_order' l ≡ₚ l) ->
  (forall A (l : list A), as_completed A l ≡ₚ l) ->
  (forall A (l : list A), as_completed' A l ≡ₚ l) ->
  group ∈ (find_duplicates walk_order as_completed fs root_dir).1 ->
  group ∈ (find_duplicates walk_order' as_completed' fs root_dir).1.
Proof.
  intros Hw Hw' Hc Hc' Hgroup.
  pose proof Hgroup as (s & Hs & ->)%groups_of_sets.
  pose proof (phase2_NoDup walk_order as_completed Hw Hc fs root_dir) as Hnodup.
  pose proof (phase2_NoDup walk_order' as_completed' Hw' Hc' fs root_dir) as Hnodup'.
  cbn zeta in Hnodup, Hnodup'.
  destruct (phase3_shaped fs _ Hnodup) as (_ & Hpair & _).
  destruct (Hpair s Hs) as (a & b & Hne & Ha & Hb).
  pose proof (set_is_class walk_order as_completed Hw Hc fs root_dir s a Hs Ha) as Hclass.
  assert (Hsame : forall z size mtime,
            (z, size, mtime) ∈ phase1 walk_order as_completed fs root_dir
            <-> (z, size, mtime) ∈ phase1 walk_order' as_completed' fs root_dir).
  { intros z size mtime.
    by rewrite (ScannerClaims.elem_of_phase1 _ _ Hw Hc),
               (ScannerClaims.elem_of_phase1 _ _ Hw' Hc'). }
  destruct (proj1 (Hclass a) Ha) as ((sa & ma & Hra) & da & Hda & _).
  destruct (proj1 (Hclass b) Hb) as ((sb & mb & Hrb) & db & Hda' & Hdb).
  assert (db = da) as -> by congruence.
  destruct (phase1_stat walk_order as_completed fs root_dir a sa ma Hra) as [Hsa Hpa].
  destruct (phase1_stat walk_order as_completed fs root_dir b sb mb Hrb) as [Hsb Hpb].
  destruct (stat_read_readable fs a sa ma da Hsa Hpa Hda) as (Hreada & Hdata & ->).
  destruct (stat_read_readable fs b sb mb da Hsb Hpb Hdb) as (Hreadb & _ & ->).
  apply Hsame in Hra, Hrb.
  destruct (phase2_together walk_order' as_completed' Hw' Hc' fs root_dir a b da ma mb)
    as (g & Hg & Hag & Hbg); try done.
  destruct (Phase3Rows.phase3_complete fs _ g a b Hnodup' Hg Hag Hbg) as (s' & Hs' & Has' & Hbs').
  { done. }
  { apply files_are_identical_iff. by exists da. }
  pose proof (set_is_class walk_order' as_completed' Hw' Hc' fs root_dir s' a Hs' Has')
    as Hclass'.
  assert (s = s') as ->.
  { apply set_eq. intros z. rewrite Hclass, Hclass'. unfold same_class, scanned.
    split; intros ((sz & mz & Hz) & Hd); (split; [| done]); exists sz, mz; by apply Hsame. }
  apply groups_of_sets. by exists s'.
Qed.

Lemma groups_are_content_classes_witness :
  album_root ++ ["b.jpg"]
    ∈ [album_root ++ ["a.jpg"]; album_root ++ ["old"; "a (copy).jpg"]]
  <-> scanned (find_duplicates id (fun _ l => l) album_tree album_root).2
              (album_root ++ ["b.jpg"])
      /\ exists data, read_bytes album_tree (album_root ++ ["a.jpg"]) = Ok data
                      /\ read_bytes album_tree (album_root ++ ["b.jpg"]) = Ok data.
Proof.
  apply (groups_are_content_classes id (fun _ l => l) (fun l => reflexivity l)
           (fun _ l => reflexivity l) album_tree album_root).
  - apply list_elem_of_In. vm_compute. tauto.
  - by left.
Defined.

Lemma groups_are_disjoint_pairs_witness :
  NoDup (concat (find_duplicates id (fun _ l => l) album_tree album_root).1)
  /\ forall group, group ∈ (find_duplicates id (fun _ l => l) album_tree album_root).1 ->
                   (2 <= length group)%nat.
Proof.
  apply (groups_are_disjoint_pairs id (fun _ l => l) (fun l => reflexivity l)
           (fun _ l => reflexivity l)).
Defined.

Lemma groups_order_independent_witness :
  [album_root ++ ["a.jpg"]; album_root ++ ["old"; "a (copy).jpg"]]
    ∈ (find_duplicates (@rev Path) (fun A => @rev A) album_tree album_root).1.
Proof.
  apply (groups_order_independent id (@rev Path) (fun _ l => l) (fun A => @rev A)).
  - intros l. reflexivity.
  - intros l. symmetry. apply Permutation_rev.
  - intros A l. reflexivity.
  - intros A l. symmetry. apply Permutation_rev.
  - apply list_elem_of_In. vm_compute. tauto.
Defined.

End GroupClasses.

(** ** Sorted groups, folder statistics and cache failures *)

Module SortFacts.

Section sorted.

Context {A : Type} (cmp : A -> A -> comparison) `{!OrderFacts.TotalCompare cmp}.

Local Abbreviation ltb := (OrderFacts.ltb cmp).
Local Abbreviation le := (OrderFacts.le cmp).

Lemma sort_insert_sorted (x : A) (l : list A) :
  Sorted.StronglySorted le l -> Sorted.StronglySorted le (Py.sort_insert ltb x l).
Proof.
  induction 1 as [| y l Hl IH Hy]; cbn [Py.sort_insert].
  - constructor; [constructor | constructor].
  - destruct (ltb y x) eqn:Hyx.
    + constructor; [exact IH |]. rewrite OrderFacts.sort_insert_perm.
      constructor; [by apply OrderFacts.ltb_le | done].
    + apply OrderFacts.not_ltb_le in Hyx; [| done].
      constructor; [by constructor |]. constructor; [done |].
      eapply Forall_impl; [exact Hy |]. intros z Hz. by eapply OrderFacts.le_trans.
Qed.

Lemma sort_sorted (l : list A) : Sorted.StronglySorted le (Py.sort ltb l).
Proof.
  induction l as [| x l IH]; cbn [Py.sort]; [constructor |].
  by apply sort_insert_sorted.
Qed.

Lemma sorted_NoDup_strict (l : list A) :
  Sorted.StronglySorted le l -> NoDup l -> Sorted.StronglySorted (fun x y => cmp x y = Lt) l.
Proof.
  induction 1 as [| x l Hl IH Hx]; intros Hnodup; [constructor |].
  apply NoDup_cons in Hnodup as [Hxl Hnodup]. constructor; [by apply IH |].
  apply Forall_forall. intros y Hy. rewrite Forall_forall in Hx.
  specialize (Hx y Hy). unfold OrderFacts.le in Hx.
  destruct (cmp x y) eqn:Hc; [| done | done].
  apply (OrderFacts.cmp_eq cmp) in Hc. by subst.
Qed.

End sorted.

End SortFacts.

Module GroupOrder.

Import Finder Phase3Shape GroupClasses.

(** The members of every returned group are in strictly ascending
    order of their paths ([Path.__lt__] compares the parts). *)
Theorem groups_are_sorted (walk_order : list Path -> list Path)
  (as_completed : forall A : Type, list A -> list A) (fs : filesystem) (root_dir : Path)
  (group : list Path) :
  group ∈ (find_duplicates walk_order as_completed fs root_dir).1 ->
  Sorted.StronglySorted (fun p q => path_compare p q = Lt) group.
Proof.
  unfold find_duplicates. cbn [fst]. intros (s & -> & _)%list_elem_of_fmap.
  change path_ltb with (OrderFacts.ltb path_compare).
  apply SortFacts.sorted_NoDup_strict; [apply _ | apply SortFacts.sort_sorted, _ |].
  rewrite OrderFacts.sort_perm. apply NoDup_elements.
Qed.

Lemma groups_are_sorted_witness :
  Sorted.StronglySorted (fun p q => path_compare p q = Lt)
    [VerifyFacts.album_root ++ ["a.jpg"]; VerifyFacts.album_root ++ ["old"; "a (copy).jpg"]].
Proof.
  apply (groups_are_sorted id (fun _ l => l) VerifyFacts.album_tree VerifyFacts.album_root).
  apply list_elem_of_In. vm_compute. tauto.
Defined.

End GroupOrder.

Module FolderStats.

Import CachedFinder.

(** The [(st_size, st_mtime)] of the files of the list that lie
    directly in [folder] and whose [stat] succeeds, one entry for each
    occurrence in the list. *)
Definition entries (fs : filesystem) (folder : Path) (all_files : list Path) : list (Z * Q) :=
  omap (fun file =>
          if decide (parent file = folder) then
            match stat fs file with
            | Ok sm => Some sm
            | Raise _ => None
            end
          else None) all_files.

Definition tally (st : folder_stat) (l : list (Z * Q)) : folder_stat :=
  foldl (fun st (sm : Z * Q) =>
           mkFolderStat (fs_size st + sm.1) (S (fs_files st))
                        (Qmax (fs_last_modified st) sm.2)) st l.

Lemma tally_totals (l : list (Z * Q)) (st : folder_stat) :
  fs_files (tally st l) = (fs_files st + length l)%nat
  /\ fs_size (tally st l) = fs_size st + foldr Z.add 0 (l.*1)
  /\ fs_last_modified (tally st l) = foldl Qmax (fs_last_modified st) (l.*2).
Proof.
  revert st. induction l as [| [s m] l IH]; intros st.
  - cbn. split_and!; [lia | lia | done].
  - change (tally st ((s, m) :: l))
      with (tally (mkFolderStat (fs_size st + s) (S (fs_files st))
                                (Qmax (fs_last_modified st) m)) l).
    destruct (IH (mkFolderStat (fs_size st + s) (S (fs_files st))
                               (Qmax (fs_last_modified st) m))) as (-> & -> & ->).
    cbn. split_and!; [lia | lia | done].
Qed.

Lemma stats_fold (fs : filesystem) (folder : Path) (all_files : list Path)
  (stats : Py.dict Path folder_stat) :
  Py.dict_get folder (foldl (stats_step fs) stats all_files)
  = match entries fs folder all_files with
    | [] => Py.dict_get folder stats
    | l => Some (tally (default (mkFolderStat 0 0 0%Q) (Py.dict_get folder stats)) l)
    end.
Proof.
  revert stats. induction all_files as [| file files IH]; intros stats; [done |].
  cbn [foldl]. rewrite IH. unfold entries. cbn [omap list_omap].
  fold (entries fs folder files). unfold stats_step at 1 2.
  destruct (stat fs file) as [[st_size st_mtime] | e].
  - rewrite KeeperFacts.dict_get_set. destruct (decide (parent file = folder)) as [<- | Hne].
    + cbn [default]. by destruct (entries fs (parent file) files).
    + done.
  - by destruct (decide (parent file = folder)).
Qed.

(** For every folder, the statistics count the files of the list that
    lie directly in it and can be stat'ed (each occurrence), add up
    their sizes and take the latest modification time, starting from
    0.0; a folder without such a file has no statistics. *)
Theorem folder_stats_count (xxh64 : bytes -> Z) (fs : filesystem) (all_files : list Path)
  (full_hashes_map : Py.dict string (list Path)) (folder : Path) :
  match Py.dict_get folder (analyze_folder_duplicates xxh64 fs all_files full_hashes_map).2 with
  | Some st =>
      entries fs folder all_files <> []
      /\ fs_files st = length (entries fs folder all_files)
      /\ fs_size st = foldr Z.add 0 ((entries fs folder all_files).*1)
      /\ fs_last_modified st = foldl Qmax 0%Q ((entries fs folder all_files).*2)
  | None => entries fs folder all_files = []
  end.
Proof.
  unfold analyze_folder_duplicates. cbn [snd]. rewrite stats_fold. cbn [Py.dict_get default].
  destruct (entries fs folder all_files) as [| sm l] eqn:He; [done |].
  destruct (tally_totals (sm :: l) (mkFolderStat 0 0 0%Q)) as (-> & -> & ->).
  cbn [fs_files fs_size fs_last_modified]. split_and!; [done | done | lia | done].
Qed.

End FolderStats.

